(** * Swiss Round Robin API: fixtures, score consensus, standings and accounts

    A shallow embedding of [api/src/main.py]: the round-robin fixture generator, the
    match views with their derived status, the consensus check behind score
    submission, the standings fold and the demo seeding; then the round views, the
    points per round, the live snapshot, and the account endpoints with passwords,
    sessions and social sign-in. Python integers are [Z]; the SQLite tables are lists
    of rows in insertion order; an uncaught Python exception is [None]; an
    [HTTPException] is returned as a value; what [secrets] and the clock return is an
    input. *)

From Stdlib Require Import ZArith Lia ZifyNat ZifyBool Zify Ascii.
From Stdlib Require Import DecimalString DecimalZ DecimalPos Sorted.
From stdpp Require Import base strings option numbers sets list.

Local Open Scope Z_scope.

(** * Part I. The program *)

(** ** Python lists and loops *)

(** [l[i]]: a negative index counts from the end; out of range raises IndexError. *)
Definition py_index {A} (l : list A) (i : Z) : option A :=
  if 0 <=? i then l !! Z.to_nat i
  else if - Z.of_nat (length l) <=? i then l !! Z.to_nat (Z.of_nat (length l) + i)
  else None.

(** Slice bounds are clamped to the list, never raising. *)
Definition py_clamp (len : nat) (i : Z) : nat :=
  if i <? 0 then Z.to_nat (Z.max 0 (Z.of_nat len + i)) else Z.to_nat (Z.min i (Z.of_nat len)).

Definition py_slice {A} (l : list A) (start stop : Z) : list A :=
  let a := py_clamp (length l) start in
  let b := py_clamp (length l) stop in
  take (b - a)%nat (drop a l).

(** [range(n)], empty when [n <= 0]. *)
Definition py_range (n : Z) : list Z := Z.of_nat <$> seq 0 (Z.to_nat n).

(** A [for] loop over [xs] threading the loop state; an exception in the body ends it. *)
Fixpoint for_each {S A} (body : S → A → option S) (s : S) (xs : list A) : option S :=
  match xs with
  | [] => Some s
  | x :: xs' => s' ← body s x; for_each body s' xs'
  end.

(** ** Fixture generator *)

(** Body of the inner loop of [_generate_round_robin] (main.py, lines 299-308). *)
Definition pair_step (participants : list (option Z)) (count round_index : Z)
    (pairs : list (Z * Z)) (i : Z) : option (list (Z * Z)) :=
  left ← py_index participants i;
  right ← py_index participants (count - 1 - i);
  match left, right with
  | Some l, Some r =>
      if (round_index mod 2 =? 0) && (i =? 0)
      then Some (pairs ++ [(r, l)])
      else Some (pairs ++ [(l, r)])
  | _, _ => Some pairs
  end.

(** [[participants[0], participants[-1], *participants[1:-1]]] (line 311). *)
Definition rotate_participants (participants : list (option Z)) : option (list (option Z)) :=
  first ← py_index participants 0;
  last ← py_index participants (-1);
  Some ([first; last] ++ py_slice participants 1 (-1)).

(** Body of the outer loop (lines 297-311); the state is [(rounds, participants)]. *)
Definition round_step (count half : Z)
    (st : list (list (Z * Z)) * list (option Z)) (round_index : Z)
    : option (list (list (Z * Z)) * list (option Z)) :=
  let '(rounds, participants) := st in
  pairs ← for_each (pair_step participants count round_index) [] (py_range half);
  participants' ← rotate_participants participants;
  Some (rounds ++ [pairs], participants').

(** main.py, lines 288-313. *)
Definition _generate_round_robin (player_ids : list Z) : option (list (list (Z * Z))) :=
  let participants : list (option Z) := Some <$> player_ids in
  let participants :=
    if Z.of_nat (length participants) mod 2 =? 1 then participants ++ [None] else participants in
  let count := Z.of_nat (length participants) in
  let half := count / 2 in
  st ← for_each (round_step count half) ([], participants) (py_range (count - 1));
  Some st.1.

(** ** Relational store and DTOs *)

Inductive Role := player | viewer.

#[global] Instance Role_eq_dec : EqDecision Role.
Proof. solve_decision. Defined.

Record UserRow := mkUserRow {
  user_id : Z;
  user_handle : string;
  user_display_name : string;
  user_password_hash : string;
  user_role : Role;
}.

Record SessionRow := mkSessionRow {
  session_token : string;
  session_user_id : Z;
}.

Record SocialIdentityRow := mkSocialIdentityRow {
  social_id : Z;
  social_provider : string;
  social_provider_user_id : string;
  social_user_id : Z;
}.

Record MatchRow := mkMatchRow {
  match_id : Z;
  match_round_number : Z;
  match_table_number : Z;
  match_player1_id : Z;
  match_player2_id : Z;
  match_confirmed_score1 : option Z;
  match_confirmed_score2 : option Z;
  match_confirmed_at : option string;
}.

Record ConfirmationRow := mkConfirmationRow {
  conf_id : Z;
  conf_match_id : Z;
  conf_player_id : Z;
  conf_score1 : Z;
  conf_score2 : Z;
  conf_created_at : string;
  conf_updated_at : string;
}.

(** The tables hold their rows in insertion order; the [*_seq] counters are the
    AUTOINCREMENT sequences of the three tables the modelled code inserts into. *)
Record Db := mkDb {
  users : list UserRow;
  sessions : list SessionRow;
  social_identities : list SocialIdentityRow;
  matches : list MatchRow;
  score_confirmations : list ConfirmationRow;
  users_seq : Z;
  matches_seq : Z;
  score_confirmations_seq : Z;
}.

(** ORDER BY and [sorted] are stable: insertion sort, ties kept in input order. *)
Fixpoint insert_by {A} (le : A → A → bool) (x : A) (l : list A) : list A :=
  match l with
  | [] => [x]
  | y :: l' => if le x y then x :: y :: l' else y :: insert_by le x l'
  end.

Definition sort_by {A} (le : A → A → bool) (l : list A) : list A :=
  foldr (insert_by le) [] l.

(** Tuples compare lexicographically, strings by code point (on UTF-8 text this is
    the order of the bytes that [String.leb] compares). *)
Definition pair_le {A B} (ltA : A → A → bool) (leB : B → B → bool)
    (x y : A * B) : bool :=
  if ltA x.1 y.1 then true else if ltA y.1 x.1 then false else leB x.2 y.2.

Record UserDto := mkUserDto {
  dto_user_id : Z;
  dto_user_handle : string;
  dto_user_display_name : string;
  dto_user_role : Role;
}.

Record ScoreConfirmationDto := mkScoreConfirmationDto {
  dto_score1 : Z;
  dto_score2 : Z;
}.

Record PlayerLiteDto := mkPlayerLiteDto {
  lite_id : Z;
  lite_handle : string;
  lite_display_name : string;
}.

Inductive MatchStatus := pending | disputed | confirmed.

#[global] Instance MatchStatus_eq_dec : EqDecision MatchStatus.
Proof. solve_decision. Defined.

Record MatchDto := mkMatchDto {
  dto_id : Z;
  dto_round_number : Z;
  dto_table_number : Z;
  dto_player1 : PlayerLiteDto;
  dto_player2 : PlayerLiteDto;
  dto_status : MatchStatus;
  dto_confirmed_score1 : option Z;
  dto_confirmed_score2 : option Z;
  dto_confirmations : Z;
  dto_my_confirmation : option ScoreConfirmationDto;
}.

Record StandingRowDto := mkStandingRowDto {
  sr_position : Z;
  sr_player_id : Z;
  sr_handle : string;
  sr_display_name : string;
  sr_played : Z;
  sr_wins : Z;
  sr_draws : Z;
  sr_losses : Z;
  sr_goals_for : Z;
  sr_goals_against : Z;
  sr_goal_difference : Z;
  sr_round_points : Z;
  sr_points : Z;
}.

Inductive StatusCode :=
| HTTP_401_UNAUTHORIZED
| HTTP_403_FORBIDDEN
| HTTP_404_NOT_FOUND
| HTTP_409_CONFLICT.

Record HTTPException := mkHTTPException {
  status_code : StatusCode;
  detail : string;
}.

(** main.py, lines 280-285. *)
Definition _match_points (score1 score2 : Z) : Z * Z :=
  if score1 >? score2 then (3, 0)
  else if score2 >? score1 then (0, 3)
  else (1, 1).

(** One row of the SELECT shared by [_fetch_matches] and [confirm_match_score]. *)
Record MatchViewRow := mkMatchViewRow {
  row_id : Z;
  row_round_number : Z;
  row_table_number : Z;
  row_player1_id : Z;
  row_player2_id : Z;
  row_confirmed_score1 : option Z;
  row_confirmed_score2 : option Z;
  row_player1_handle : string;
  row_player1_name : string;
  row_player2_handle : string;
  row_player2_name : string;
  row_confirmations : Z;
  row_distinct_confirmations : Z;
  row_my_score1 : option Z;
  row_my_score2 : option Z;
}.

(** SQLite renders an INTEGER as its decimal text when it is concatenated. *)
Definition sql_text (z : Z) : string := NilZero.string_of_int (Z.to_int z).

Definition score_key (c : ConfirmationRow) : string :=
  sql_text (conf_score1 c) +:+ ":" +:+ sql_text (conf_score2 c).

Definition confirmations_of (db : Db) (mid : Z) : list ConfirmationRow :=
  filter (λ c, conf_match_id c = mid) (score_confirmations db).

Definition count_confirmations (db : Db) (mid : Z) : Z :=
  Z.of_nat (length (confirmations_of db mid)).

Definition count_distinct_confirmations (db : Db) (mid : Z) : Z :=
  Z.of_nat (length (remove_dups (score_key <$> confirmations_of db mid))).

(** LEFT JOIN: every matching right row, or one all-NULL row when there is none. *)
Definition left_join {A} (l : list A) : list (option A) :=
  match l with [] => [None] | _ => Some <$> l end.

Definition match_view_rows (db : Db) (user_id_param : option Z) (m : MatchRow)
    : list MatchViewRow :=
  u1 ← filter (λ u, user_id u = match_player1_id m) (users db);
  u2 ← filter (λ u, user_id u = match_player2_id m) (users db);
  my ← left_join (filter (λ c, conf_match_id c = match_id m ∧
                               Some (conf_player_id c) = user_id_param)
                         (score_confirmations db));
  [ {| row_id := match_id m;
       row_round_number := match_round_number m;
       row_table_number := match_table_number m;
       row_player1_id := match_player1_id m;
       row_player2_id := match_player2_id m;
       row_confirmed_score1 := match_confirmed_score1 m;
       row_confirmed_score2 := match_confirmed_score2 m;
       row_player1_handle := user_handle u1;
       row_player1_name := user_display_name u1;
       row_player2_handle := user_handle u2;
       row_player2_name := user_display_name u2;
       row_confirmations := count_confirmations db (match_id m);
       row_distinct_confirmations := count_distinct_confirmations db (match_id m);
       row_my_score1 := conf_score1 <$> my;
       row_my_score2 := conf_score2 <$> my |} ].

(** main.py, lines 366-400. *)
Definition _build_match_dto (row : MatchViewRow) : MatchDto :=
  let distinct_confirmations := row_distinct_confirmations row in
  let is_confirmed :=
    bool_decide (row_confirmed_score1 row ≠ None) && bool_decide (row_confirmed_score2 row ≠ None) in
  let status_value :=
    if is_confirmed then confirmed
    else if distinct_confirmations >? 1 then disputed
    else pending in
  let my_confirmation :=
    match row_my_score1 row, row_my_score2 row with
    | Some s1, Some s2 => Some {| dto_score1 := s1; dto_score2 := s2 |}
    | _, _ => None
    end in
  {| dto_id := row_id row;
     dto_round_number := row_round_number row;
     dto_table_number := row_table_number row;
     dto_player1 := {| lite_id := row_player1_id row;
                       lite_handle := row_player1_handle row;
                       lite_display_name := row_player1_name row |};
     dto_player2 := {| lite_id := row_player2_id row;
                       lite_handle := row_player2_handle row;
                       lite_display_name := row_player2_name row |};
     dto_status := status_value;
     dto_confirmed_score1 := row_confirmed_score1 row;
     dto_confirmed_score2 := row_confirmed_score2 row;
     dto_confirmations := row_confirmations row;
     dto_my_confirmation := my_confirmation |}.

(** ORDER BY m.round_number, m.table_number, m.id. *)
Definition match_order_le (m1 m2 : MatchRow) : bool :=
  pair_le Z.ltb (pair_le Z.ltb Z.leb)
    (match_round_number m1, (match_table_number m1, match_id m1))
    (match_round_number m2, (match_table_number m2, match_id m2)).

(** main.py, lines 403-436. *)
Definition _fetch_matches (db : Db) (user_id_param : option Z) : list MatchDto :=
  let rows := m ← sort_by match_order_le (matches db); match_view_rows db user_id_param m in
  _build_match_dto <$> rows.

(** ORDER BY player_id. *)
Definition confirmation_order_le (c1 c2 : ConfirmationRow) : bool :=
  conf_player_id c1 <=? conf_player_id c2.

Definition set_confirmed (s1 s2 : Z) (now : string) (m : MatchRow) : MatchRow :=
  {| match_id := match_id m;
     match_round_number := match_round_number m;
     match_table_number := match_table_number m;
     match_player1_id := match_player1_id m;
     match_player2_id := match_player2_id m;
     match_confirmed_score1 := Some s1;
     match_confirmed_score2 := Some s2;
     match_confirmed_at := Some now |}.

Definition with_matches (db : Db) (ms : list MatchRow) : Db :=
  {| users := users db; sessions := sessions db;
     social_identities := social_identities db;
     matches := ms;
     score_confirmations := score_confirmations db;
     users_seq := users_seq db; matches_seq := matches_seq db;
     score_confirmations_seq := score_confirmations_seq db |}.

Definition is_confirmed (m : MatchRow) : bool :=
  bool_decide (match_confirmed_score1 m ≠ None) && bool_decide (match_confirmed_score2 m ≠ None).

(** SELECT ... FROM matches WHERE id = ? followed by [fetchone()]. *)
Definition find_match (db : Db) (mid : Z) : option MatchRow :=
  head (filter (λ m, match_id m = mid) (matches db)).

(** UPDATE matches SET confirmed_score1, confirmed_score2, confirmed_at WHERE id = ?. *)
Definition confirm_update (mid : Z) (first : ConfirmationRow) (now : string) (m : MatchRow)
    : MatchRow :=
  if bool_decide (match_id m = mid)
  then set_confirmed (conf_score1 first) (conf_score2 first) now m
  else m.

(** main.py, lines 458-497. [now] is the value [_utc_now()] returns when the UPDATE
    runs; the empty-list branch stands for [confirmations[0]] on a list the length
    test has already excluded. *)
Definition _confirm_scores_if_consensus (db : Db) (now : string) (mid : Z) : Db :=
  match find_match db mid with
  | None => db
  | Some m =>
      if is_confirmed m then db
      else
        let confirmations := sort_by confirmation_order_le (confirmations_of db mid) in
        if Z.of_nat (length confirmations) <? 2 then db
        else
          match confirmations with
          | [] => db
          | first :: rest =>
              let consensus :=
                forallb (λ row, (conf_score1 row =? conf_score1 first) &&
                                (conf_score2 row =? conf_score2 first)) rest in
              if negb consensus then db
              else
                with_matches db (confirm_update mid first now <$> matches db)
          end
  end.

(** ** Standings *)

(** The per-player accumulator of [_standings] (the inner dict, whose keys are fixed). *)
Record StatRow := mkStatRow {
  st_player_id : Z;
  st_handle : string;
  st_display_name : string;
  st_played : Z;
  st_wins : Z;
  st_draws : Z;
  st_losses : Z;
  st_goals_for : Z;
  st_goals_against : Z;
  st_points : Z;
  st_round_points : Z;
}.

Definition add_played (n : Z) (r : StatRow) : StatRow :=
  mkStatRow (st_player_id r) (st_handle r) (st_display_name r) (st_played r + n) (st_wins r)
    (st_draws r) (st_losses r) (st_goals_for r) (st_goals_against r) (st_points r)
    (st_round_points r).

Definition add_wins (n : Z) (r : StatRow) : StatRow :=
  mkStatRow (st_player_id r) (st_handle r) (st_display_name r) (st_played r) (st_wins r + n)
    (st_draws r) (st_losses r) (st_goals_for r) (st_goals_against r) (st_points r)
    (st_round_points r).

Definition add_draws (n : Z) (r : StatRow) : StatRow :=
  mkStatRow (st_player_id r) (st_handle r) (st_display_name r) (st_played r) (st_wins r)
    (st_draws r + n) (st_losses r) (st_goals_for r) (st_goals_against r) (st_points r)
    (st_round_points r).

Definition add_losses (n : Z) (r : StatRow) : StatRow :=
  mkStatRow (st_player_id r) (st_handle r) (st_display_name r) (st_played r) (st_wins r)
    (st_draws r) (st_losses r + n) (st_goals_for r) (st_goals_against r) (st_points r)
    (st_round_points r).

Definition add_goals_for (n : Z) (r : StatRow) : StatRow :=
  mkStatRow (st_player_id r) (st_handle r) (st_display_name r) (st_played r) (st_wins r)
    (st_draws r) (st_losses r) (st_goals_for r + n) (st_goals_against r) (st_points r)
    (st_round_points r).

Definition add_goals_against (n : Z) (r : StatRow) : StatRow :=
  mkStatRow (st_player_id r) (st_handle r) (st_display_name r) (st_played r) (st_wins r)
    (st_draws r) (st_losses r) (st_goals_for r) (st_goals_against r + n) (st_points r)
    (st_round_points r).

Definition add_points (n : Z) (r : StatRow) : StatRow :=
  mkStatRow (st_player_id r) (st_handle r) (st_display_name r) (st_played r) (st_wins r)
    (st_draws r) (st_losses r) (st_goals_for r) (st_goals_against r) (st_points r + n)
    (st_round_points r).

Definition add_round_points (n : Z) (r : StatRow) : StatRow :=
  mkStatRow (st_player_id r) (st_handle r) (st_display_name r) (st_played r) (st_wins r)
    (st_draws r) (st_losses r) (st_goals_for r) (st_goals_against r) (st_points r)
    (st_round_points r + n).

(** A Python dict keeps its keys in insertion order: an association list. *)
Definition dict := list (Z * StatRow).

Definition dict_get (k : Z) (d : dict) : option StatRow :=
  snd <$> head (filter (λ e, e.1 = k) d).

Definition dict_set (k : Z) (v : StatRow) (d : dict) : dict :=
  if bool_decide (k ∈ d.*1)
  then (λ e, if bool_decide (e.1 = k) then (k, v) else e) <$> d
  else d ++ [(k, v)].

(** [p = stats[k]] hands out a reference: writing a field of [p] rewrites the row
    stored under [k]. *)
Definition dict_alter (f : StatRow → StatRow) (k : Z) (d : dict) : dict :=
  (λ e, if bool_decide (e.1 = k) then (e.1, f e.2) else e) <$> d.

Definition dict_values (d : dict) : list StatRow := d.*2.

(** The WHERE clause [_standings] assembles (lines 501-505). *)
Definition standings_where (up_to_round : option Z) (m : MatchRow) : bool :=
  bool_decide (match_confirmed_score1 m ≠ None) &&
  bool_decide (match_confirmed_score2 m ≠ None) &&
  match up_to_round with
  | Some k => match_round_number m <=? k
  | None => true
  end.

(** ORDER BY m.round_number, m.id. *)
Definition standings_order_le (m1 m2 : MatchRow) : bool :=
  pair_le Z.ltb Z.leb (match_round_number m1, match_id m1)
                      (match_round_number m2, match_id m2).

(** Body of the loop over the selected matches (lines 543-574); [stats[...]] raises
    KeyError on a player who is not on the roster, before any field is written. *)
Definition standings_step (up_to_round : option Z) (stats : dict) (m : MatchRow)
    : option dict :=
  let player1_id := match_player1_id m in
  let player2_id := match_player2_id m in
  score1 ← match_confirmed_score1 m;
  score2 ← match_confirmed_score2 m;
  let '(p1_points, p2_points) := _match_points score1 score2 in
  _ ← dict_get player1_id stats;
  _ ← dict_get player2_id stats;
  let stats := dict_alter (add_played 1) player1_id stats in
  let stats := dict_alter (add_played 1) player2_id stats in
  let stats := dict_alter (add_goals_for score1) player1_id stats in
  let stats := dict_alter (add_goals_against score2) player1_id stats in
  let stats := dict_alter (add_goals_for score2) player2_id stats in
  let stats := dict_alter (add_goals_against score1) player2_id stats in
  let stats := dict_alter (add_points p1_points) player1_id stats in
  let stats := dict_alter (add_points p2_points) player2_id stats in
  let stats :=
    if bool_decide (up_to_round = Some (match_round_number m))
    then dict_alter (add_round_points p2_points) player2_id
           (dict_alter (add_round_points p1_points) player1_id stats)
    else stats in
  let stats :=
    if score1 >? score2
    then dict_alter (add_losses 1) player2_id (dict_alter (add_wins 1) player1_id stats)
    else if score2 >? score1
    then dict_alter (add_losses 1) player1_id (dict_alter (add_wins 1) player2_id stats)
    else dict_alter (add_draws 1) player2_id (dict_alter (add_draws 1) player1_id stats) in
  Some stats.

(** The zeroed accumulator the dict comprehension creates for a roster player. *)
Definition init_row (u : UserRow) : StatRow :=
  {| st_player_id := user_id u;
     st_handle := user_handle u;
     st_display_name := user_display_name u;
     st_played := 0; st_wins := 0; st_draws := 0; st_losses := 0;
     st_goals_for := 0; st_goals_against := 0;
     st_points := 0; st_round_points := 0 |}.

(** Order of the sort keys of line 578, compared as Python compares tuples. *)
Definition rank_key_le (k1 k2 : Z * (Z * (Z * string))) : bool :=
  pair_le Z.ltb (pair_le Z.ltb (pair_le Z.ltb String.leb)) k1 k2.

(** The [StandingRowDto] built for one accumulator (lines 587-606). *)
Definition to_standing_row (position : Z) (row : StatRow) : StandingRowDto :=
  let goals_for := st_goals_for row in
  let goals_against := st_goals_against row in
  {| sr_position := position;
     sr_player_id := st_player_id row;
     sr_handle := st_handle row;
     sr_display_name := st_display_name row;
     sr_played := st_played row;
     sr_wins := st_wins row;
     sr_draws := st_draws row;
     sr_losses := st_losses row;
     sr_goals_for := goals_for;
     sr_goals_against := goals_against;
     sr_goal_difference := goals_for - goals_against;
     sr_round_points := st_round_points row;
     sr_points := st_points row |}.

Section Standings.
(** Python's [str.lower]. *)
Variable str_lower : string → string.

(** The [key] of [sorted] (lines 578-583). *)
Definition rank_key (row : StatRow) : Z * (Z * (Z * string)) :=
  (- st_points row,
   (- (st_goals_for row - st_goals_against row),
    (- st_goals_for row,
     str_lower (st_display_name row)))).

(** main.py, lines 500-608. *)
Definition _standings (db : Db) (up_to_round : option Z) : option (list StandingRowDto) :=
  let players :=
    sort_by (λ u1 u2, String.leb (user_display_name u1) (user_display_name u2))
            (filter (λ u, user_role u = player) (users db)) in
  let stats : dict :=
    foldl (λ d u, dict_set (user_id u) (init_row u) d) [] players in
  let selected :=
    sort_by standings_order_le (filter (λ m, standings_where up_to_round m) (matches db)) in
  stats ← for_each (standings_step up_to_round) stats selected;
  let ordered := sort_by (λ r1 r2, rank_key_le (rank_key r1) (rank_key r2)) (dict_values stats) in
  Some (imap (λ i row, to_standing_row (Z.of_nat i + 1) row) ordered).

End Standings.

(** ** Authentication and score submission *)

Definition _row_to_user (u : UserRow) : UserDto :=
  {| dto_user_id := user_id u;
     dto_user_handle := user_handle u;
     dto_user_display_name := user_display_name u;
     dto_user_role := user_role u |}.

(** main.py, lines 237-256. [token] is what [_token_from_header] extracted from the
    Authorization header. *)
Definition _require_user (db : Db) (token : option string) : HTTPException + UserDto :=
  match token with
  | None => inl (mkHTTPException HTTP_401_UNAUTHORIZED "Missing bearer token.")
  | Some t =>
      let rows :=
        s ← filter (λ s, session_token s = t) (sessions db);
        filter (λ u, user_id u = session_user_id s) (users db) in
      match head rows with
      | None => inl (mkHTTPException HTTP_401_UNAUTHORIZED "Invalid session token.")
      | Some row => inr (_row_to_user row)
      end
  end.

Record ScoreConfirmRequest := mkScoreConfirmRequest {
  payload_score1 : Z;
  payload_score2 : Z;
}.

Definition with_score_confirmations (db : Db) (cs : list ConfirmationRow) (seq : Z) : Db :=
  {| users := users db; sessions := sessions db;
     social_identities := social_identities db;
     matches := matches db;
     score_confirmations := cs;
     users_seq := users_seq db; matches_seq := matches_seq db;
     score_confirmations_seq := seq |}.

(** INSERT ... ON CONFLICT(match_id, player_id) DO UPDATE. *)
Definition upsert_confirmation (db : Db) (mid uid s1 s2 : Z) (created updated : string) : Db :=
  if bool_decide (Exists (λ c, conf_match_id c = mid ∧ conf_player_id c = uid)
                         (score_confirmations db))
  then
    with_score_confirmations db
      ((λ c, if bool_decide (conf_match_id c = mid ∧ conf_player_id c = uid)
             then mkConfirmationRow (conf_id c) (conf_match_id c) (conf_player_id c)
                    s1 s2 (conf_created_at c) updated
             else c) <$> score_confirmations db)
      (score_confirmations_seq db)
  else
    with_score_confirmations db
      (score_confirmations db ++
         [mkConfirmationRow (score_confirmations_seq db + 1) mid uid s1 s2 created updated])
      (score_confirmations_seq db + 1).

(** The three [_utc_now()] readings of one request, in call order. *)
Record Clock := mkClock {
  now_created : string;
  now_updated : string;
  now_confirmed : string;
}.

(** POST /matches/{match_id}/confirm (main.py, lines 979-1062); the result pairs the
    store after the request with the response. *)
Definition confirm_match_score (db : Db) (clock : Clock) (mid : Z)
    (payload : ScoreConfirmRequest) (token : option string)
    : Db * (HTTPException + MatchDto) :=
  match _require_user db token with
  | inl e => (db, inl e)
  | inr user =>
      if bool_decide (dto_user_role user ≠ player)
      then (db, inl (mkHTTPException HTTP_403_FORBIDDEN "Only players can confirm scores."))
      else
        match find_match db mid with
        | None => (db, inl (mkHTTPException HTTP_404_NOT_FOUND "Match not found."))
        | Some match_row =>
            let player1_id := match_player1_id match_row in
            let player2_id := match_player2_id match_row in
            if bool_decide (dto_user_id user ∉ [player1_id; player2_id])
            then (db, inl (mkHTTPException HTTP_403_FORBIDDEN
                             "You are not assigned to this match."))
            else if is_confirmed match_row
            then (db, inl (mkHTTPException HTTP_409_CONFLICT
                             "Scores are already confirmed for this match."))
            else
              let db := upsert_confirmation db mid (dto_user_id user)
                          (payload_score1 payload) (payload_score2 payload)
                          (now_created clock) (now_updated clock) in
              let db := _confirm_scores_if_consensus db (now_confirmed clock) mid in
              let refreshed :=
                head (m ← filter (λ m, match_id m = mid) (matches db);
                      match_view_rows db (Some (dto_user_id user)) m) in
              match refreshed with
              | None => (db, inl (mkHTTPException HTTP_404_NOT_FOUND
                                    "Match not found after update."))
              | Some row => (db, inr (_build_match_dto row))
              end
        end
  end.

(** ** Demo seeding *)

Record SeedDetails := mkSeedDetails {
  seed_players : Z;
  seed_matches : Z;
  seeded : Z;
}.

Definition demo_users : list (string * string * string * Role) :=
  [ ("alice", "Alice Mercer", "pass123", player);
    ("bob", "Bob Singh", "pass123", player);
    ("carla", "Carla Diaz", "pass123", player);
    ("diego", "Diego Kim", "pass123", player);
    ("viewer", "Live Viewer", "viewer123", viewer) ].

Definition insert_user (db : Db) (handle display_name password_hash : string) (role : Role)
    : Db :=
  {| users := users db ++ [mkUserRow (users_seq db + 1) handle display_name password_hash role];
     sessions := sessions db;
     social_identities := social_identities db;
     matches := matches db;
     score_confirmations := score_confirmations db;
     users_seq := users_seq db + 1; matches_seq := matches_seq db;
     score_confirmations_seq := score_confirmations_seq db |}.

Definition insert_match (db : Db) (round_number table_number player1_id player2_id : Z) : Db :=
  {| users := users db; sessions := sessions db;
     social_identities := social_identities db;
     matches := matches db ++
       [mkMatchRow (matches_seq db + 1) round_number table_number player1_id player2_id
                   None None None];
     score_confirmations := score_confirmations db;
     users_seq := users_seq db; matches_seq := matches_seq db + 1;
     score_confirmations_seq := score_confirmations_seq db |}.

(** The five DELETE statements of a forced seed; the AUTOINCREMENT counters survive. *)
Definition delete_all (db : Db) : Db :=
  {| users := []; sessions := []; social_identities := []; matches := [];
     score_confirmations := [];
     users_seq := users_seq db; matches_seq := matches_seq db;
     score_confirmations_seq := score_confirmations_seq db |}.

Section Seed.
(** [_hash_password]: salted PBKDF2, outside the model. *)
Variable _hash_password : string → string.

(** main.py, lines 316-363. *)
Definition _seed_demo_data (db : Db) (force : bool) : option (Db * SeedDetails) :=
  let db := if force then delete_all db else db in
  let existing := Z.of_nat (length (users db)) in
  if existing >? 0 then
    let players_count := Z.of_nat (length (filter (λ u, user_role u = player) (users db))) in
    let matches_count := Z.of_nat (length (matches db)) in
    Some (db, mkSeedDetails players_count matches_count 0)
  else
    let db :=
      foldl (λ db '(handle, display_name, password, role),
               insert_user db handle display_name (_hash_password password) role)
            db demo_users in
    let player_ids :=
      user_id <$> sort_by (λ u1 u2, user_id u1 <=? user_id u2)
                    (filter (λ u, user_role u = player) (users db)) in
    rounds ← _generate_round_robin player_ids;
    let db :=
      foldl (λ db '(round_index, fixtures),
               foldl (λ db '(table_index, (player1_id, player2_id)),
                        insert_match db (Z.of_nat round_index + 1) (Z.of_nat table_index + 1)
                                     player1_id player2_id)
                     db (imap pair fixtures))
            db (imap pair rounds) in
    Some (db, mkSeedDetails (Z.of_nat (length player_ids))
                (Z.of_nat (sum_list (length <$> rounds))) 1).

End Seed.

(** ** Rounds, optional authentication and the current round *)

(** [d[k]] on a dict kept as an association list; a missing key raises KeyError. *)
Definition getitem {V} (k : Z) (d : list (Z * V)) : option V :=
  snd <$> head (filter (λ e, e.1 = k) d).

Record RoundDto := mkRoundDto {
  rd_round_number : Z;
  rd_is_complete : bool;
  rd_matches : list MatchDto;
}.

(** [grouped.setdefault(match.round_number, []).append(match)] (line 443). *)
Definition group_match (grouped : list (Z * list MatchDto)) (m : MatchDto)
    : list (Z * list MatchDto) :=
  let k := dto_round_number m in
  let grouped := if bool_decide (k ∈ grouped.*1) then grouped else grouped ++ [(k, [])] in
  (λ e, if bool_decide (e.1 = k) then (e.1, e.2 ++ [m]) else e) <$> grouped.

(** main.py, lines 439-455. *)
Definition _fetch_rounds (db : Db) (user_id_param : option Z) : option (list RoundDto) :=
  let matches := _fetch_matches db user_id_param in
  let grouped := foldl group_match [] matches in
  for_each (λ rounds round_number,
              round_matches ← getitem round_number grouped;
              Some (rounds ++
                      [ {| rd_round_number := round_number;
                           rd_is_complete :=
                             forallb (λ m, bool_decide (dto_status m = confirmed)) round_matches;
                           rd_matches := round_matches |} ]))
           [] (sort_by Z.leb grouped.*1).

(** main.py, lines 259-277. *)
Definition _optional_user (db : Db) (token : option string) : option UserDto :=
  match token with
  | None => None
  | Some t =>
      let rows :=
        s ← filter (λ s, session_token s = t) (sessions db);
        filter (λ u, user_id u = session_user_id s) (users db) in
      match head rows with
      | None => None
      | Some row => Some (_row_to_user row)
      end
  end.

(** GET /rounds (main.py, lines 971-976). *)
Definition rounds (db : Db) (token : option string) : option (list RoundDto) :=
  let user := _optional_user db token in
  let user_id := dto_user_id <$> user in
  _fetch_rounds db user_id.

(** MIN and MAX over a column: NULL on no rows. *)
Definition sql_min (l : list Z) : option Z :=
  match l with
  | [] => None
  | x :: l' => Some (foldl Z.min x l')
  end.

Definition sql_max (l : list Z) : option Z :=
  match l with
  | [] => None
  | x :: l' => Some (foldl Z.max x l')
  end.

(** The WHERE clause [confirmed_score1 IS NULL OR confirmed_score2 IS NULL]. *)
Definition is_pending (m : MatchRow) : bool :=
  bool_decide (match_confirmed_score1 m = None) || bool_decide (match_confirmed_score2 m = None).

(** main.py, lines 651-665. *)
Definition _current_round (db : Db) : option Z :=
  let pending := sql_min (match_round_number <$> filter (λ m, is_pending m) (matches db)) in
  match pending with
  | Some round_number => Some round_number
  | None =>
      let latest := sql_max (match_round_number <$> matches db) in
      match latest with
      | Some round_number => Some round_number
      | None => None
      end
  end.

(** ** Standings by round *)

Record RoundStandingsDto := mkRoundStandingsDto {
  rs_round_number : Z;
  rs_is_complete : bool;
  rs_standings : list StandingRowDto;
}.

(** SELECT DISTINCT round_number FROM matches ORDER BY round_number. *)
Definition distinct_rounds (db : Db) : list Z :=
  sort_by Z.leb (remove_dups (match_round_number <$> matches db)).

Section StandingsByRound.
(** Python's [str.lower]. *)
Variable str_lower : string → string.

(** main.py, lines 668-694. *)
Definition _standings_by_round (db : Db) : option (list RoundStandingsDto) :=
  let round_rows := distinct_rounds db in
  for_each (λ output round_number,
              let pending_count :=
                Z.of_nat (length (filter (λ m, match_round_number m = round_number ∧
                                               is_pending m)
                                         (matches db))) in
              let is_complete := pending_count =? 0 in
              standings ← _standings str_lower db (Some round_number);
              Some (output ++
                      [ {| rs_round_number := round_number;
                           rs_is_complete := is_complete;
                           rs_standings := standings |} ]))
           [] round_rows.

End StandingsByRound.

(** ** Points per round *)

(** [d[k] = v]: a key already present keeps its place. *)
Definition setitem {V} (k : Z) (v : V) (d : list (Z * V)) : list (Z * V) :=
  if bool_decide (k ∈ d.*1)
  then (λ e, if bool_decide (e.1 = k) then (k, v) else e) <$> d
  else d ++ [(k, v)].

Record PlayerRoundPointsDto := mkPlayerRoundPointsDto {
  prp_player_id : Z;
  prp_display_name : string;
  prp_points : Z;
}.

Record RoundPointsDto := mkRoundPointsDto {
  rp_round_number : Z;
  rp_points : list PlayerRoundPointsDto;
}.

(** Body of the loop over the confirmed matches of one round (lines 636-639);
    [totals[k] += p] reads [totals[k]] first and raises KeyError on a missing key. *)
Definition round_points_step (totals : list (Z * Z)) (m : MatchRow) : option (list (Z * Z)) :=
  score1 ← match_confirmed_score1 m;
  score2 ← match_confirmed_score2 m;
  let '(p1_points, p2_points) := _match_points score1 score2 in
  t1 ← getitem (match_player1_id m) totals;
  let totals := setitem (match_player1_id m) (t1 + p1_points) totals in
  t2 ← getitem (match_player2_id m) totals;
  let totals := setitem (match_player2_id m) (t2 + p2_points) totals in
  Some totals.

Section RoundPoints.
(** Python's [str.lower]. *)
Variable str_lower : string → string.

(** The [key] of [points_rows.sort] (line 645). *)
Definition round_points_key (row : PlayerRoundPointsDto) : Z * string :=
  (- prp_points row, str_lower (prp_display_name row)).

(** main.py, lines 611-648. *)
Definition _round_points (db : Db) : option (list RoundPointsDto) :=
  let players :=
    sort_by (λ u1 u2, String.leb (user_display_name u1) (user_display_name u2))
            (filter (λ u, user_role u = player) (users db)) in
  let player_names : list (Z * string) :=
    foldl (λ d row, setitem (user_id row) (user_display_name row) d) [] players in
  let rounds := distinct_rounds db in
  for_each (λ result round_number,
              let totals : list (Z * Z) :=
                foldl (λ d player_id, setitem player_id 0 d) [] player_names.*1 in
              let confirmed :=
                filter (λ m, match_round_number m = round_number ∧
                             match_confirmed_score1 m ≠ None ∧
                             match_confirmed_score2 m ≠ None)
                       (matches db) in
              totals ← for_each round_points_step totals confirmed;
              points_rows ←
                mapM (λ '(player_id, points),
                        display_name ← getitem player_id player_names;
                        Some {| prp_player_id := player_id;
                                prp_display_name := display_name;
                                prp_points := points |})
                     totals;
              let points_rows :=
                sort_by (λ r1 r2, pair_le Z.ltb String.leb
                                    (round_points_key r1) (round_points_key r2))
                        points_rows in
              Some (result ++ [ {| rp_round_number := round_number;
                                   rp_points := points_rows |} ]))
           [] rounds.

End RoundPoints.

(** ** Passwords *)

(** [s.split(sep, 1)] unpacked into two names: ValueError when [sep] does not occur. *)
Fixpoint split_once (sep : ascii) (s : string) : option (string * string) :=
  match s with
  | EmptyString => None
  | String c s' =>
      if Ascii.eqb c sep then Some (EmptyString, s')
      else '(before, after) ← split_once sep s'; Some (String c before, after)
  end.

Definition hex_digit (n : N) : ascii :=
  match n with
  | 0 => "0" | 1 => "1" | 2 => "2" | 3 => "3" | 4 => "4" | 5 => "5" | 6 => "6" | 7 => "7"
  | 8 => "8" | 9 => "9" | 10 => "a" | 11 => "b" | 12 => "c" | 13 => "d" | 14 => "e"
  | _ => "f"
  end%N%char.

(** [bytes.hex()]. *)
Fixpoint hex (s : string) : string :=
  match s with
  | EmptyString => EmptyString
  | String c s' =>
      String (hex_digit (N_of_ascii c / 16))
             (String (hex_digit (N_of_ascii c mod 16)) (hex s'))
  end.

Fixpoint is_ascii (s : string) : bool :=
  match s with
  | EmptyString => true
  | String c s' => (N_of_ascii c <? 128)%N && is_ascii s'
  end.

(** [secrets.compare_digest] on two [str]: TypeError unless both are ASCII. *)
Definition compare_digest (a b : string) : option bool :=
  if is_ascii a && is_ascii b then Some (bool_decide (a = b)) else None.

Section Passwords.
(** [hashlib.pbkdf2_hmac('sha256', password, salt, 200_000)]: the raw digest. *)
Variable pbkdf2_hmac : string → string → string.

(** main.py, lines 204-207; [salt] is what [secrets.token_hex(16)] returned. *)
Definition _hash_password (salt : string) (password : string) : string :=
  let digest := pbkdf2_hmac password salt in
  salt +:+ "$" +:+ hex digest.

(** main.py, lines 210-216. *)
Definition _verify_password (password password_hash : string) : option bool :=
  match split_once "$" password_hash with
  | None => Some false
  | Some (salt, saved_digest) =>
      let digest := pbkdf2_hmac password salt in
      compare_digest saved_digest (hex digest)
  end.

End Passwords.

(** ** Accounts and sessions *)

(** The account endpoints raise two status codes more than the ones above. *)
Inductive AccountStatusCode :=
| HTTP_400_BAD_REQUEST
| HTTP_500_INTERNAL_SERVER_ERROR
| http (code : StatusCode).

Record AccountException := mkAccountException {
  account_status_code : AccountStatusCode;
  account_detail : string;
}.

Record AuthResponse := mkAuthResponse {
  auth_token : string;
  auth_user : UserDto;
}.

Record RegisterRequest := mkRegisterRequest {
  register_handle : string;
  register_display_name : string;
  register_password : string;
  register_role : Role;
}.

Record LoginRequest := mkLoginRequest {
  login_handle : string;
  login_password : string;
}.

Definition with_sessions (db : Db) (ss : list SessionRow) : Db :=
  {| users := users db; sessions := ss;
     social_identities := social_identities db;
     matches := matches db;
     score_confirmations := score_confirmations db;
     users_seq := users_seq db; matches_seq := matches_seq db;
     score_confirmations_seq := score_confirmations_seq db |}.

(** INSERT INTO users under UNIQUE(handle): [None] is sqlite3.IntegrityError. *)
Definition try_insert_user (db : Db) (handle display_name password_hash : string) (role : Role)
    : option Db :=
  if bool_decide (handle ∈ user_handle <$> users db) then None
  else Some (insert_user db handle display_name password_hash role).

(** INSERT INTO sessions: the token is the primary key, and with PRAGMA foreign_keys = ON
    the user must exist; [None] is sqlite3.IntegrityError. *)
Definition insert_session (db : Db) (token : string) (uid : Z) : option Db :=
  if bool_decide (token ∈ session_token <$> sessions db) then None
  else if bool_decide (uid ∉ user_id <$> users db) then None
  else Some (with_sessions db (sessions db ++ [mkSessionRow token uid])).

Section Accounts.
(** [str.strip] and [str.lower], outside the model. *)
Variable str_strip : string → string.
Variable str_lower : string → string.
Variable pbkdf2_hmac : string → string → string.

(** main.py, lines 156-157. *)
Definition _normalize_handle (handle : string) : string := str_lower (str_strip handle).

(** POST /auth/register (main.py, lines 828-857). [salt] and [token] are what
    [secrets.token_hex(16)] and [secrets.token_urlsafe(32)] returned; the result pairs the
    store after the request with the response, and is [None] when an exception other than
    HTTPException leaves the handler before the commit. *)
Definition register (db : Db) (salt token : string) (payload : RegisterRequest)
    : option (Db * (AccountException + AuthResponse)) :=
  let handle := _normalize_handle (register_handle payload) in
  match try_insert_user db handle (str_strip (register_display_name payload))
          (_hash_password pbkdf2_hmac salt (register_password payload))
          (register_role payload) with
  | None => Some (db, inl (mkAccountException (http HTTP_409_CONFLICT) "Handle already exists."))
  | Some db =>
      let uid := users_seq db in
      db ← insert_session db token uid;
      let user_row := head (filter (λ u, user_id u = uid) (users db)) in
      match user_row with
      | None => Some (db, inl (mkAccountException HTTP_500_INTERNAL_SERVER_ERROR
                                 "User creation failed."))
      | Some user_row => Some (db, inr (mkAuthResponse token (_row_to_user user_row)))
      end
  end.

(** POST /auth/login (main.py, lines 860-885). *)
Definition login (db : Db) (token : string) (payload : LoginRequest)
    : option (Db * (AccountException + AuthResponse)) :=
  let handle := _normalize_handle (login_handle payload) in
  let user_row := head (filter (λ u, user_handle u = handle) (users db)) in
  let invalid :=
    Some (db, inl (mkAccountException (http HTTP_401_UNAUTHORIZED) "Invalid credentials.")) in
  match user_row with
  | None => invalid
  | Some user_row =>
      verified ← _verify_password pbkdf2_hmac (login_password payload)
                   (user_password_hash user_row);
      if negb verified then invalid
      else
        db ← insert_session db token (user_id user_row);
        Some (db, inr (mkAuthResponse token
                         {| dto_user_id := user_id user_row;
                            dto_user_handle := user_handle user_row;
                            dto_user_display_name := user_display_name user_row;
                            dto_user_role := user_role user_row |}))
  end.

End Accounts.

(** POST /auth/logout (main.py, lines 954-963): the store after the request; the answer is
    [{'ok': True}] in every case. *)
Definition logout (db : Db) (token : option string) : Db :=
  match token with
  | None => db
  | Some t => with_sessions db (filter (λ s, session_token s ≠ t) (sessions db))
  end.

(** GET /auth/me (main.py, lines 966-968). *)
Definition me (db : Db) (token : option string) : HTTPException + UserDto :=
  _require_user db token.

(** ** Handles of social accounts *)

Inductive Provider := google | apple.

#[global] Instance Provider_eq_dec : EqDecision Provider.
Proof. solve_decision. Defined.

Definition provider_text (provider : Provider) : string :=
  match provider with google => "google" | apple => "apple" end.

(** The character class [a-z0-9_.-]. *)
Definition handle_char (c : ascii) : bool :=
  let n := N_of_ascii c in
  ((97 <=? n) && (n <=? 122) || (48 <=? n) && (n <=? 57)
   || (n =? 95) || (n =? 46) || (n =? 45))%N.

Definition is_underscore (c : ascii) : bool := Ascii.eqb c "_".

(** [re.sub(r'C+', '_', s)] for a character class C: every maximal run of characters of the
    class becomes one underscore. [in_run] tells that the character before was of the class.
    A character outside ASCII is a run of bytes outside [a-z0-9_.-], so the first
    substitution of [_social_handle_base] acts on the bytes as it does on the characters. *)
Fixpoint sub_runs (of_class : ascii → bool) (in_run : bool) (s : string) : string :=
  match s with
  | EmptyString => EmptyString
  | String c s' =>
      if of_class c then
        if in_run then sub_runs of_class true s' else String "_" (sub_runs of_class true s')
      else String c (sub_runs of_class false s')
  end.

Fixpoint lstrip (c : ascii) (s : string) : string :=
  match s with
  | EmptyString => EmptyString
  | String c' s' => if Ascii.eqb c' c then lstrip c s' else s
  end.

Fixpoint rstrip (c : ascii) (s : string) : string :=
  match s with
  | EmptyString => EmptyString
  | String c' s' =>
      match rstrip c s' with
      | EmptyString => if Ascii.eqb c' c then EmptyString else String c' EmptyString
      | rest => String c' rest
      end
  end.

(** [s.strip(c)]. *)
Definition strip_char (c : ascii) (s : string) : string := rstrip c (lstrip c s).

(** [s.split(sep, 1)[0]]. *)
Fixpoint before_first (sep : ascii) (s : string) : string :=
  match s with
  | EmptyString => EmptyString
  | String c s' => if Ascii.eqb c sep then EmptyString else String c (before_first sep s')
  end.

(** [s[:n]] of a string of ASCII characters. *)
Fixpoint take_chars (n : nat) (s : string) : string :=
  match n, s with
  | S n', String c s' => String c (take_chars n' s')
  | _, _ => EmptyString
  end.

Section SocialHandles.
Variable str_strip : string → string.
Variable str_lower : string → string.
(** [s[:n]] of any string: the first [n] code points. *)
Variable str_prefix : Z → string → string.

(** The body of the loop of [_social_handle_base] on the candidates left. *)
Fixpoint first_handle (raws : list (option string)) : option string :=
  match raws with
  | [] => None
  | None :: raws => first_handle raws
  | Some raw :: raws =>
      let normalized :=
        sub_runs (λ c, negb (handle_char c)) false (str_lower (str_strip raw)) in
      let normalized := strip_char "_" (sub_runs is_underscore false normalized) in
      if 3 <=? Z.of_nat (String.length normalized) then Some (take_chars 32 normalized)
      else first_handle raws
  end.

(** main.py, lines 160-180; [nonce] is what [secrets.token_hex(4)] returns. *)
Definition _social_handle_base (provider : Provider) (provider_user_id : string)
    (handle_hint email : option string) (display_name : string) (nonce : string) : string :=
  let raws :=
    [ handle_hint;
      match email with
      | Some e => if bool_decide (e ≠ EmptyString) then Some (before_first "@" e) else None
      | None => None
      end;
      Some display_name;
      Some (provider_text provider +:+ "_" +:+ str_prefix 12 provider_user_id) ] in
  match first_handle raws with
  | Some handle => handle
  | None => provider_text provider +:+ "_" +:+ nonce
  end.

(** One turn of the loop of [_ensure_unique_handle]; [None] when the turns run out. *)
Fixpoint ensure_unique_loop (turns : nat) (db : Db) (base_handle candidate : string)
    (suffix : Z) : option string :=
  match turns with
  | O => None
  | S turns =>
      let existing := head (filter (λ u, user_handle u = candidate) (users db)) in
      match existing with
      | None => Some candidate
      | Some _ =>
          let suffix := suffix + 1 in
          let trimmed :=
            str_prefix (Z.max 3 (32 - Z.of_nat (String.length (sql_text suffix)) - 1))
              base_handle in
          ensure_unique_loop turns db base_handle (trimmed +:+ "_" +:+ sql_text suffix) suffix
      end
  end.

(** main.py, lines 183-195, the [while True] loop cut after [turns] turns. *)
Definition _ensure_unique_handle (turns : nat) (db : Db) (base_handle : string)
    : option string :=
  ensure_unique_loop turns db base_handle base_handle 1.

End SocialHandles.

(** ** Social sign-in *)

Record SocialLoginRequest := mkSocialLoginRequest {
  social_login_provider : Provider;
  social_login_provider_user_id : string;
  social_login_display_name : string;
  social_login_email : option string;
  social_login_handle_hint : option string;
}.

(** What [secrets] returns to one social sign-in, in call order: [token_hex(4)] for the
    handle, [token_urlsafe(32)] for the password, [token_hex(16)] for its salt and
    [token_urlsafe(32)] for the session. *)
Record SocialSecrets := mkSocialSecrets {
  handle_nonce : string;
  password_secret : string;
  password_salt : string;
  session_secret : string;
}.

Definition with_social_identities (db : Db) (sis : list SocialIdentityRow) : Db :=
  {| users := users db; sessions := sessions db;
     social_identities := sis;
     matches := matches db;
     score_confirmations := score_confirmations db;
     users_seq := users_seq db; matches_seq := matches_seq db;
     score_confirmations_seq := score_confirmations_seq db |}.

Definition identity_key (si : SocialIdentityRow) : string * string :=
  (social_provider si, social_provider_user_id si).

(** INSERT INTO social_identities under UNIQUE(provider, provider_user_id) and the foreign
    key on users; [None] is sqlite3.IntegrityError. [rowid] is the id AUTOINCREMENT gives
    the row: the sequence of this table is not part of [Db]. *)
Definition insert_social_identity (db : Db) (rowid : Z) (provider provider_user_id : string)
    (uid : Z) : option Db :=
  if bool_decide ((provider, provider_user_id) ∈ identity_key <$> social_identities db)
  then None
  else if bool_decide (uid ∉ user_id <$> users db) then None
  else Some (with_social_identities db
               (social_identities db ++
                  [mkSocialIdentityRow rowid provider provider_user_id uid])).

(** main.py, lines 198-201; [token] is what [secrets.token_urlsafe(32)] returned, and is
    the value the function returns. *)
Definition _issue_session (db : Db) (token : string) (uid : Z) : option Db :=
  insert_session db token uid.

(** [provider.capitalize()]. *)
Definition capitalize (provider : Provider) : string :=
  match provider with google => "Google" | apple => "Apple" end.

Section SocialLogin.
Variable str_strip : string → string.
Variable str_lower : string → string.
Variable str_prefix : Z → string → string.
Variable pbkdf2_hmac : string → string → string.

(** [x.strip().lower() if x else None]. *)
Definition normalize_optional (x : option string) : option string :=
  match x with
  | Some s => if bool_decide (s ≠ EmptyString) then Some (str_lower (str_strip s)) else None
  | None => None
  end.

(** POST /auth/social (main.py, lines 888-951). [turns] bounds the loop of
    [_ensure_unique_handle]; the result is [None] when an exception other than
    HTTPException leaves the handler before the commit. *)
Definition social_login (db : Db) (turns : nat) (rowid : Z) (secrets : SocialSecrets)
    (payload : SocialLoginRequest) : option (Db * (AccountException + AuthResponse)) :=
  let provider := social_login_provider payload in
  let provider_user_id := str_strip (social_login_provider_user_id payload) in
  if bool_decide (provider_user_id = EmptyString) then
    Some (db, inl (mkAccountException HTTP_400_BAD_REQUEST "Missing provider user id."))
  else
    let display_name := str_strip (social_login_display_name payload) in
    let display_name :=
      if bool_decide (display_name = EmptyString) then capitalize provider +:+ " Player"
      else display_name in
    let normalized_email := normalize_optional (social_login_email payload) in
    let normalized_hint := normalize_optional (social_login_handle_hint payload) in
    let existing :=
      head (si ← filter (λ si, social_provider si = provider_text provider ∧
                               social_provider_user_id si = provider_user_id)
                   (social_identities db);
            filter (λ u, user_id u = social_user_id si) (users db)) in
    '(db, uid, user_row) ←
      match existing with
      | None =>
          let base_handle :=
            _social_handle_base str_strip str_lower str_prefix provider provider_user_id
              normalized_hint normalized_email display_name (handle_nonce secrets) in
          handle ← _ensure_unique_handle str_prefix turns db base_handle;
          db ← try_insert_user db handle display_name
                 (_hash_password pbkdf2_hmac (password_salt secrets) (password_secret secrets))
                 player;
          let uid := users_seq db in
          db ← insert_social_identity db rowid (provider_text provider) provider_user_id uid;
          Some (db, uid, head (filter (λ u, user_id u = uid) (users db)))
      | Some existing => Some (db, user_id existing, Some existing)
      end;
    db ← _issue_session db (session_secret secrets) uid;
    match user_row with
    | None => Some (db, inl (mkAccountException HTTP_500_INTERNAL_SERVER_ERROR
                               "Social login failed."))
    | Some user_row =>
        Some (db, inr (mkAuthResponse (session_secret secrets) (_row_to_user user_row)))
    end.

End SocialLogin.

(** ** Live snapshot *)

Record LiveSnapshotDto := mkLiveSnapshotDto {
  snapshot_generated_at : string;
  snapshot_current_round : option Z;
  snapshot_rounds : list RoundDto;
  snapshot_standings : list StandingRowDto;
}.

Section Live.
Variable str_lower : string → string.

(** GET /live (main.py, lines 1083-1094); [now] is the reading of [_utc_now()]. *)
Definition live_snapshot (db : Db) (now : string) (token : option string)
    : option LiveSnapshotDto :=
  let user := _optional_user db token in
  let user_id := dto_user_id <$> user in
  let current_round := _current_round db in
  rounds ← _fetch_rounds db user_id;
  standings ← _standings str_lower db None;
  Some (mkLiveSnapshotDto now current_round rounds standings).

End Live.

(** * Part II. Notions used to state the properties *)

(** ** The circle method, as the specification words it *)

Definition pad (player_ids : list Z) : list (option Z) :=
  if Nat.odd (length player_ids) then (Some <$> player_ids) ++ [None] else Some <$> player_ids.

Definition circle_rotate (p : list (option Z)) : list (option Z) :=
  match p, last p with
  | p0 :: _ :: _, Some pl => p0 :: pl :: take (length p - 2) (drop 1 p)
  | _, _ => p
  end.

Definition circle_cell (p : list (option Z)) (round_index i : nat) : list (Z * Z) :=
  match p !! i, p !! (length p - 1 - i)%nat with
  | Some (Some l), Some (Some r) =>
      if Nat.even round_index && (i =? 0)%nat then [(r, l)] else [(l, r)]
  | _, _ => []
  end.

Definition circle_round (p : list (option Z)) (round_index : nat) : list (Z * Z) :=
  concat (circle_cell p round_index <$> seq 0 (length p / 2)).

Definition circle_method (player_ids : list Z) : list (list (Z * Z)) :=
  (λ r, circle_round (Nat.iter r circle_rotate (pad player_ids)) r)
    <$> seq 0 (length (pad player_ids) - 1).

(** ** Seats: who sits where in round [r] of an [n]-seat circle *)

Local Close Scope Z_scope.

Definition seat_of (n r j : nat) : nat :=
  if j =? 0 then 0 else if r <? j then j - r else j + (n - 1) - r.

Definition seat_at (n r a : nat) : nat :=
  if a =? 0 then 0 else if a + r <? n then a + r else a + r - (n - 1).


Local Open Scope Z_scope.

(** ** Pairs, players and byes of a schedule *)

Definition meets (a b : Z) (q : Z * Z) : Prop := q = (a, b) ∨ q = (b, a).

Definition plays (a : Z) (q : Z * Z) : Prop := q.1 = a ∨ q.2 = a.

Definition absent_from (a : Z) (round : list (Z * Z)) : Prop := Forall (λ q, ¬ plays a q) round.

#[global] Instance meets_dec a b q : Decision (meets a b q).
Proof. unfold meets. apply _. Defined.

#[global] Instance plays_dec a q : Decision (plays a q).
Proof. unfold plays. apply _. Defined.

#[global] Instance absent_from_dec a round : Decision (absent_from a round).
Proof. unfold absent_from. apply _. Defined.

(** ** Status and consensus *)

Definition colon_free (s : string) : Prop := ∀ s1 s2, s ≠ s1 +:+ String ":"%char s2.

Definition scores_differ (db : Db) (mid : Z) : Prop :=
  ∃ c1 c2, c1 ∈ confirmations_of db mid ∧ c2 ∈ confirmations_of db mid ∧
           (conf_score1 c1, conf_score2 c1) ≠ (conf_score1 c2, conf_score2 c2).

Definition both_confirmed (m : MatchRow) : Prop :=
  match_confirmed_score1 m ≠ None ∧ match_confirmed_score2 m ≠ None.

Definition agree_with (first c : ConfirmationRow) : Prop :=
  conf_score1 c = conf_score1 first ∧ conf_score2 c = conf_score2 first.

Definition conf_key (mid uid : Z) (c : ConfirmationRow) : Prop :=
  conf_match_id c = mid ∧ conf_player_id c = uid.

#[global] Instance conf_key_dec mid uid c : Decision (conf_key mid uid c).
Proof. unfold conf_key. apply _. Defined.

Definition failed_with (code : StatusCode) (out : Db * (HTTPException + MatchDto)) : Prop :=
  ∃ e, out.2 = inl e ∧ status_code e = code.

(** ** Tallies of the standings fold *)

Definition sumZ {A} (f : A → Z) (l : list A) : Z := foldr (λ x acc, f x + acc) 0 l.

Definition bump (k pid : Z) (f : StatRow → StatRow) (row : StatRow) : StatRow :=
  if bool_decide (k = pid) then f row else row.

(** What one folded match does to the accumulator stored under key [k]. *)
Definition step_row (up_to_round : option Z) (m : MatchRow) (score1 score2 : Z) (k : Z)
    (row : StatRow) : StatRow :=
  let player1_id := match_player1_id m in
  let player2_id := match_player2_id m in
  let p1_points := (_match_points score1 score2).1 in
  let p2_points := (_match_points score1 score2).2 in
  let row := bump k player1_id (add_played 1) row in
  let row := bump k player2_id (add_played 1) row in
  let row := bump k player1_id (add_goals_for score1) row in
  let row := bump k player1_id (add_goals_against score2) row in
  let row := bump k player2_id (add_goals_for score2) row in
  let row := bump k player2_id (add_goals_against score1) row in
  let row := bump k player1_id (add_points p1_points) row in
  let row := bump k player2_id (add_points p2_points) row in
  let row :=
    if bool_decide (up_to_round = Some (match_round_number m))
    then bump k player2_id (add_round_points p2_points)
           (bump k player1_id (add_round_points p1_points) row)
    else row in
  if score1 >? score2
  then bump k player2_id (add_losses 1) (bump k player1_id (add_wins 1) row)
  else if score2 >? score1
  then bump k player1_id (add_losses 1) (bump k player2_id (add_wins 1) row)
  else bump k player2_id (add_draws 1) (bump k player1_id (add_draws 1) row).

Definition fold_row (up_to_round : option Z) (k : Z) (row : StatRow) (m : MatchRow) : StatRow :=
  match match_confirmed_score1 m, match_confirmed_score2 m with
  | Some score1, Some score2 => step_row up_to_round m score1 score2 k row
  | _, _ => row
  end.

Definition on_side1 (k : Z) (m : MatchRow) : Z :=
  if bool_decide (match_player1_id m = k) then 1 else 0.

Definition on_side2 (k : Z) (m : MatchRow) : Z :=
  if bool_decide (match_player2_id m = k) then 1 else 0.

Definition score_side1 (m : MatchRow) : Z := default 0 (match_confirmed_score1 m).

Definition score_side2 (m : MatchRow) : Z := default 0 (match_confirmed_score2 m).

(** 3 to the higher score, 0 to the lower, 1 each on equality. *)
Definition points_for (own other : Z) : Z :=
  if own >? other then 3 else if other >? own then 0 else 1.

Definition played_in (k : Z) (m : MatchRow) : Z := on_side1 k m + on_side2 k m.

Definition goals_for_in (k : Z) (m : MatchRow) : Z :=
  on_side1 k m * score_side1 m + on_side2 k m * score_side2 m.

Definition goals_against_in (k : Z) (m : MatchRow) : Z :=
  on_side1 k m * score_side2 m + on_side2 k m * score_side1 m.

Definition points_in (k : Z) (m : MatchRow) : Z :=
  on_side1 k m * points_for (score_side1 m) (score_side2 m)
  + on_side2 k m * points_for (score_side2 m) (score_side1 m).

Definition wins_in (k : Z) (m : MatchRow) : Z :=
  on_side1 k m * (if score_side1 m >? score_side2 m then 1 else 0)
  + on_side2 k m * (if score_side2 m >? score_side1 m then 1 else 0).

Definition losses_in (k : Z) (m : MatchRow) : Z :=
  on_side1 k m * (if score_side2 m >? score_side1 m then 1 else 0)
  + on_side2 k m * (if score_side1 m >? score_side2 m then 1 else 0).

Definition draws_in (k : Z) (m : MatchRow) : Z :=
  (on_side1 k m + on_side2 k m) * (if score_side1 m =? score_side2 m then 1 else 0).

Record same_player (r1 r2 : StatRow) : Prop := {
  same_id : st_player_id r2 = st_player_id r1;
  same_handle : st_handle r2 = st_handle r1;
  same_name : st_display_name r2 = st_display_name r1;
}.

Record tallied (up : option Z) (k : Z) (ms : list MatchRow) (row row' : StatRow) : Prop := {
  tallied_player : same_player row row';
  tallied_played : st_played row' = st_played row + sumZ (played_in k) ms;
  tallied_wins : st_wins row' = st_wins row + sumZ (wins_in k) ms;
  tallied_draws : st_draws row' = st_draws row + sumZ (draws_in k) ms;
  tallied_losses : st_losses row' = st_losses row + sumZ (losses_in k) ms;
  tallied_goals_for : st_goals_for row' = st_goals_for row + sumZ (goals_for_in k) ms;
  tallied_goals_against :
    st_goals_against row' = st_goals_against row + sumZ (goals_against_in k) ms;
  tallied_points : st_points row' = st_points row + sumZ (points_in k) ms;
  tallied_round_points :
    st_round_points row'
    = st_round_points row
      + sumZ (λ m, if bool_decide (up = Some (match_round_number m))
                   then points_in k m else 0) ms;
}.

Definition roster (db : Db) : list UserRow :=
  filter (λ u, user_role u = player) (users db).

Definition round_in_scope (up_to_round : option Z) (m : MatchRow) : Prop :=
  match up_to_round with
  | Some k => match_round_number m ≤ k
  | None => True
  end.

#[global] Instance round_in_scope_dec up m : Decision (round_in_scope up m).
Proof. destruct up; simpl; apply _. Defined.

#[global] Instance both_confirmed_dec m : Decision (both_confirmed m).
Proof. unfold both_confirmed. apply _. Defined.

(** The confirmed matches a standings call folds. *)
Definition folded (up_to_round : option Z) (db : Db) : list MatchRow :=
  filter (λ m, both_confirmed m ∧ round_in_scope up_to_round m) (matches db).

(** How one standings row relates to its roster player and to the folded matches. *)
Record row_tallied (up : option Z) (db : Db) (u : UserRow) (row : StandingRowDto)
    : Prop := {
  rt_player_id : sr_player_id row = user_id u;
  rt_handle : sr_handle row = user_handle u;
  rt_display_name : sr_display_name row = user_display_name u;
  rt_played : sr_played row = sumZ (played_in (user_id u)) (folded up db);
  rt_wins : sr_wins row = sumZ (wins_in (user_id u)) (folded up db);
  rt_draws : sr_draws row = sumZ (draws_in (user_id u)) (folded up db);
  rt_losses : sr_losses row = sumZ (losses_in (user_id u)) (folded up db);
  rt_goals_for : sr_goals_for row = sumZ (goals_for_in (user_id u)) (folded up db);
  rt_goals_against :
    sr_goals_against row = sumZ (goals_against_in (user_id u)) (folded up db);
  rt_goal_difference : sr_goal_difference row = sr_goals_for row - sr_goals_against row;
  rt_points : sr_points row = sumZ (points_in (user_id u)) (folded up db);
  rt_round_points :
    sr_round_points row
    = sumZ (λ m, if bool_decide (up = Some (match_round_number m))
                 then points_in (user_id u) m else 0) (folded up db);
}.

Definition participants_on_roster (up : option Z) (db : Db) : Prop :=
  Forall (λ m, match_player1_id m ∈ user_id <$> roster db ∧
               match_player2_id m ∈ user_id <$> roster db) (folded up db).

Section Ranking.
Variable str_lower : string → string.

Definition ranks_before (r1 r2 : StandingRowDto) : Prop :=
  sr_points r1 > sr_points r2 ∨
  sr_points r1 = sr_points r2 ∧
    (sr_goal_difference r1 > sr_goal_difference r2 ∨
     sr_goal_difference r1 = sr_goal_difference r2 ∧
       (sr_goals_for r1 > sr_goals_for r2 ∨
        sr_goals_for r1 = sr_goals_for r2 ∧
          String.leb (str_lower (sr_display_name r1))
                     (str_lower (sr_display_name r2)) = true)).

End Ranking.

(** ** A worked store *)

(** ASCII instance of [str.lower], for the worked examples. *)
Definition lower_char (c : ascii) : ascii :=
  let n := N_of_ascii c in
  if ((65 <=? n) && (n <=? 90))%N then ascii_of_N (n + 32) else c.

Fixpoint lower_ascii (s : string) : string :=
  match s with
  | EmptyString => EmptyString
  | String c s' => String (lower_char c) (lower_ascii s')
  end.

(** The demo tournament after some play: matches 1 to 3 confirmed, match 4 disputed,
    match 5 reported by one side only, match 6 untouched. *)
Definition demo_db : Db :=
  {| users :=
       [ mkUserRow 1 "alice" "Alice Mercer" "h1" player;
         mkUserRow 2 "bob" "Bob Singh" "h2" player;
         mkUserRow 3 "carla" "Carla Diaz" "h3" player;
         mkUserRow 4 "diego" "Diego Kim" "h4" player;
         mkUserRow 5 "viewer" "Live Viewer" "h5" viewer ];
     sessions :=
       [ mkSessionRow "ta" 1; mkSessionRow "tb" 2; mkSessionRow "tc" 3;
         mkSessionRow "td" 4; mkSessionRow "tv" 5 ];
     social_identities := [];
     matches :=
       [ mkMatchRow 1 1 1 4 1 (Some 3) (Some 1) (Some "e1");
         mkMatchRow 2 1 2 2 3 (Some 1) (Some 1) (Some "e2");
         mkMatchRow 3 2 1 1 3 (Some 0) (Some 2) (Some "e3");
         mkMatchRow 4 2 2 4 2 None None None;
         mkMatchRow 5 3 1 2 1 None None None;
         mkMatchRow 6 3 2 3 4 None None None ];
     score_confirmations :=
       [ mkConfirmationRow 1 1 4 3 1 "c1" "c1";
         mkConfirmationRow 2 1 1 3 1 "c2" "c2";
         mkConfirmationRow 3 2 2 1 1 "c3" "c3";
         mkConfirmationRow 4 2 3 1 1 "c4" "c4";
         mkConfirmationRow 5 3 3 0 2 "c5" "c5";
         mkConfirmationRow 6 3 1 0 2 "c6" "c6";
         mkConfirmationRow 7 4 4 2 1 "c7" "c7";
         mkConfirmationRow 8 4 2 1 2 "c8" "c8";
         mkConfirmationRow 9 5 2 5 0 "c9" "c9" ];
     users_seq := 5; matches_seq := 6; score_confirmations_seq := 9 |}.

Definition demo_clock : Clock := mkClock "n1" "n2" "n3".

(** ** Standings, continued *)

(** A standings row with its round-local column blanked. *)
Definition clear_round_points (row : StandingRowDto) : StandingRowDto :=
  {| sr_position := sr_position row;
     sr_player_id := sr_player_id row;
     sr_handle := sr_handle row;
     sr_display_name := sr_display_name row;
     sr_played := sr_played row;
     sr_wins := sr_wins row;
     sr_draws := sr_draws row;
     sr_losses := sr_losses row;
     sr_goals_for := sr_goals_for row;
     sr_goals_against := sr_goals_against row;
     sr_goal_difference := sr_goal_difference row;
     sr_round_points := 0;
     sr_points := sr_points row |}.

Definition zero_round_points (r : StatRow) : StatRow :=
  mkStatRow (st_player_id r) (st_handle r) (st_display_name r) (st_played r) (st_wins r)
    (st_draws r) (st_losses r) (st_goals_for r) (st_goals_against r) (st_points r) 0.

Definition drawn (m : MatchRow) : Prop := score_side1 m = score_side2 m.

#[global] Instance drawn_dec m : Decision (drawn m).
Proof. unfold drawn. apply _. Defined.

(** ** Round views *)

(** The [RoundDto] built from the matches of round [k] in the listing [l]. *)
Definition round_group (l : list MatchDto) (k : Z) : RoundDto :=
  let round_matches := filter (λ m, dto_round_number m = k) l in
  {| rd_round_number := k;
     rd_is_complete := forallb (λ m, bool_decide (dto_status m = confirmed)) round_matches;
     rd_matches := round_matches |}.

Definition round_complete (db : Db) (k : Z) : Prop :=
  ∀ m, m ∈ matches db → match_round_number m = k → both_confirmed m.

#[global] Instance round_complete_dec db k : Decision (round_complete db k).
Proof.
  refine (cast_if (decide (Forall (λ m, match_round_number m = k → both_confirmed m)
                             (matches db))));
    unfold round_complete; rewrite Forall_forall in *; auto.
Defined.

(** Each round of the tournament with its completion flag, in round order. *)
Definition round_flags (db : Db) : list (Z * bool) :=
  (λ k, (k, bool_decide (round_complete db k))) <$> distinct_rounds db.

Definition players_exist (db : Db) : Prop :=
  Forall (λ m, (∃ u, u ∈ users db ∧ user_id u = match_player1_id m) ∧
               (∃ u, u ∈ users db ∧ user_id u = match_player2_id m)) (matches db).

(** ** Points per round *)

(** The confirmed matches of round [k]. *)
Definition confirmed_in_round (db : Db) (k : Z) : list MatchRow :=
  filter (λ m, both_confirmed m ∧ match_round_number m = k) (matches db).

(** The rows of one round before they are sorted. *)
Definition round_rows (db : Db) (players : list UserRow) (k : Z) : list PlayerRoundPointsDto :=
  (λ u, {| prp_player_id := user_id u;
           prp_display_name := user_display_name u;
           prp_points := sumZ (points_in (user_id u)) (confirmed_in_round db k) |})
    <$> players.

Section RoundRanking.
Variable str_lower : string → string.

Definition round_ranks_before (r1 r2 : PlayerRoundPointsDto) : Prop :=
  prp_points r1 > prp_points r2 ∨
  prp_points r1 = prp_points r2 ∧
    String.leb (str_lower (prp_display_name r1)) (str_lower (prp_display_name r2)) = true.

End RoundRanking.

(** ** Reports *)

(** The report of [uid] on match [mid] as the views show it. *)
Definition my_report (db : Db) (mid : Z) (user_id_param : option Z)
    : option ScoreConfirmationDto :=
  match user_id_param with
  | None => None
  | Some uid =>
      (λ c, {| dto_score1 := conf_score1 c; dto_score2 := conf_score2 c |})
        <$> head (filter (conf_key mid uid) (score_confirmations db))
  end.

(** UNIQUE(match_id, player_id) on score_confirmations. *)
Definition one_report_each (db : Db) : Prop :=
  ∀ mid uid, (length (filter (conf_key mid uid) (score_confirmations db)) ≤ 1)%nat.

(** The reports on match [mid] by players other than [uid]. *)
Definition other_reports (db : Db) (mid uid : Z) : list ConfirmationRow :=
  filter (λ c, conf_match_id c = mid ∧ conf_player_id c ≠ uid) (score_confirmations db).

Definition reports (s1 s2 : Z) (c : ConfirmationRow) : Prop :=
  conf_score1 c = s1 ∧ conf_score2 c = s2.

#[global] Instance reports_dec s1 s2 c : Decision (reports s1 s2 c).
Proof. unfold reports. apply _. Defined.

(** The store after an accepted submission. *)
Definition submitted (db : Db) (clock : Clock) (mid uid : Z) (payload : ScoreConfirmRequest)
    : Db :=
  _confirm_scores_if_consensus
    (upsert_confirmation db mid uid (payload_score1 payload) (payload_score2 payload)
       (now_created clock) (now_updated clock))
    (now_confirmed clock) mid.

(** ** Passwords *)

Fixpoint dollar_free (s : string) : Prop :=
  match s with
  | EmptyString => True
  | String c s' => c ≠ "$"%char ∧ dollar_free s'
  end.

(** ** Accounts *)

(** What the schema guarantees of users and sessions: the two primary keys, the
    AUTOINCREMENT sequence, UNIQUE(handle) and the foreign key of sessions. *)
Record accounts_consistent (db : Db) : Prop := {
  user_ids_unique : NoDup (user_id <$> users db);
  user_ids_issued : Forall (λ u, user_id u ≤ users_seq db) (users db);
  handles_unique : NoDup (user_handle <$> users db);
  tokens_unique : NoDup (session_token <$> sessions db);
  session_users_exist :
    Forall (λ s, session_user_id s ∈ user_id <$> users db) (sessions db);
}.

(** The rows of the join [_require_user] reads for token [t]. *)
Definition session_rows (db : Db) (t : string) : list UserRow :=
  s ← filter (λ s, session_token s = t) (sessions db);
  filter (λ u, user_id u = session_user_id s) (users db).

Definition invalid_credentials : AccountException :=
  mkAccountException (http HTTP_401_UNAUTHORIZED) "Invalid credentials.".

Definition handle_exists : AccountException :=
  mkAccountException (http HTTP_409_CONFLICT) "Handle already exists.".

(** ** Handles *)

Fixpoint all_chars (P : ascii → bool) (s : string) : bool :=
  match s with
  | EmptyString => true
  | String c s' => P c && all_chars P s'
  end.

Definition starts_with (c : ascii) (s : string) : bool :=
  match s with
  | EmptyString => false
  | String c' _ => Ascii.eqb c' c
  end.

Fixpoint double_underscore (s : string) : bool :=
  match s with
  | EmptyString => false
  | String c s' => is_underscore c && starts_with "_" s' || double_underscore s'
  end.

(** What a handle of a social account looks like. *)
Record handle_shaped (s : string) : Prop := {
  shaped_length : (3 ≤ String.length s ≤ 32)%nat;
  shaped_chars : all_chars handle_char s = true;
  shaped_start : starts_with "_" s = false;
  shaped_runs : double_underscore s = false;
}.

(** The handle [_ensure_unique_handle] tries in turn [k]. *)
Definition candidate (str_prefix : Z → string → string) (base_handle : string) (k : Z)
    : string :=
  if bool_decide (k = 1) then base_handle
  else str_prefix (Z.max 3 (32 - Z.of_nat (String.length (sql_text k)) - 1)) base_handle
       +:+ "_" +:+ sql_text k.

(** ** Social identities *)

(** What the schema guarantees of social identities: UNIQUE(provider, provider_user_id)
    and the foreign key on users. *)
Record identities_consistent (db : Db) : Prop := {
  identities_unique : NoDup (identity_key <$> social_identities db);
  identity_users_exist :
    Forall (λ si, social_user_id si ∈ user_id <$> users db) (social_identities db);
}.

(** The account a provider identity is linked to. *)
Definition linked_user (db : Db) (provider : Provider) (provider_user_id : string)
    : list UserRow :=
  si ← filter (λ si, identity_key si = (provider_text provider, provider_user_id))
         (social_identities db);
  filter (λ u, user_id u = social_user_id si) (users db).

(** The display name a social sign-in gives a new account. *)
Definition social_display_name (str_strip : string → string) (payload : SocialLoginRequest)
    : string :=
  let display_name := str_strip (social_login_display_name payload) in
  if bool_decide (display_name = EmptyString)
  then capitalize (social_login_provider payload) +:+ " Player"
  else display_name.

(** ** The worked store, continued *)

(** The worked store with alice linked to a Google identity. *)
Definition demo_linked_db : Db :=
  with_social_identities demo_db [mkSocialIdentityRow 1 "google" "g-100" 1].

(** * Part III. Properties *)

Ltac split_ifs :=
  repeat match goal with
         | |- context [if ?b then _ else _] => destruct b eqn:?
         | H : context [if ?b then _ else _] |- _ => destruct b eqn:?
         end.

Ltac stat_fields :=
  cbn [default from_option id st_player_id st_handle st_display_name st_played st_wins st_draws
       st_losses st_goals_for st_goals_against st_points st_round_points
       add_played add_wins add_draws add_losses add_goals_for add_goals_against
       add_points add_round_points fst snd].

(** ** The generator computes the circle method *)

Lemma py_index_nat {A} (l : list A) (i : nat) : py_index l (Z.of_nat i) = l !! i.
Proof. unfold py_index. destruct (Z.leb_spec 0 (Z.of_nat i)); [by rewrite Nat2Z.id | lia]. Qed.

Lemma py_index_last {A} (l : list A) : py_index l (-1) = last l.
Proof.
  unfold py_index. simpl. destruct l as [|x l]; [done|].
  destruct (Z.leb_spec (- Z.of_nat (length (x :: l))) (-1)); [|simpl length in *; lia].
  rewrite last_lookup. f_equal. simpl length. lia.
Qed.

Lemma py_slice_middle {A} (l : list A) :
  py_slice l 1 (-1) = take (length l - 2) (drop 1 l).
Proof.
  unfold py_slice, py_clamp. simpl.
  destruct l as [|x l]; [done|]. simpl length.
  replace (Z.to_nat (1 `min` Z.of_nat (S (length l)))) with 1%nat by lia.
  replace (Z.to_nat (0 `max` (Z.of_nat (S (length l)) + -1))) with (length l) by lia.
  f_equal; lia.
Qed.

Lemma rotate_participants_circle (p : list (option Z)) :
  (2 ≤ length p)%nat → rotate_participants p = Some (circle_rotate p).
Proof.
  intros Hlen. unfold rotate_participants, circle_rotate.
  change (py_index p 0) with (py_index p (Z.of_nat 0)).
  rewrite (py_index_nat p 0), py_index_last, py_slice_middle.
  destruct p as [|p0 [|p1 p]]; simpl in Hlen; try lia.
  destruct (last (p0 :: p1 :: p)) as [pl|] eqn:Hl; [done|].
  by apply last_None in Hl.
Qed.

Lemma circle_rotate_length (p : list (option Z)) : length (circle_rotate p) = length p.
Proof.
  unfold circle_rotate. destruct p as [|p0 [|p1 p]]; try done.
  destruct (last _); [|done]. cbn [length]. rewrite length_take, length_drop. cbn [length]. lia.
Qed.

Lemma circle_iter_length (p : list (option Z)) r :
  length (Nat.iter r circle_rotate p) = length p.
Proof. induction r as [|r IH]; [done|]. simpl. by rewrite circle_rotate_length. Qed.

Lemma even_index_test (round_index : nat) :
  (Z.of_nat round_index mod 2 =? 0) = Nat.even round_index.
Proof.
  destruct (Nat.even round_index) eqn:He.
  - apply Nat.even_spec in He. destruct He as [q ->]. apply Z.eqb_eq.
    rewrite Nat2Z.inj_mul. change (Z.of_nat 2) with 2.
    by rewrite Z.mul_comm, Z_mod_mult.
  - apply Z.eqb_neq. intros Hm.
    assert (Nat.even round_index = true); [|congruence].
    apply Nat.even_spec. exists (Z.to_nat (Z.of_nat round_index / 2)).
    pose proof (Z.div_mod (Z.of_nat round_index) 2 ltac:(lia)). lia.
Qed.

Lemma pair_step_cell (p : list (option Z)) (round_index s : nat) acc :
  (s < length p)%nat →
  pair_step p (Z.of_nat (length p)) (Z.of_nat round_index) acc (Z.of_nat s)
  = Some (acc ++ circle_cell p round_index s).
Proof.
  intros Hs. unfold pair_step, circle_cell. rewrite py_index_nat.
  replace (Z.of_nat (length p) - 1 - Z.of_nat s) with (Z.of_nat (length p - 1 - s)) by lia.
  rewrite py_index_nat, even_index_test.
  replace (Z.of_nat s =? 0) with (s =? 0)%nat
    by (destruct (Nat.eqb_spec s 0), (Z.eqb_spec (Z.of_nat s) 0); lia || done).
  destruct (lookup_lt_is_Some_2 p s ltac:(lia)) as [l ->].
  destruct (lookup_lt_is_Some_2 p (length p - 1 - s) ltac:(lia)) as [r ->].
  simpl. destruct l as [l|], r as [r|]; rewrite ?app_nil_r; try done.
  by destruct (Nat.even round_index && (s =? 0)%nat).
Qed.

Lemma pair_loop_cells (p : list (option Z)) (round_index : nat) k s acc :
  (s + k ≤ length p)%nat →
  for_each (pair_step p (Z.of_nat (length p)) (Z.of_nat round_index)) acc
           (Z.of_nat <$> seq s k)
  = Some (acc ++ concat (circle_cell p round_index <$> seq s k)).
Proof.
  revert s acc. induction k as [|k IH]; intros s acc Hk.
  { simpl. by rewrite app_nil_r. }
  rewrite <- cons_seq, !fmap_cons. cbn [for_each concat].
  rewrite pair_step_cell by lia. simpl. rewrite IH by lia.
  by rewrite <- app_assoc.
Qed.

Lemma round_step_circle (p : list (option Z)) (s : nat) rounds :
  (2 ≤ length p)%nat →
  round_step (Z.of_nat (length p)) (Z.of_nat (length p) / 2) (rounds, p) (Z.of_nat s)
  = Some (rounds ++ [circle_round p s], circle_rotate p).
Proof.
  intros Hlen. unfold round_step, py_range.
  replace (Z.to_nat (Z.of_nat (length p) / 2)) with (length p / 2)%nat.
  2:{ rewrite <- (Nat2Z.id (length p / 2)). f_equal. by rewrite Nat2Z.inj_div. }
  rewrite pair_loop_cells.
  2:{ pose proof (Nat.div_mod_eq (length p) 2). lia. }
  simpl. by rewrite rotate_participants_circle by lia.
Qed.

Lemma round_loop_circle (count : nat) k s (p : list (option Z)) rounds :
  length p = count → (k = 0 ∨ 2 ≤ count)%nat →
  for_each (round_step (Z.of_nat count) (Z.of_nat count / 2)) (rounds, p)
           (Z.of_nat <$> seq s k)
  = Some (rounds ++ ((λ j, circle_round (Nat.iter j circle_rotate p) (s + j)) <$> seq 0 k),
          Nat.iter k circle_rotate p).
Proof.
  revert s p rounds. induction k as [|k IH]; intros s p rounds Hlen Hk.
  { simpl. by rewrite app_nil_r. }
  rewrite <- cons_seq, !fmap_cons. cbn [for_each]. subst count.
  rewrite round_step_circle by lia. simpl.
  rewrite IH; [|by rewrite circle_rotate_length|lia].
  f_equal. f_equal.
  - rewrite <- app_assoc. f_equal. simpl. f_equal.
    + by rewrite Nat.add_0_r.
    + rewrite <- fmap_S_seq, <- list_fmap_compose. apply list_fmap_ext.
      intros i j _. unfold compose. rewrite Nat.iter_succ_r. f_equal. lia.
  - by rewrite <- Nat.iter_succ_r.
Qed.

Lemma pad_length_even (player_ids : list Z) : Nat.even (length (pad player_ids)) = true.
Proof.
  unfold pad. destruct (Nat.odd (length player_ids)) eqn:Ho.
  - rewrite length_app, length_fmap. simpl. rewrite Nat.add_1_r, Nat.even_succ. done.
  - rewrite length_fmap. by rewrite <- Nat.negb_odd, Ho.
Qed.

Lemma generate_round_robin_circle (player_ids : list Z) :
  _generate_round_robin player_ids = Some (circle_method player_ids).
Proof.
  unfold _generate_round_robin, circle_method.
  assert (Hp : (if Z.of_nat (length (Some <$> player_ids)) mod 2 =? 1
                then (Some <$> player_ids) ++ [None] else Some <$> player_ids)
               = pad player_ids).
  { unfold pad. rewrite length_fmap.
    replace (Z.of_nat (length player_ids) mod 2 =? 1) with (Nat.odd (length player_ids)); [done|].
    rewrite <- Nat.negb_even, <- even_index_test.
    pose proof (Z.mod_pos_bound (Z.of_nat (length player_ids)) 2 ltac:(lia)).
    destruct (Z.eqb_spec (Z.of_nat (length player_ids) mod 2) 0),
             (Z.eqb_spec (Z.of_nat (length player_ids) mod 2) 1); simpl; lia || done. }
  rewrite Hp. clear Hp. unfold py_range.
  replace (Z.to_nat (Z.of_nat (length (pad player_ids)) - 1))
    with (length (pad player_ids) - 1)%nat by lia.
  rewrite round_loop_circle; [done|done|].
  pose proof (pad_length_even player_ids) as He.
  destruct (length (pad player_ids)) as [|[|n]]; [by left|done|right; lia].
Qed.

Lemma circle_rotate_head (p : list (option Z)) : circle_rotate p !! 0%nat = p !! 0%nat.
Proof.
  unfold circle_rotate. destruct p as [|p0 [|p1 p]]; try done.
  by destruct (last (p0 :: p1 :: p)).
Qed.

(** C6. The generator computes the circle method: the list is padded with one bye
    when odd, position 0 never moves, each round the arrangement becomes
    [pos0, pos_last, pos1 .. pos_(last-1)], position i meets position count-1-i for
    i below count/2, bye pairs are dropped, and the pair at i = 0 is emitted reversed
    on even round indices. *)
Theorem generate_round_robin_circle_method (player_ids : list Z) :
  _generate_round_robin player_ids = Some (circle_method player_ids) ∧
  ∀ r, Nat.iter r circle_rotate (pad player_ids) !! 0%nat = pad player_ids !! 0%nat.
Proof.
  split; [apply generate_round_robin_circle|].
  induction r as [|r IH]; [done|]. simpl. by rewrite circle_rotate_head.
Qed.

(** ** Every pair meets once *)

Local Close Scope Z_scope.
Ltac Zify.zify_post_hook ::= Z.to_euclidean_division_equations.

Lemma seat_of_at n r a : 2 ≤ n → r < n - 1 → a < n → seat_of n r (seat_at n r a) = a.
Proof. unfold seat_of, seat_at. intros. split_ifs; lia. Qed.

Lemma seat_at_of n r j : 2 ≤ n → r < n - 1 → j < n → seat_at n r (seat_of n r j) = j.
Proof. unfold seat_of, seat_at. intros. split_ifs; lia. Qed.

Lemma seat_at_bound n r a : 2 ≤ n → r < n - 1 → a < n → seat_at n r a < n.
Proof. unfold seat_at. intros. split_ifs; lia. Qed.

Lemma seat_of_bound n r j : 2 ≤ n → r < n - 1 → j < n → seat_of n r j < n.
Proof. unfold seat_of. intros. split_ifs; lia. Qed.



Lemma circle_rotate_lookup (p : list (option Z)) j :
  2 ≤ length p → j < length p →
  circle_rotate p !! j
  = p !! (if j =? 0 then 0 else if j =? 1 then length p - 1 else j - 1).
Proof.
  intros Hlen Hj. unfold circle_rotate.
  destruct p as [|p0 [|p1 p]]; simpl in Hlen; try lia.
  destruct (last (p0 :: p1 :: p)) as [pl|] eqn:Hl; [|by apply last_None in Hl].
  destruct j as [|[|j]]; [done| |].
  - rewrite last_lookup in Hl. change (1 =? 0) with false. change (1 =? 1) with true.
    cbv iota. replace (length (p0 :: p1 :: p) - 1) with (Init.Nat.pred (length (p0 :: p1 :: p))) by lia.
    by rewrite Hl.
  - cbn [length drop Nat.sub Nat.eqb]. simpl in Hj.
    rewrite !lookup_cons. rewrite lookup_take_lt by lia. done.
Qed.

Lemma circle_iter_lookup (p : list (option Z)) r j :
  2 ≤ length p → r ≤ length p - 1 → j < length p →
  Nat.iter r circle_rotate p !! j = p !! seat_of (length p) r j.
Proof.
  intros Hlen. revert j. induction r as [|r IH]; intros j Hr Hj.
  - f_equal. unfold seat_of. split_ifs; lia.
  - simpl. rewrite circle_rotate_lookup by (rewrite circle_iter_length; lia).
    rewrite circle_iter_length, IH by (split_ifs; lia).
    f_equal. unfold seat_of. split_ifs; lia.
Qed.

Lemma circle_cell_seats (p : list (option Z)) h r i :
  length p = 2 * h → r < 2 * h - 1 → i < h →
  circle_cell (Nat.iter r circle_rotate p) r i
  = match p !! seat_of (2 * h) r i, p !! seat_of (2 * h) r (2 * h - 1 - i) with
    | Some (Some l), Some (Some x) =>
        if Nat.even r && (i =? 0) then [(x, l)] else [(l, x)]
    | _, _ => []
    end.
Proof.
  intros Hlen Hr Hi. unfold circle_cell.
  rewrite circle_iter_length, !circle_iter_lookup by lia.
  by rewrite Hlen.
Qed.

(** Sums of a function that is constant but for one index. *)
Lemma sum_seq_const (f : nat → nat) s k d :
  (∀ i, s ≤ i < s + k → f i = d) → sum_list_with f (seq s k) = k * d.
Proof.
  revert s. induction k as [|k IH]; intros s Hf; [done|].
  simpl. rewrite Hf, IH by (intros; try apply Hf; lia). lia.
Qed.

Lemma sum_seq_single_from (f : nat → nat) s k i0 c d :
  s ≤ i0 < s + k → (∀ i, s ≤ i < s + k → f i = if decide (i = i0) then c else d) →
  sum_list_with f (seq s k) = (k - 1) * d + c.
Proof.
  revert s. induction k as [|k IH]; intros s Hi Hf; [lia|].
  simpl. rewrite (Hf s) by lia. destruct (decide (s = i0)) as [->|Hne].
  - rewrite (sum_seq_const f (S i0) k d); [lia|].
    intros i Hi'. rewrite Hf by lia. by rewrite decide_False by lia.
  - rewrite (IH (S s)); [|lia|intros; apply Hf; lia].
    destruct k; [lia|]. simpl. lia.
Qed.

Lemma sum_seq_single (f : nat → nat) k i0 c d :
  i0 < k → (∀ i, i < k → f i = if decide (i = i0) then c else d) →
  sum_list_with f (seq 0 k) = (k - 1) * d + c.
Proof.
  intros Hi Hf. apply (sum_seq_single_from f 0 k i0); [lia|].
  intros i Hi'. apply Hf. lia.
Qed.

Lemma filter_concat_length {A} (P : A → Prop) `{∀ x, Decision (P x)} (ls : list (list A)) :
  length (filter P (concat ls)) = sum_list_with (λ l, length (filter P l)) ls.
Proof.
  induction ls as [|l ls IH]; [done|].
  simpl. by rewrite filter_app, length_app, IH.
Qed.

Lemma sum_list_with_fmap {A B} (f : B → nat) (g : A → B) (l : list A) :
  sum_list_with f (g <$> l) = sum_list_with (f ∘ g) l.
Proof.
  induction l as [|x l IH]; [done|].
  rewrite fmap_cons. cbn [sum_list_with]. by rewrite IH.
Qed.



Lemma concat_length_sum {A} (ls : list (list A)) :
  length (concat ls) = sum_list_with length ls.
Proof. induction ls as [|l ls IH]; [done|]. simpl. by rewrite length_app, IH. Qed.

Section Schedule.
Variables (p : list (option Z)) (h : nat).
Hypothesis Hlen : length p = 2 * h.
Hypothesis Hh : 1 ≤ h.
Hypothesis Hnd : NoDup p.

Lemma seat_lookup_inj i j x : p !! i = Some x → p !! j = Some x → i = j.
Proof. apply NoDup_lookup, Hnd. Qed.



Lemma circle_round_cells r :
  circle_round (Nat.iter r circle_rotate p) r
  = concat (circle_cell (Nat.iter r circle_rotate p) r <$> seq 0 h).
Proof.
  unfold circle_round. rewrite circle_iter_length, Hlen.
  by replace ((2 * h) `div` 2) with h by lia.
Qed.



(** [bye] is the index of the bye sentinel in [p]; an index outside the list
    means that there is none. *)
Variable bye : nat.
Hypothesis Hbye : ∀ j, j < 2 * h → p !! j = Some None ↔ j = bye.

Lemma seat_occupied j : j < 2 * h → j ≠ bye → ∃ x, p !! j = Some (Some x).
Proof.
  intros Hj Hne. destruct (lookup_lt_is_Some_2 p j ltac:(lia)) as [[x|] Hx]; [by eexists|].
  by apply Hbye in Hx.
Qed.

Lemma cell_length r i :
  r < 2 * h - 1 → i < h →
  length (circle_cell (Nat.iter r circle_rotate p) r i)
  = if decide (seat_of (2 * h) r i = bye ∨ seat_of (2 * h) r (2 * h - 1 - i) = bye)
    then 0 else 1.
Proof.
  intros Hr Hi. rewrite (circle_cell_seats p h) by done.
  pose proof (seat_of_bound (2 * h) r i ltac:(lia) Hr ltac:(lia)) as Hu.
  pose proof (seat_of_bound (2 * h) r (2 * h - 1 - i) ltac:(lia) Hr ltac:(lia)) as Hv.
  case_decide as Hd.
  - destruct Hd as [Hd|Hd]; apply Hbye in Hd as ->; try done.
    by destruct (p !! seat_of (2 * h) r i) as [[?|]|].
  - destruct (seat_occupied _ Hu) as [l ->]; [tauto|].
    destruct (seat_occupied _ Hv) as [x ->]; [tauto|].
    by destruct (Nat.even r && (i =? 0)).
Qed.

Lemma round_length_full r :
  r < 2 * h - 1 → 2 * h ≤ bye →
  length (circle_round (Nat.iter r circle_rotate p) r) = h.
Proof.
  intros Hr Hb. rewrite circle_round_cells, concat_length_sum, sum_list_with_fmap.
  rewrite (sum_seq_const _ 0 h 1); [lia|].
  intros i Hi. unfold compose. rewrite cell_length by lia.
  pose proof (seat_of_bound (2 * h) r i ltac:(lia) Hr ltac:(lia)).
  pose proof (seat_of_bound (2 * h) r (2 * h - 1 - i) ltac:(lia) Hr ltac:(lia)).
  rewrite decide_False; [done|lia].
Qed.

Lemma round_length_bye r :
  r < 2 * h - 1 → bye < 2 * h →
  length (circle_round (Nat.iter r circle_rotate p) r) = h - 1.
Proof.
  intros Hr Hb. rewrite circle_round_cells, concat_length_sum, sum_list_with_fmap.
  pose proof (seat_at_bound (2 * h) r bye ltac:(lia) Hr Hb) as Hs.
  pose proof (seat_of_at (2 * h) r bye ltac:(lia) Hr Hb) as Hsa.
  rewrite (sum_seq_single _ h
             (seat_at (2 * h) r bye `min` (2 * h - 1 - seat_at (2 * h) r bye)) 0 1);
    [lia|lia|].
  intros i Hi. unfold compose. rewrite cell_length by lia.
  pose proof (seat_at_of (2 * h) r i ltac:(lia) Hr ltac:(lia)) as Hi1.
  pose proof (seat_at_of (2 * h) r (2 * h - 1 - i) ltac:(lia) Hr ltac:(lia)) as Hi2.
  repeat case_decide; try done; exfalso.
  - destruct H as [H|H]; rewrite <- H in *; lia.
  - destruct (Nat.le_ge_cases (seat_at (2 * h) r bye) (2 * h - 1 - seat_at (2 * h) r bye)).
    + rewrite Nat.min_l in H0 by done. subst i. tauto.
    + rewrite Nat.min_r in H0 by done. subst i.
      replace (2 * h - 1 - (2 * h - 1 - seat_at (2 * h) r bye))
        with (seat_at (2 * h) r bye) in H by lia. tauto.
Qed.

Lemma cell_plays_count r i ia a :
  r < 2 * h - 1 → i < h → p !! ia = Some (Some a) →
  length (filter (plays a) (circle_cell (Nat.iter r circle_rotate p) r i))
  = if decide (i = seat_at (2 * h) r ia `min` (2 * h - 1 - seat_at (2 * h) r ia)) then
      if decide (seat_of (2 * h) r (2 * h - 1 - seat_at (2 * h) r ia) = bye) then 0 else 1
    else 0.
Proof.
  intros Hr Hi Ha.
  assert (ia < 2 * h) as Hia by (rewrite <- Hlen; by eapply lookup_lt_Some).
  rewrite (circle_cell_seats p h) by done.
  pose proof (seat_of_bound (2 * h) r i ltac:(lia) Hr ltac:(lia)) as Hu.
  pose proof (seat_of_bound (2 * h) r (2 * h - 1 - i) ltac:(lia) Hr ltac:(lia)) as Hv.
  pose proof (seat_at_of (2 * h) r i ltac:(lia) Hr ltac:(lia)) as Hi1.
  pose proof (seat_at_of (2 * h) r (2 * h - 1 - i) ltac:(lia) Hr ltac:(lia)) as Hi2.
  pose proof (seat_of_at (2 * h) r ia ltac:(lia) Hr Hia) as Ha1.
  pose proof (seat_at_bound (2 * h) r ia ltac:(lia) Hr Hia) as Ha2.
  remember (seat_of (2 * h) r i) as u eqn:Hu0.
  remember (seat_of (2 * h) r (2 * h - 1 - i)) as v eqn:Hv0.
  remember (seat_at (2 * h) r ia) as s eqn:Hs.
  destruct (lookup_lt_is_Some_2 p u ltac:(lia)) as [ou Hl].
  destruct (lookup_lt_is_Some_2 p v ltac:(lia)) as [ov Hx].
  assert (u = ia ↔ i = s) as Hui.
  { split; [intros Hc; by rewrite Hs, <- Hc, Hi1 | intros Hc; by rewrite Hu0, Hc]. }
  assert (v = ia ↔ 2 * h - 1 - i = s) as Hvi.
  { split; [intros Hc; by rewrite Hs, <- Hc, Hi2 | intros Hc; by rewrite Hv0, Hc]. }
  assert (i = s `min` (2 * h - 1 - s) ↔ u = ia ∨ v = ia) as Hmin.
  { rewrite Hui, Hvi. clear -Hi Ha2.
    destruct (Nat.le_ge_cases s (2 * h - 1 - s));
      [rewrite Nat.min_l by done|rewrite Nat.min_r by done]; lia. }
  assert (u = ia → seat_of (2 * h) r (2 * h - 1 - s) = v) as Hpu.
  { intros Hc. apply Hui in Hc. by rewrite <- Hc. }
  assert (v = ia → seat_of (2 * h) r (2 * h - 1 - s) = u) as Hpv.
  { intros Hc. apply Hvi in Hc. rewrite <- Hc, Hu0. f_equal. clear -Hi. lia. }
  assert (∀ j x, p !! j = Some (Some x) → x = a ↔ j = ia) as Hinj.
  { intros j y Hy. split; [intros ->; by eapply seat_lookup_inj | intros ->; congruence]. }
  assert (∀ j, p !! j = Some None → j ≠ ia) as Hnone by (intros j Hj ->; congruence).
  rewrite Hl, Hx. destruct ou as [l|], ov as [x|]; cbv iota beta.
  - assert (length (filter (plays a) (if Nat.even r && (i =? 0) then [(x, l)] else [(l, x)]))
            = if decide (u = ia ∨ v = ia) then 1 else 0) as ->.
    { pose proof (Hinj _ _ Hl). pose proof (Hinj _ _ Hx).
      destruct (Nat.even r && (i =? 0)); rewrite filter_cons, filter_nil; unfold plays; simpl;
        repeat case_decide; simpl; try done; tauto. }
    assert (u ≠ bye) by (intros Hc; apply Hbye in Hc; [congruence|done]).
    assert (v ≠ bye) by (intros Hc; apply Hbye in Hc; [congruence|done]).
    repeat case_decide; try done; try tauto; exfalso.
    assert (u = ia ∨ v = ia) as [Hc|Hc] by tauto; [apply Hpu in Hc|apply Hpv in Hc]; congruence.
  - pose proof (Hnone _ Hx). apply Hbye in Hx; [|done].
    repeat case_decide; try done; exfalso.
    assert (u = ia) as Hc by tauto. apply Hpu in Hc. congruence.
  - pose proof (Hnone _ Hl). apply Hbye in Hl; [|done].
    repeat case_decide; try done; exfalso.
    assert (v = ia) as Hc by tauto. apply Hpv in Hc. congruence.
  - pose proof (Hnone _ Hl). pose proof (Hnone _ Hx).
    repeat case_decide; try done; tauto.
Qed.

Lemma round_plays_count r ia a :
  r < 2 * h - 1 → p !! ia = Some (Some a) →
  length (filter (plays a) (circle_round (Nat.iter r circle_rotate p) r))
  = if decide (seat_of (2 * h) r (2 * h - 1 - seat_at (2 * h) r ia) = bye) then 0 else 1.
Proof.
  intros Hr Ha.
  assert (ia < 2 * h) as Hia by (rewrite <- Hlen; by eapply lookup_lt_Some).
  pose proof (seat_at_bound (2 * h) r ia ltac:(lia) Hr Hia) as Ha2.
  rewrite circle_round_cells, filter_concat_length, sum_list_with_fmap.
  rewrite (sum_seq_single _ h
             (seat_at (2 * h) r ia `min` (2 * h - 1 - seat_at (2 * h) r ia))
             (if decide (seat_of (2 * h) r (2 * h - 1 - seat_at (2 * h) r ia) = bye)
              then 0 else 1) 0); [lia|lia|].
  intros i Hi. unfold compose. by rewrite (cell_plays_count _ _ ia).
Qed.


End Schedule.

Lemma pad_length (player_ids : list Z) :
  length (pad player_ids) = 2 * ((length player_ids + 1) / 2).
Proof.
  unfold pad. destruct (Nat.odd (length player_ids)) eqn:Ho.
  - rewrite length_app, length_fmap. cbn [length].
    apply Nat.odd_spec in Ho as [q Hq]. lia.
  - rewrite length_fmap.
    assert (Nat.even (length player_ids) = true) as He by (by rewrite <- Nat.negb_odd, Ho).
    apply Nat.even_spec in He as [q Hq]. lia.
Qed.

Lemma pad_NoDup (player_ids : list Z) : NoDup player_ids → NoDup (pad player_ids).
Proof.
  intros Hnd. unfold pad.
  assert (NoDup (Some <$> player_ids)) as Hs by (by apply (NoDup_fmap_2 Some)).
  destruct (Nat.odd (length player_ids)); [|done].
  apply NoDup_app. split_and!; [done| |apply NoDup_singleton].
  intros x Hx Hn. apply list_elem_of_singleton in Hn as ->.
  apply list_elem_of_fmap in Hx as (y & ? & _). done.
Qed.

Lemma pad_lookup_player (player_ids : list Z) a :
  a ∈ player_ids → ∃ ia, pad player_ids !! ia = Some (Some a).
Proof.
  intros Ha. apply list_elem_of_lookup in Ha as [ia Hia]. exists ia.
  unfold pad. destruct (Nat.odd (length player_ids)).
  - apply lookup_app_l_Some. by rewrite list_lookup_fmap, Hia.
  - by rewrite list_lookup_fmap, Hia.
Qed.

Lemma pad_lookup_bye (player_ids : list Z) j :
  j < length (pad player_ids) →
  pad player_ids !! j = Some None ↔ j = length player_ids.
Proof.
  unfold pad. destruct (Nat.odd (length player_ids)).
  - rewrite length_app, length_fmap. simpl. intros Hj.
    destruct (decide (j = length player_ids)) as [->|Hne].
    + by rewrite lookup_app_r, length_fmap, Nat.sub_diag by (by rewrite length_fmap).
    + rewrite lookup_app_l by (rewrite length_fmap; lia).
      rewrite list_lookup_fmap. split; [|done].
      by destruct (player_ids !! j).
  - rewrite length_fmap. intros Hj. rewrite list_lookup_fmap.
    split; [|lia]. by destruct (player_ids !! j).
Qed.





Ltac Zify.zify_post_hook ::= idtac.
Local Open Scope Z_scope.

(** ** Sorting *)

Lemma insert_by_perm {A} (le : A → A → bool) x l : insert_by le x l ≡ₚ x :: l.
Proof.
  induction l as [|y l IH]; [done|]. simpl. destruct (le x y); [done|].
  rewrite IH. apply perm_swap.
Qed.

Lemma sort_by_perm {A} (le : A → A → bool) l : sort_by le l ≡ₚ l.
Proof.
  induction l as [|x l IH]; [done|]. simpl. by rewrite insert_by_perm, IH.
Qed.

Lemma sort_by_elem_of {A} (le : A → A → bool) l x : x ∈ sort_by le l ↔ x ∈ l.
Proof. by rewrite sort_by_perm. Qed.

Lemma sort_by_length {A} (le : A → A → bool) l : length (sort_by le l) = length l.
Proof. by rewrite sort_by_perm. Qed.

Section SortOrder.
Context {A : Type} (le : A → A → bool).
Hypothesis le_total : ∀ x y, le x y = true ∨ le y x = true.
Hypothesis le_trans : ∀ x y z, le x y = true → le y z = true → le x z = true.

Lemma insert_by_sorted x l :
  StronglySorted (λ a b, le a b = true) l →
  StronglySorted (λ a b, le a b = true) (insert_by le x l).
Proof.
  induction 1 as [|y l Hs IH Hy]; simpl; [repeat constructor|].
  destruct (le x y) eqn:Hxy.
  - constructor; [by constructor|]. constructor; [done|].
    eapply Forall_impl; [exact Hy|]. intros z Hz. by eapply le_trans.
  - constructor; [done|]. rewrite insert_by_perm. constructor; [|done].
    by destruct (le_total x y) as [?|?]; [congruence|].
Qed.

Lemma sort_by_sorted l : StronglySorted (λ a b, le a b = true) (sort_by le l).
Proof. induction l as [|x l IH]; [constructor|]. simpl. by apply insert_by_sorted. Qed.

Lemma sort_by_head_le l x rest y :
  sort_by le l = x :: rest → y ∈ l → le x y = true.
Proof.
  intros Hs Hy. pose proof (sort_by_sorted l) as Hsorted. rewrite Hs in Hsorted.
  apply (sort_by_elem_of le) in Hy. rewrite Hs in Hy.
  apply StronglySorted_inv in Hsorted as [_ Hall].
  apply elem_of_cons in Hy as [->|Hy].
  - by destruct (le_total x x).
  - by eapply Forall_forall in Hall.
Qed.

End SortOrder.

(** ** Decimal text of integers *)

Lemma uint_text_colon_free d s1 s2 :
  NilEmpty.string_of_uint d ≠ s1 +:+ String ":"%char s2.
Proof.
  revert s1. induction d; intros [|c s1]; simpl; try discriminate;
    intros [= Hc Hs]; subst; by eapply IHd.
Qed.

Lemma uint_zero_text_colon_free d : colon_free (NilZero.string_of_uint d).
Proof.
  intros s1 s2. destruct d; try apply uint_text_colon_free.
  destruct s1 as [|c [|c' s1]]; simpl; discriminate.
Qed.

Lemma sql_text_colon_free z : colon_free (sql_text z).
Proof.
  intros s1 s2. unfold sql_text, NilZero.string_of_int.
  destruct (Z.to_int z) as [d|d]; [apply uint_zero_text_colon_free|].
  destruct s1 as [|c s1]; simpl; [discriminate|].
  intros [= Hc Hs]. by eapply uint_zero_text_colon_free.
Qed.

Lemma sql_text_inj z1 z2 : sql_text z1 = sql_text z2 → z1 = z2.
Proof.
  unfold sql_text. intros Heq. apply DecimalZ.to_int_inj.
  assert (∀ z, Z.to_int z ≠ Decimal.Pos Decimal.Nil ∧ Z.to_int z ≠ Decimal.Neg Decimal.Nil) as Hnn.
  { intros [|q|q]; simpl; split; try discriminate; intros [= Hc];
      by apply Unsigned.to_uint_nonnil in Hc. }
  destruct (Hnn z1), (Hnn z2).
  assert (Some (Z.to_int z1) = Some (Z.to_int z2)) as [= ->]; [|done].
  rewrite <- (NilZero.isi (Z.to_int z1)), <- (NilZero.isi (Z.to_int z2)) by done.
  by rewrite Heq.
Qed.

Lemma append_cons c s t : String c s +:+ t = String c (s +:+ t).
Proof. reflexivity. Qed.

Lemma append_empty t : EmptyString +:+ t = t.
Proof. reflexivity. Qed.

Lemma colon_split_inj s1 s2 t1 t2 :
  colon_free s1 → colon_free t1 →
  s1 +:+ ":" +:+ s2 = t1 +:+ ":" +:+ t2 → s1 = t1 ∧ s2 = t2.
Proof.
  revert t1. induction s1 as [|c s1 IH]; intros [|d t1] Hs Ht;
    rewrite ?append_cons, ?append_empty.
  - by intros [= ->].
  - intros [= <- Hrest]. exfalso. by apply (Ht EmptyString t1).
  - intros [= -> Hrest]. exfalso. by apply (Hs EmptyString s1).
  - intros [= -> Hrest]. apply IH in Hrest as [-> ->]; [done| |].
    + intros u1 u2 Hc. apply (Hs (String d u1) u2). rewrite append_cons. by rewrite Hc.
    + intros u1 u2 Hc. apply (Ht (String d u1) u2). rewrite append_cons. by rewrite Hc.
Qed.

Lemma score_key_inj c1 c2 :
  score_key c1 = score_key c2 ↔
  (conf_score1 c1, conf_score2 c1) = (conf_score1 c2, conf_score2 c2).
Proof.
  unfold score_key. split.
  - intros Hk. apply colon_split_inj in Hk as [H1 H2]; try apply sql_text_colon_free.
    apply sql_text_inj in H1, H2. congruence.
  - by intros [= -> ->].
Qed.

(** ** Match status *)

Lemma remove_dups_two {A} `{EqDecision A} (l : list A) :
  (1 < length (remove_dups l))%nat ↔ ∃ x y, x ∈ l ∧ y ∈ l ∧ x ≠ y.
Proof.
  pose proof (NoDup_remove_dups l) as Hnd. split.
  - destruct (remove_dups l) as [|x [|y d]] eqn:Hd; simpl; try lia. intros _.
    exists x, y. rewrite <- !(elem_of_remove_dups l), Hd. split_and!; [set_solver..|].
    apply NoDup_cons in Hnd as [Hx _]. set_solver.
  - intros (x & y & Hx & Hy & Hne). apply elem_of_remove_dups in Hx, Hy.
    destruct (remove_dups l) as [|z [|z' d]]; simpl; [set_solver| |lia].
    apply list_elem_of_singleton in Hx, Hy. congruence.
Qed.

Lemma distinct_confirmations_gt1 db mid :
  (count_distinct_confirmations db mid >? 1) = true ↔ scores_differ db mid.
Proof.
  unfold count_distinct_confirmations, scores_differ.
  rewrite Z.gtb_lt. change 1 with (Z.of_nat 1). rewrite <- Nat2Z.inj_lt, remove_dups_two.
  split.
  - intros (x & y & Hx & Hy & Hne).
    apply list_elem_of_fmap in Hx as (c1 & -> & Hc1), Hy as (c2 & -> & Hc2).
    exists c1, c2. split_and!; [done..|]. by rewrite <- score_key_inj.
  - intros (c1 & c2 & Hc1 & Hc2 & Hne). exists (score_key c1), (score_key c2).
    split_and!; [by apply list_elem_of_fmap_2..|]. by rewrite score_key_inj.
Qed.

Lemma is_confirmed_both m : is_confirmed m = true ↔ both_confirmed m.
Proof.
  unfold is_confirmed, both_confirmed.
  rewrite andb_true_iff, !bool_decide_eq_true. done.
Qed.

Lemma match_view_row_fields db uid m row :
  row ∈ match_view_rows db uid m →
  row_id row = match_id m ∧
  row_confirmed_score1 row = match_confirmed_score1 m ∧
  row_confirmed_score2 row = match_confirmed_score2 m ∧
  row_confirmations row = count_confirmations db (match_id m) ∧
  row_distinct_confirmations row = count_distinct_confirmations db (match_id m).
Proof.
  unfold match_view_rows. intros Hrow.
  apply list_elem_of_bind in Hrow as (u1 & Hrow & _).
  apply list_elem_of_bind in Hrow as (u2 & Hrow & _).
  apply list_elem_of_bind in Hrow as (my & Hrow & _).
  apply list_elem_of_singleton in Hrow as ->. done.
Qed.

Lemma build_match_dto_status db uid m row :
  row ∈ match_view_rows db uid m →
  let dto := _build_match_dto row in
  dto_id dto = match_id m ∧
  dto_confirmed_score1 dto = match_confirmed_score1 m ∧
  dto_confirmed_score2 dto = match_confirmed_score2 m ∧
  (dto_status dto = confirmed ↔ both_confirmed m) ∧
  (dto_status dto = disputed ↔ ¬ both_confirmed m ∧ scores_differ db (match_id m)) ∧
  (dto_status dto = pending ↔ ¬ both_confirmed m ∧ ¬ scores_differ db (match_id m)).
Proof.
  intros Hrow dto. apply match_view_row_fields in Hrow as (Hid & H1 & H2 & _ & Hd).
  subst dto. unfold _build_match_dto. simpl. rewrite H1, H2, Hd.
  pose proof (is_confirmed_both m) as Hboth. unfold is_confirmed in Hboth.
  pose proof (distinct_confirmations_gt1 db (match_id m)) as Hdiff.
  split_and!; [done..| | |];
    destruct (bool_decide (match_confirmed_score1 m ≠ None) &&
              bool_decide (match_confirmed_score2 m ≠ None)) eqn:Hc;
    destruct (count_distinct_confirmations db (match_id m) >? 1) eqn:Hg;
    intuition congruence.
Qed.

(** C2. Every match view is built from a stored match; its status is confirmed iff
    both confirmed scores are set, disputed iff they are not and two confirmation rows
    of the match carry different score pairs, and pending otherwise. *)
Theorem match_status_derived db user_id_param :
  (∀ dto, dto ∈ _fetch_matches db user_id_param →
     ∃ m, m ∈ matches db ∧ dto_id dto = match_id m ∧
       dto_confirmed_score1 dto = match_confirmed_score1 m ∧
       dto_confirmed_score2 dto = match_confirmed_score2 m ∧
       (dto_status dto = confirmed ↔ both_confirmed m) ∧
       (dto_status dto = disputed ↔ ¬ both_confirmed m ∧ scores_differ db (match_id m)) ∧
       (dto_status dto = pending ↔ ¬ both_confirmed m ∧ ¬ scores_differ db (match_id m))) ∧
  (∀ m, m ∈ matches db →
     (∃ u, u ∈ users db ∧ user_id u = match_player1_id m) →
     (∃ u, u ∈ users db ∧ user_id u = match_player2_id m) →
     ∃ dto, dto ∈ _fetch_matches db user_id_param ∧ dto_id dto = match_id m).
Proof.
  unfold _fetch_matches. split.
  - intros dto Hdto. apply list_elem_of_fmap in Hdto as (row & -> & Hrow).
    apply list_elem_of_bind in Hrow as (m & Hrow & Hm). apply sort_by_elem_of in Hm.
    exists m. split; [done|]. by apply (build_match_dto_status db user_id_param).
  - intros m Hm (u1 & Hu1 & Hid1) (u2 & Hu2 & Hid2).
    assert (∃ row, row ∈ match_view_rows db user_id_param m) as [row Hrow].
    { unfold match_view_rows.
      set (mine := filter _ (score_confirmations db)).
      assert (∃ my, my ∈ left_join mine) as [my Hmy].
      { destruct mine as [|c mine']; [exists None|exists (Some c)]; simpl; left. }
      eexists. apply list_elem_of_bind. exists u1. split; [|by apply list_elem_of_filter].
      apply list_elem_of_bind. exists u2. split; [|by apply list_elem_of_filter].
      apply list_elem_of_bind. exists my. split; [|done]. left. }
    exists (_build_match_dto row). split.
    + apply list_elem_of_fmap_2, list_elem_of_bind. exists m. split; [done|].
      by apply sort_by_elem_of.
    + apply match_view_row_fields in Hrow as (Hid & _). exact Hid.
Qed.

(** ** Consensus *)

Lemma confirmation_order_total c1 c2 :
  confirmation_order_le c1 c2 = true ∨ confirmation_order_le c2 c1 = true.
Proof. unfold confirmation_order_le. lia. Qed.

Lemma confirmation_order_trans c1 c2 c3 :
  confirmation_order_le c1 c2 = true → confirmation_order_le c2 c3 = true →
  confirmation_order_le c1 c3 = true.
Proof. unfold confirmation_order_le. lia. Qed.

Lemma consensus_forallb first rest :
  forallb (λ row, (conf_score1 row =? conf_score1 first) &&
                  (conf_score2 row =? conf_score2 first)) rest = true
  ↔ ∀ c, c ∈ rest → agree_with first c.
Proof.
  rewrite forallb_forall. unfold agree_with. split; intros H c Hc.
  - apply list_elem_of_In, H in Hc. lia.
  - apply list_elem_of_In, H in Hc. lia.
Qed.

Lemma scores_differ_two db mid :
  scores_differ db mid → (2 ≤ length (confirmations_of db mid))%nat.
Proof.
  intros (c1 & c2 & H1 & H2 & Hne).
  destruct (confirmations_of db mid) as [|x [|y l]]; simpl; [|exfalso|lia].
  - by apply elem_of_nil in H1.
  - apply list_elem_of_singleton in H1, H2. congruence.
Qed.

(** C1. The consensus check reads the match and its confirmation rows: on a match
    whose two confirmed scores are set, and on fewer than two rows, it changes nothing
    (with fewer than two rows no two reports differ, so an unconfirmed match is
    pending); otherwise it takes the row ranked first by player id and, exactly when
    every row carries that row's score pair, writes the pair and the confirmation time
    into the match; in every other case the store is unchanged. *)
Theorem consensus_check db now mid :
  let db' := _confirm_scores_if_consensus db now mid in
  let rows := confirmations_of db mid in
  users db' = users db ∧ sessions db' = sessions db ∧
  score_confirmations db' = score_confirmations db ∧
  (∀ db2, matches db2 = matches db → confirmations_of db2 mid = rows →
          matches (_confirm_scores_if_consensus db2 now mid) = matches db') ∧
  match find_match db mid with
  | None => db' = db
  | Some m =>
      (both_confirmed m → db' = db) ∧
      ((length rows < 2)%nat → db' = db ∧ ¬ scores_differ db mid) ∧
      (¬ both_confirmed m → (2 ≤ length rows)%nat →
         ∃ first, first ∈ rows ∧
           head (sort_by confirmation_order_le rows) = Some first ∧
           (∀ c, c ∈ rows → conf_player_id first ≤ conf_player_id c) ∧
           ((∀ c, c ∈ rows → agree_with first c) →
              db' = with_matches db (confirm_update mid first now <$> matches db) ∧
              ∀ m', m' ∈ matches db' → match_id m' = mid →
                    match_confirmed_score1 m' = Some (conf_score1 first) ∧
                    match_confirmed_score2 m' = Some (conf_score2 first) ∧
                    match_confirmed_at m' = Some now) ∧
           (¬ (∀ c, c ∈ rows → agree_with first c) → db' = db))
  end.
Proof.
  intros db' rows.
  assert (users db' = users db ∧ sessions db' = sessions db ∧
          score_confirmations db' = score_confirmations db) as (Husers & Hsess & Hconfs).
  { subst db'. unfold _confirm_scores_if_consensus.
    repeat case_match; done. }
  split_and!; [done..| |].
  { intros db2 Hm Hr. subst db' rows. unfold _confirm_scores_if_consensus, find_match.
    rewrite Hm, Hr. repeat case_match; simpl; congruence. }
  subst db'. unfold _confirm_scores_if_consensus.
  destruct (find_match db mid) as [m|]; [|done].
  pose proof (is_confirmed_both m) as Hboth.
  assert ((length rows < 2)%nat → ¬ scores_differ db mid) as Hpending.
  { intros Hlt Hd. apply scores_differ_two in Hd. fold rows in Hd. lia. }
  fold rows. rewrite sort_by_length.
  destruct (is_confirmed m).
  { split_and!; [done|by split; [|apply Hpending]|]. intros []. by apply Hboth. }
  split; [intros ?; assert (false = true) by tauto; done|].
  destruct (Z.ltb_spec (Z.of_nat (length rows)) 2) as [Hlt|Hge].
  { split; [by split; [|apply Hpending]|]. lia. }
  split; [lia|]. intros _ _.
  destruct (sort_by confirmation_order_le rows) as [|first rest] eqn:Hsort.
  { apply (f_equal length) in Hsort. rewrite sort_by_length in Hsort. simpl in Hsort. lia. }
  assert (first :: rest ≡ₚ rows) as Hperm by (rewrite <- Hsort; apply sort_by_perm).
  exists first. split_and!.
  - rewrite <- Hperm. left.
  - done.
  - intros c Hc.
    pose proof (sort_by_head_le confirmation_order_le confirmation_order_total
                  confirmation_order_trans rows first rest c Hsort Hc) as Hle.
    unfold confirmation_order_le in Hle. lia.
  - intros Hall.
    assert (forallb (λ row, (conf_score1 row =? conf_score1 first) &&
                            (conf_score2 row =? conf_score2 first)) rest = true) as ->.
    { apply consensus_forallb. intros c Hc. apply Hall. rewrite <- Hperm. by right. }
    simpl. split; [done|]. intros m' Hm' Hid.
    apply list_elem_of_fmap in Hm' as (m0 & -> & Hm0). unfold confirm_update in *.
    case_bool_decide; simpl; [done|]. done.
  - intros Hnot.
    destruct (forallb _ rest) eqn:Hf; [|done]. exfalso. apply Hnot.
    intros c Hc. rewrite <- Hperm in Hc. apply elem_of_cons in Hc as [->|Hc].
    + done.
    + by eapply consensus_forallb in Hf.
Qed.

(** ** Orders used by the queries and by [sorted] *)

Lemma string_leb_trans s1 s2 s3 :
  String.leb s1 s2 = true → String.leb s2 s3 = true → String.leb s1 s3 = true.
Proof.
  unfold String.leb. revert s2 s3.
  induction s1 as [|c1 s1 IH]; intros [|c2 s2] [|c3 s3]; simpl; try done.
  unfold Ascii.compare.
  destruct (N.compare_spec (N_of_ascii c1) (N_of_ascii c2)) as [H12|H12|H12];
    destruct (N.compare_spec (N_of_ascii c2) (N_of_ascii c3)) as [H23|H23|H23];
    destruct (N.compare_spec (N_of_ascii c1) (N_of_ascii c3)) as [H13|H13|H13];
    try done; try lia.
  apply IH.
Qed.

Section PairOrder.
Context {B : Type} (leB : B → B → bool).
Hypothesis leB_total : ∀ x y, leB x y = true ∨ leB y x = true.
Hypothesis leB_trans : ∀ x y z, leB x y = true → leB y z = true → leB x z = true.

Lemma pair_le_total (x y : Z * B) :
  pair_le Z.ltb leB x y = true ∨ pair_le Z.ltb leB y x = true.
Proof.
  unfold pair_le. destruct (Z.ltb_spec x.1 y.1), (Z.ltb_spec y.1 x.1); auto; lia.
Qed.

Lemma pair_le_trans (x y z : Z * B) :
  pair_le Z.ltb leB x y = true → pair_le Z.ltb leB y z = true →
  pair_le Z.ltb leB x z = true.
Proof.
  unfold pair_le.
  destruct (Z.ltb_spec x.1 y.1), (Z.ltb_spec y.1 x.1), (Z.ltb_spec y.1 z.1),
    (Z.ltb_spec z.1 y.1), (Z.ltb_spec x.1 z.1), (Z.ltb_spec z.1 x.1);
    try done; try lia; eauto.
Qed.

End PairOrder.

Lemma Z_leb_total x y : (x <=? y) = true ∨ (y <=? x) = true.
Proof. lia. Qed.

Lemma Z_leb_trans x y z : (x <=? y) = true → (y <=? z) = true → (x <=? z) = true.
Proof. lia. Qed.

Lemma rank_key_le_total k1 k2 : rank_key_le k1 k2 = true ∨ rank_key_le k2 k1 = true.
Proof.
  apply pair_le_total, pair_le_total, pair_le_total, String.leb_total.
Qed.

Lemma rank_key_le_trans k1 k2 k3 :
  rank_key_le k1 k2 = true → rank_key_le k2 k3 = true → rank_key_le k1 k3 = true.
Proof.
  apply pair_le_trans, pair_le_trans, pair_le_trans, string_leb_trans.
Qed.

(** ** The standings fold *)

Lemma sumZ_perm {A} (f : A → Z) l1 l2 : l1 ≡ₚ l2 → sumZ f l1 = sumZ f l2.
Proof. induction 1; simpl; lia. Qed.

Lemma sumZ_zero {A} (f : A → Z) l : (∀ x, x ∈ l → f x = 0) → sumZ f l = 0.
Proof.
  induction l as [|x l IH]; intros Hf; [done|]. simpl.
  rewrite (Hf x), IH; [done| |left]. intros y Hy. apply Hf. by right.
Qed.

Lemma dict_alter_fmap f pid (d : dict) :
  dict_alter f pid d = (λ e, (e.1, bump e.1 pid f e.2)) <$> d.
Proof.
  unfold dict_alter, bump. apply list_fmap_ext. intros _ [k row] _. simpl.
  by case_bool_decide.
Qed.

Lemma dict_get_is_Some k (d : dict) : k ∈ d.*1 → is_Some (dict_get k d).
Proof.
  intros Hk. apply list_elem_of_fmap in Hk as ([k' row] & -> & He). unfold dict_get.
  destruct (filter (λ e, e.1 = (k', row).1) d) as [|e l] eqn:Hf.
  - assert ((k', row) ∈ filter (λ e : Z * StatRow, e.1 = (k', row).1) d) as Hin
      by (by apply list_elem_of_filter).
    rewrite Hf in Hin. by apply elem_of_nil in Hin.
  - by eexists.
Qed.

Lemma dict_set_fresh k v (d : dict) : k ∉ d.*1 → dict_set k v d = d ++ [(k, v)].
Proof. intros Hk. unfold dict_set. by rewrite bool_decide_eq_false_2. Qed.

Lemma dict_build (players : list UserRow) (d : dict) :
  NoDup (d.*1 ++ (user_id <$> players)) →
  foldl (λ d u, dict_set (user_id u) (init_row u) d) d players
  = d ++ ((λ u, (user_id u, init_row u)) <$> players).
Proof.
  revert d. induction players as [|u players IH]; intros d Hnd; simpl.
  { by rewrite app_nil_r. }
  rewrite dict_set_fresh.
  - rewrite IH; [by rewrite <- app_assoc|].
    rewrite fmap_app, <- app_assoc. done.
  - apply NoDup_app in Hnd as (_ & Hd & _). intros Hk. apply (Hd _ Hk). left.
Qed.

Lemma standings_step_rows up (stats : dict) m :
  both_confirmed m →
  match_player1_id m ∈ stats.*1 → match_player2_id m ∈ stats.*1 →
  standings_step up stats m = Some ((λ e, (e.1, fold_row up e.1 e.2 m)) <$> stats).
Proof.
  intros [Hs1 Hs2] Hp1 Hp2. unfold standings_step, fold_row.
  destruct (match_confirmed_score1 m) as [score1|]; [|done].
  destruct (match_confirmed_score2 m) as [score2|]; [|done]. simpl.
  destruct (dict_get_is_Some _ _ Hp1) as [? ->].
  destruct (dict_get_is_Some _ _ Hp2) as [? ->]. simpl.
  destruct (_match_points score1 score2) as [p1_points p2_points] eqn:Hpts.
  f_equal. unfold step_row. rewrite Hpts. simpl.
  rewrite !dict_alter_fmap.
  destruct (bool_decide (up = Some (match_round_number m)));
    destruct (score1 >? score2); try destruct (score2 >? score1);
    rewrite <- !list_fmap_compose; apply list_fmap_ext; by intros _ [??] _.
Qed.

Lemma fold_rows_keys up (stats : dict) m :
  ((λ e, (e.1, fold_row up e.1 e.2 m)) <$> stats).*1 = stats.*1.
Proof. rewrite <- list_fmap_compose. by apply list_fmap_ext. Qed.

Lemma standings_fold_rows up (stats : dict) ms :
  (∀ m, m ∈ ms → both_confirmed m ∧
                 match_player1_id m ∈ stats.*1 ∧ match_player2_id m ∈ stats.*1) →
  for_each (standings_step up) stats ms
  = Some ((λ e, (e.1, foldl (fold_row up e.1) e.2 ms)) <$> stats).
Proof.
  revert stats. induction ms as [|m ms IH]; intros stats Hms; simpl.
  { f_equal. rewrite <- (list_fmap_id stats) at 1. apply list_fmap_ext. by intros _ [??] _. }
  destruct (Hms m) as (Hc & Hp1 & Hp2); [left|].
  rewrite standings_step_rows by done. simpl.
  rewrite IH.
  - f_equal. rewrite <- list_fmap_compose. by apply list_fmap_ext.
  - intros m' Hm'. rewrite fold_rows_keys. apply Hms. by right.
Qed.

Lemma match_points_for score1 score2 :
  _match_points score1 score2 = (points_for score1 score2, points_for score2 score1).
Proof.
  unfold _match_points, points_for.
  destruct (Z.gtb_spec score1 score2), (Z.gtb_spec score2 score1); done || lia.
Qed.

Lemma bump_true k pid f row : k = pid → bump k pid f row = f row.
Proof. intros. unfold bump. by rewrite bool_decide_eq_true_2. Qed.

Lemma bump_false k pid f row : k ≠ pid → bump k pid f row = row.
Proof. intros. unfold bump. by rewrite bool_decide_eq_false_2. Qed.

Lemma fold_row_fields up k row m :
  both_confirmed m →
  let row' := fold_row up k row m in
  same_player row row' ∧
  st_played row' = st_played row + played_in k m ∧
  st_wins row' = st_wins row + wins_in k m ∧
  st_draws row' = st_draws row + draws_in k m ∧
  st_losses row' = st_losses row + losses_in k m ∧
  st_goals_for row' = st_goals_for row + goals_for_in k m ∧
  st_goals_against row' = st_goals_against row + goals_against_in k m ∧
  st_points row' = st_points row + points_in k m ∧
  st_round_points row'
  = st_round_points row
    + (if bool_decide (up = Some (match_round_number m)) then points_in k m else 0).
Proof.
  intros [Hs1 Hs2]. unfold fold_row, played_in, wins_in, draws_in, losses_in, goals_for_in,
    goals_against_in, points_in, on_side1, on_side2, score_side1, score_side2.
  destruct (match_confirmed_score1 m) as [score1|]; [|done].
  destruct (match_confirmed_score2 m) as [score2|]; [|done].
  unfold step_row. rewrite match_points_for. unfold points_for. stat_fields.
  set (p1 := match_player1_id m). set (p2 := match_player2_id m).
  assert ((score1 >? score2) = true ∧ (score2 >? score1) = false ∧ (score1 =? score2) = false ∨
          (score1 >? score2) = false ∧ (score2 >? score1) = true ∧ (score1 =? score2) = false ∨
          (score1 >? score2) = false ∧ (score2 >? score1) = false ∧ (score1 =? score2) = true)
    as Hcmp by lia.
  destruct (decide (k = p1)) as [Hk1|Hk1]; destruct (decide (k = p2)) as [Hk2|Hk2];
    rewrite ?(bump_true k p1), ?(bump_false k p1), ?(bump_true k p2), ?(bump_false k p2)
      by done;
    rewrite ?(bool_decide_eq_true_2 (p1 = k)), ?(bool_decide_eq_false_2 (p1 = k)),
      ?(bool_decide_eq_true_2 (p2 = k)), ?(bool_decide_eq_false_2 (p2 = k)) by done;
    destruct Hcmp as [(-> & -> & ->)|[(-> & -> & ->)|(-> & -> & ->)]];
    destruct (bool_decide (up = Some (match_round_number m)));
    rewrite ?(bump_true k p1), ?(bump_false k p1), ?(bump_true k p2), ?(bump_false k p2)
      by done;
    stat_fields; (split; [by constructor|]); lia.
Qed.

Lemma foldl_fold_row_tallied up k ms row :
  (∀ m, m ∈ ms → both_confirmed m) →
  tallied up k ms row (foldl (fold_row up k) row ms).
Proof.
  revert row. induction ms as [|m ms IH]; intros row Hms.
  { simpl. split; simpl; try lia. by split. }
  simpl. specialize (IH (fold_row up k row m) (λ m' Hm', Hms m' (list_elem_of_further _ _ _ Hm'))).
  destruct (fold_row_fields up k row m (Hms m (list_elem_of_here _ _)))
    as ([Hi Hh Hn] & ? & ? & ? & ? & ? & ? & ? & ?).
  destruct IH as [[Hi' Hh' Hn'] ? ? ? ? ? ? ? ?].
  split; simpl; try lia. split; congruence.
Qed.

Lemma standings_where_folded up db :
  filter (λ m, standings_where up m) (matches db) = folded up db.
Proof.
  unfold folded. apply list_filter_iff. intros m. unfold standings_where, both_confirmed.
  rewrite !andb_True, !bool_decide_spec. destruct up; simpl; [|tauto].
  rewrite Is_true_true, Z.leb_le. tauto.
Qed.

Lemma StronglySorted_imap {A B} (R : A → A → Prop) (R' : B → B → Prop)
    (f : nat → A → B) (l : list A) :
  (∀ i j a b, R a b → R' (f i a) (f j b)) →
  StronglySorted R l → StronglySorted R' (imap f l).
Proof.
  intros Hf Hs. revert f Hf. induction Hs as [|x l Hs IH Hx]; intros f Hf; [constructor|].
  rewrite imap_cons. constructor.
  - apply IH. intros i j a b. apply Hf.
  - apply Forall_forall. intros y Hy.
    apply elem_of_lookup_imap in Hy as (i & a & -> & Ha).
    apply Hf. eapply Forall_forall in Hx; [done|]. by eapply list_elem_of_lookup_2.
Qed.

Section StandingsFacts.
Variable str_lower : string → string.

Lemma rank_key_le_ranks_before i j a b :
  rank_key_le (rank_key str_lower a) (rank_key str_lower b) = true →
  ranks_before str_lower (to_standing_row i a) (to_standing_row j b).
Proof.
  unfold rank_key_le, rank_key, ranks_before, pair_le. simpl.
  repeat match goal with
         | |- context [Z.ltb ?x ?y] => destruct (Z.ltb_spec x y)
         end; intros Hle;
    first [ done | lia
          | right; split; [lia|]; right; split; [lia|]; right; split; [lia|done] ].
Qed.

Lemma standings_rows db up :
  NoDup (user_id <$> users db) →
  participants_on_roster up db →
  ∃ rows, _standings str_lower db up = Some rows ∧
    sr_player_id <$> rows ≡ₚ user_id <$> roster db ∧
    (∀ row, row ∈ rows → ∃ u, u ∈ roster db ∧ row_tallied up db u row) ∧
    StronglySorted (ranks_before str_lower) rows ∧
    (∀ i row, rows !! i = Some row → sr_position row = Z.of_nat i + 1).
Proof.
  intros Hnd Hpart. unfold _standings.
  set (players := sort_by _ (filter _ (users db))).
  assert (players ≡ₚ roster db) as Hplayers by apply sort_by_perm.
  assert (NoDup (user_id <$> players)) as Hndp.
  { rewrite Hplayers. unfold roster.
    eapply sublist_NoDup; [exact Hnd|]. apply fmap_sublist, sublist_filter. }
  rewrite standings_where_folded.
  set (selected := sort_by standings_order_le (folded up db)).
  assert (selected ≡ₚ folded up db) as Hsel by apply sort_by_perm.
  rewrite (dict_build players []) by (by rewrite app_nil_l).
  rewrite app_nil_l.
  set (stats0 := (λ u, (user_id u, init_row u)) <$> players).
  assert (stats0.*1 = user_id <$> players) as Hkeys.
  { unfold stats0. rewrite <- list_fmap_compose. by apply list_fmap_ext. }
  rewrite standings_fold_rows.
  2:{ intros m Hm. rewrite Hsel in Hm. rewrite Hkeys, Hplayers.
      unfold participants_on_roster in Hpart. rewrite Forall_forall in Hpart.
      split; [|by apply Hpart].
      unfold folded in Hm. apply list_elem_of_filter in Hm. tauto. }
  simpl.
  set (stats := (λ e : Z * StatRow, (e.1, foldl (fold_row up e.1) e.2 selected)) <$> stats0).
  set (ordered := sort_by _ (dict_values stats)).
  assert (ordered ≡ₚ dict_values stats) as Hord by apply sort_by_perm.
  assert (∀ r, r ∈ dict_values stats →
            ∃ u, u ∈ roster db ∧
                 tallied up (user_id u) (folded up db) (init_row u) r) as Hstats.
  { intros r Hr. unfold dict_values, stats, stats0 in Hr.
    rewrite <- !list_fmap_compose in Hr.
    apply list_elem_of_fmap in Hr as (u & -> & Hu). simpl.
    exists u. split; [by rewrite <- Hplayers|].
    pose proof (foldl_fold_row_tallied up (user_id u) selected (init_row u)) as Ht.
    destruct Ht as [? ? ? ? ? ? ? ? ?].
    { intros m Hm. rewrite Hsel in Hm. unfold folded in Hm.
      apply list_elem_of_filter in Hm. tauto. }
    split; rewrite <- ?(sumZ_perm _ _ _ Hsel); done. }
  eexists. split; [done|]. split_and!.
  - rewrite fmap_imap. unfold compose. simpl.
    rewrite (imap_const st_player_id), Hord. unfold dict_values, stats.
    rewrite <- list_fmap_compose.
    transitivity (st_player_id <$> (init_row <$> players)).
    + rewrite <- !list_fmap_compose. unfold stats0. rewrite <- list_fmap_compose.
      match goal with |- ?x ≡ₚ ?y => assert (x = y) as ->; [|done] end.
      apply list_fmap_ext. intros _ u _. simpl.
      by destruct (foldl_fold_row_tallied up (user_id u) selected (init_row u)
                     ltac:(intros m Hm; rewrite Hsel in Hm; unfold folded in Hm;
                           apply list_elem_of_filter in Hm; tauto)) as [[-> _ _] _ _ _ _ _ _ _ _].
    + rewrite <- list_fmap_compose. by rewrite Hplayers.
  - intros row Hrow. apply elem_of_lookup_imap in Hrow as (i & r & -> & Hr).
    apply list_elem_of_lookup_2 in Hr. rewrite Hord in Hr.
    destruct (Hstats r Hr) as (u & Hu & [[Hid Hh Hn] ? ? ? ? ? ? ? ?]).
    exists u. split; [done|]. split; simpl; try done; lia.
  - apply (StronglySorted_imap
             (λ a b, rank_key_le (rank_key str_lower a) (rank_key str_lower b) = true)).
    + intros i j a b. apply rank_key_le_ranks_before.
    + apply sort_by_sorted.
      * intros a b. apply rank_key_le_total.
      * intros a b c. apply rank_key_le_trans.
  - intros i row Hrow. apply list_lookup_imap_Some in Hrow as (r & _ & ->). done.
Qed.

Lemma sumZ_filter_indicator {A} (f : A → Z) (P Q : A → Prop)
    `{∀ x, Decision (P x)} `{∀ x, Decision (Q x)} (l : list A) :
  sumZ (λ x, if bool_decide (Q x) then f x else 0) (filter P l)
  = sumZ f (filter (λ x, P x ∧ Q x) l).
Proof.
  induction l as [|x l IH]; [done|]. rewrite !filter_cons.
  destruct (decide (P x)) as [HP|HP].
  - simpl. rewrite IH. case_bool_decide as HQ.
    + by rewrite decide_True by done.
    + rewrite decide_False by tauto. lia.
  - by rewrite decide_False by tauto.
Qed.


(** C4. With a round filter k the cumulative fields sum over the confirmed matches
    of rounds up to k, and round_points sums the points of the confirmed matches of
    round k only. *)
Theorem standings_round_filter db k :
  NoDup (user_id <$> users db) →
  participants_on_roster (Some k) db →
  ∃ rows, _standings str_lower db (Some k) = Some rows ∧
    ∀ row, row ∈ rows →
      ∃ u, u ∈ roster db ∧ sr_player_id row = user_id u ∧
        let up_to := filter (λ m, both_confirmed m ∧ match_round_number m ≤ k) (matches db) in
        let exactly := filter (λ m, both_confirmed m ∧ match_round_number m = k) (matches db) in
        sr_played row = sumZ (played_in (user_id u)) up_to ∧
        sr_wins row = sumZ (wins_in (user_id u)) up_to ∧
        sr_draws row = sumZ (draws_in (user_id u)) up_to ∧
        sr_losses row = sumZ (losses_in (user_id u)) up_to ∧
        sr_goals_for row = sumZ (goals_for_in (user_id u)) up_to ∧
        sr_goals_against row = sumZ (goals_against_in (user_id u)) up_to ∧
        sr_points row = sumZ (points_in (user_id u)) up_to ∧
        sr_round_points row = sumZ (points_in (user_id u)) exactly.
Proof.
  intros Hnd Hpart.
  destruct (standings_rows db (Some k) Hnd Hpart) as (rows & Hrun & _ & Hrows & _).
  exists rows. split; [done|].
  intros row Hrow. destruct (Hrows row Hrow) as (u & Hu & [? ? ? ? ? ? ? ? ? ? ? Hrp]).
  exists u. cbv zeta. split_and!; try done.
  rewrite Hrp. unfold folded.
  rewrite (sumZ_filter_indicator (points_in (user_id u))
             (λ m, both_confirmed m ∧ round_in_scope (Some k) m)
             (λ m, Some k = Some (match_round_number m))).
  f_equal. apply list_filter_iff. intros m. simpl. split.
  - intros [[? ?] [= ->]]. done.
  - intros [? ->]. split_and!; done || lia.
Qed.

(** C10. Without a round filter every standings row has round_points 0. *)
Theorem standings_unfiltered_round_points db :
  NoDup (user_id <$> users db) →
  participants_on_roster None db →
  ∃ rows, _standings str_lower db None = Some rows ∧
    ∀ row, row ∈ rows → sr_round_points row = 0.
Proof.
  intros Hnd Hpart.
  destruct (standings_rows db None Hnd Hpart) as (rows & Hrun & _ & Hrows & _).
  exists rows. split; [done|].
  intros row Hrow. destruct (Hrows row Hrow) as (u & Hu & [? ? ? ? ? ? ? ? ? ? ? Hrp]).
  rewrite Hrp. by apply sumZ_zero.
Qed.

End StandingsFacts.

(** ** Score submission *)

Lemma confirm_update_frame mid first now m :
  match_id (confirm_update mid first now m) = match_id m ∧
  match_player1_id (confirm_update mid first now m) = match_player1_id m ∧
  match_player2_id (confirm_update mid first now m) = match_player2_id m.
Proof. unfold confirm_update. by case_bool_decide. Qed.

Lemma consensus_matches db now mid :
  matches (_confirm_scores_if_consensus db now mid) = matches db ∨
  ∃ first, matches (_confirm_scores_if_consensus db now mid)
           = confirm_update mid first now <$> matches db.
Proof.
  unfold _confirm_scores_if_consensus. repeat case_match; eauto.
Qed.

Lemma consensus_frame db now mid :
  users (_confirm_scores_if_consensus db now mid) = users db ∧
  score_confirmations (_confirm_scores_if_consensus db now mid) = score_confirmations db.
Proof. unfold _confirm_scores_if_consensus. repeat case_match; done. Qed.

Lemma find_match_Some db mid m :
  find_match db mid = Some m → m ∈ matches db ∧ match_id m = mid.
Proof.
  unfold find_match. intros Hh. apply head_Some_elem_of in Hh.
  apply list_elem_of_filter in Hh. tauto.
Qed.

Lemma find_match_unique db mid m m' :
  NoDup (match_id <$> matches db) →
  find_match db mid = Some m → m' ∈ matches db → match_id m' = mid → m' = m.
Proof.
  intros Hnd Hfind Hm' Hid. apply find_match_Some in Hfind as [Hm Hmid].
  apply list_elem_of_lookup in Hm as [i Hi], Hm' as [j Hj].
  assert (i = j) as ->; [|congruence].
  eapply NoDup_lookup; [exact Hnd| |]; rewrite list_lookup_fmap.
  - by rewrite Hi.
  - rewrite Hj. simpl. congruence.
Qed.

Lemma consensus_confirmed_noop db now mid m :
  find_match db mid = Some m → is_confirmed m = true →
  _confirm_scores_if_consensus db now mid = db.
Proof. intros Hfind Hc. unfold _confirm_scores_if_consensus. by rewrite Hfind, Hc. Qed.

Lemma upsert_frame db mid uid s1 s2 created updated :
  users (upsert_confirmation db mid uid s1 s2 created updated) = users db ∧
  sessions (upsert_confirmation db mid uid s1 s2 created updated) = sessions db ∧
  matches (upsert_confirmation db mid uid s1 s2 created updated) = matches db.
Proof. unfold upsert_confirmation. by case_bool_decide. Qed.

Lemma upsert_rows db mid uid s1 s2 created updated :
  let cs := score_confirmations db in
  let cs' := score_confirmations (upsert_confirmation db mid uid s1 s2 created updated) in
  (∀ c, c ∈ cs' → conf_key mid uid c → conf_score1 c = s1 ∧ conf_score2 c = s2) ∧
  length (filter (conf_key mid uid) cs') = (1 `max` length (filter (conf_key mid uid) cs))%nat ∧
  filter (λ c, ¬ conf_key mid uid c) cs' = filter (λ c, ¬ conf_key mid uid c) cs.
Proof.
  intros cs cs'. subst cs'. unfold upsert_confirmation. fold cs.
  fold (conf_key mid uid).
  change (λ c, conf_match_id c = mid ∧ conf_player_id c = uid) with (conf_key mid uid).
  case_bool_decide as Hex; simpl.
  - split_and!.
    + intros c Hc Hk. apply list_elem_of_fmap in Hc as (c0 & -> & Hc0).
      case_bool_decide; [done|]. done.
    + assert (1 ≤ length (filter (conf_key mid uid) cs))%nat as Hpos.
      { apply Exists_exists in Hex as (c & Hc & Hk).
        assert (c ∈ filter (conf_key mid uid) cs) as Hin by (by apply list_elem_of_filter).
        destruct (filter (conf_key mid uid) cs); [by apply elem_of_nil in Hin|simpl; lia]. }
      rewrite Nat.max_r by done. clear Hex Hpos.
      induction cs as [|c cs IH]; [done|]. rewrite fmap_cons, !filter_cons.
      case_bool_decide as Hk.
      * rewrite !decide_True by done. simpl. by rewrite IH.
      * rewrite !decide_False by done. done.
    + clear Hex. induction cs as [|c cs IH]; [done|]. rewrite fmap_cons, !filter_cons.
      case_bool_decide as Hk.
      * rewrite !decide_False by (unfold conf_key in *; simpl; tauto). done.
      * rewrite !decide_True by done. by rewrite IH.
  - assert (∀ c, c ∈ cs → ¬ conf_key mid uid c) as Hnone.
    { intros c Hc Hk. apply Hex, Exists_exists. eauto. }
    assert (filter (conf_key mid uid) cs = []) as Hnil.
    { clear Hex. induction cs as [|c cs IH]; [done|]. rewrite filter_cons.
      rewrite decide_False by (apply Hnone; left). apply IH.
      intros c' Hc'. apply Hnone. by right. }
    rewrite !filter_app, !filter_cons, !filter_nil, Hnil.
    rewrite decide_True by done. rewrite decide_False by (unfold conf_key; simpl; tauto).
    split_and!; [|done|by rewrite app_nil_r].
    intros c Hc Hk. apply elem_of_app in Hc as [Hc|Hc]; [by apply Hnone in Hc|].
    by apply list_elem_of_singleton in Hc as ->.
Qed.

Lemma participant_test (uid p1 p2 : Z) :
  bool_decide (uid ∉ [p1; p2]) = false ↔ uid = p1 ∨ uid = p2.
Proof.
  rewrite bool_decide_eq_false. rewrite !not_elem_of_cons, elem_of_nil.
  destruct (decide (uid = p1)), (decide (uid = p2)); tauto.
Qed.

Lemma view_rows_nonempty db uid m :
  (∃ u, u ∈ users db ∧ user_id u = match_player1_id m) →
  (∃ u, u ∈ users db ∧ user_id u = match_player2_id m) →
  ∃ row, row ∈ match_view_rows db uid m.
Proof.
  intros (u1 & Hu1 & Hid1) (u2 & Hu2 & Hid2). unfold match_view_rows.
  set (mine := filter _ (score_confirmations db)).
  assert (∃ my, my ∈ left_join mine) as [my Hmy].
  { destruct mine as [|c mine']; [exists None|exists (Some c)]; simpl; left. }
  eexists. apply list_elem_of_bind. exists u1. split; [|by apply list_elem_of_filter].
  apply list_elem_of_bind. exists u2. split; [|by apply list_elem_of_filter].
  apply list_elem_of_bind. exists my. split; [|done]. left.
Qed.

Lemma head_elem_of_is_Some {A} (l : list A) x : x ∈ l → is_Some (head l).
Proof. destruct l; [by intros ?%elem_of_nil|by eexists]. Qed.

(** C7. For an authenticated principal, a submission fails with 403 when the role is
    not player, with 404 when the match is unknown, with 403 when the principal is not
    one of the two participants, and with 409 when both confirmed scores are set, in
    that order and without writing; a successful one stores the upserted row, which
    carries the submitted scores and is not duplicated, leaves the other rows alone,
    and then runs the consensus check. *)
Theorem confirm_match_score_outcome db clock mid payload token user :
  _require_user db token = inr user →
  let out := confirm_match_score db clock mid payload token in
  let uid := dto_user_id user in
  (dto_user_role user ≠ player → out.1 = db ∧ failed_with HTTP_403_FORBIDDEN out) ∧
  (dto_user_role user = player → find_match db mid = None →
     out.1 = db ∧ failed_with HTTP_404_NOT_FOUND out) ∧
  (∀ m, dto_user_role user = player → find_match db mid = Some m →
        uid ≠ match_player1_id m → uid ≠ match_player2_id m →
        out.1 = db ∧ failed_with HTTP_403_FORBIDDEN out) ∧
  (∀ m, dto_user_role user = player → find_match db mid = Some m →
        uid = match_player1_id m ∨ uid = match_player2_id m → both_confirmed m →
        out.1 = db ∧ failed_with HTTP_409_CONFLICT out) ∧
  (∀ dto, out.2 = inr dto →
     out.1 = _confirm_scores_if_consensus
               (upsert_confirmation db mid uid (payload_score1 payload)
                  (payload_score2 payload) (now_created clock) (now_updated clock))
               (now_confirmed clock) mid ∧
     (∀ c, c ∈ score_confirmations out.1 → conf_key mid uid c →
           conf_score1 c = payload_score1 payload ∧ conf_score2 c = payload_score2 payload) ∧
     length (filter (conf_key mid uid) (score_confirmations out.1))
     = (1 `max` length (filter (conf_key mid uid) (score_confirmations db)))%nat ∧
     filter (λ c, ¬ conf_key mid uid c) (score_confirmations out.1)
     = filter (λ c, ¬ conf_key mid uid c) (score_confirmations db) ∧
     dto_id dto = mid) ∧
  (∀ m, dto_user_role user = player → find_match db mid = Some m →
        uid = match_player1_id m ∨ uid = match_player2_id m → ¬ both_confirmed m →
        (∃ u, u ∈ users db ∧ user_id u = match_player1_id m) →
        (∃ u, u ∈ users db ∧ user_id u = match_player2_id m) →
        ∃ dto, out.2 = inr dto).
Proof.
  intros Hauth out uid. subst out. unfold confirm_match_score. rewrite Hauth. fold uid.
  set (stored := upsert_confirmation db mid uid (payload_score1 payload)
                   (payload_score2 payload) (now_created clock) (now_updated clock)).
  set (db2 := _confirm_scores_if_consensus stored (now_confirmed clock) mid).
  destruct (upsert_frame db mid uid (payload_score1 payload) (payload_score2 payload)
              (now_created clock) (now_updated clock)) as (Hus & _ & Hms).
  destruct (consensus_frame stored (now_confirmed clock) mid) as [Hu2 Hc2].
  fold stored in Hus, Hms. fold db2 in Hu2, Hc2.
  case_bool_decide as Hrole.
  { split_and!; try done. intros _. split; [done|]. by eexists. }
  destruct (find_match db mid) as [m|] eqn:Hfind.
  2:{ split_and!; try done. intros _ _. split; [done|]. by eexists. }
  pose proof (participant_test uid (match_player1_id m) (match_player2_id m)) as Hpart.
  destruct (bool_decide (uid ∉ [match_player1_id m; match_player2_id m])) eqn:Hnp.
  { apply bool_decide_eq_true in Hnp. rewrite !not_elem_of_cons in Hnp.
    split_and!; try done; intros ? ? [= <-]; intros; try tauto.
    split; [done|]. by eexists. }
  pose proof (is_confirmed_both m) as Hboth.
  destruct (is_confirmed m) eqn:Hconf.
  { split_and!; try done; intros ? ? [= <-]; intros; try tauto.
    split; [done|]. by eexists. }
  split_and!; try done.
  - intros ? _ [= <-]. tauto.
  - intros ? _ [= <-] _ Hb. apply Hboth in Hb. done.
  - intros dto.
    destruct (head (filter (λ m0, match_id m0 = mid) (matches db2)
                      ≫= λ m0, match_view_rows db2 (Some uid) m0)) as [row|] eqn:Hrow;
      [|done].
    simpl. intros [= <-].
    destruct (upsert_rows db mid uid (payload_score1 payload) (payload_score2 payload)
                (now_created clock) (now_updated clock)) as (Hrows & Hlen & Hrest).
    fold stored in Hrows, Hlen, Hrest.
    rewrite Hc2. split_and!; try done.
    apply head_Some_elem_of in Hrow.
    apply list_elem_of_bind in Hrow as (m' & Hrow & Hm').
    apply list_elem_of_filter in Hm' as [Hid _].
    apply match_view_row_fields in Hrow as (Hrid & _). simpl. congruence.
  - intros ? _ [= <-] _ _ Hp1 Hp2.
    apply find_match_Some in Hfind as [Hm Hid].
    assert (∃ m2, m2 ∈ matches db2 ∧ match_id m2 = mid ∧
                  match_player1_id m2 = match_player1_id m ∧
                  match_player2_id m2 = match_player2_id m) as (m2 & Hm2 & Hid2 & Hp12 & Hp22).
    { destruct (consensus_matches stored (now_confirmed clock) mid) as [Heq|[first Heq]];
        fold db2 in Heq; rewrite Heq, Hms.
      - by exists m.
      - exists (confirm_update mid first (now_confirmed clock) m).
        destruct (confirm_update_frame mid first (now_confirmed clock) m) as (-> & -> & ->).
        split_and!; try done. by apply list_elem_of_fmap_2. }
    destruct (view_rows_nonempty db2 (Some uid) m2) as [row Hrow].
    { by rewrite Hu2, Hus, Hp12. }
    { by rewrite Hu2, Hus, Hp22. }
    assert (is_Some (head (m' ← filter (λ m', match_id m' = mid) (matches db2);
                           match_view_rows db2 (Some uid) m'))) as [row0 Hrow0].
    { apply (head_elem_of_is_Some _ row). apply list_elem_of_bind. exists m2.
      split; [done|]. by apply list_elem_of_filter. }
    rewrite Hrow0. by eexists.
Qed.

Lemma find_match_elem db m :
  NoDup (match_id <$> matches db) → m ∈ matches db → find_match db (match_id m) = Some m.
Proof.
  intros Hnd Hm. destruct (find_match db (match_id m)) as [m'|] eqn:Hfind.
  - f_equal. symmetry. by eapply find_match_unique.
  - unfold find_match in Hfind. apply head_None in Hfind.
    assert (m ∈ filter (λ m0, match_id m0 = match_id m) (matches db)) as Hin
      by (by apply list_elem_of_filter).
    rewrite Hfind in Hin. by apply elem_of_nil in Hin.
Qed.

Lemma consensus_keeps_confirmed db now mid m :
  NoDup (match_id <$> matches db) → m ∈ matches db → both_confirmed m →
  m ∈ matches (_confirm_scores_if_consensus db now mid).
Proof.
  intros Hnd Hm Hc. destruct (decide (mid = match_id m)) as [->|Hne].
  - rewrite (consensus_confirmed_noop db now (match_id m) m); [done| |].
    + by apply find_match_elem.
    + by apply is_confirmed_both.
  - destruct (consensus_matches db now mid) as [->|[first ->]]; [done|].
    apply list_elem_of_fmap. exists m. split; [|done].
    unfold confirm_update. by rewrite bool_decide_eq_false_2.
Qed.

Lemma confirm_match_score_db db clock mid payload token :
  (confirm_match_score db clock mid payload token).1 = db ∨
  ∃ uid,
    (confirm_match_score db clock mid payload token).1
    = _confirm_scores_if_consensus
        (upsert_confirmation db mid uid (payload_score1 payload) (payload_score2 payload)
           (now_created clock) (now_updated clock))
        (now_confirmed clock) mid.
Proof.
  unfold confirm_match_score. repeat case_match; simpl; eauto.
Qed.

(** C8. A match whose two confirmed scores are set is never rewritten: the consensus
    check leaves it in place, and a submission against it fails before any write, with
    409 for a participating player. *)
Theorem confirmed_scores_write_once db m :
  NoDup (match_id <$> matches db) → m ∈ matches db → both_confirmed m →
  (∀ now, _confirm_scores_if_consensus db now (match_id m) = db) ∧
  (∀ now mid, m ∈ matches (_confirm_scores_if_consensus db now mid)) ∧
  (∀ clock payload token,
     let out := confirm_match_score db clock (match_id m) payload token in
     out.1 = db ∧ (∃ e, out.2 = inl e) ∧
     (∀ user, _require_user db token = inr user → dto_user_role user = player →
              dto_user_id user = match_player1_id m ∨ dto_user_id user = match_player2_id m →
              failed_with HTTP_409_CONFLICT out)) ∧
  (∀ clock mid payload token,
     m ∈ matches (confirm_match_score db clock mid payload token).1).
Proof.
  intros Hnd Hm Hc.
  pose proof (find_match_elem db m Hnd Hm) as Hfind.
  pose proof (proj2 (is_confirmed_both m) Hc) as Hconf.
  assert (∀ clock payload token,
            let out := confirm_match_score db clock (match_id m) payload token in
            out.1 = db ∧ (∃ e, out.2 = inl e) ∧
            (∀ user, _require_user db token = inr user → dto_user_role user = player →
               dto_user_id user = match_player1_id m ∨ dto_user_id user = match_player2_id m →
               failed_with HTTP_409_CONFLICT out)) as Hsubmit.
  { intros clock payload token out. subst out. unfold confirm_match_score.
    destruct (_require_user db token) as [e|user]; simpl.
    { split_and!; [done|by eexists|done]. }
    case_bool_decide as Hrole; simpl.
    { split_and!; [done|by eexists|]. intros ? [= <-]. done. }
    rewrite Hfind.
    pose proof (participant_test (dto_user_id user) (match_player1_id m)
                  (match_player2_id m)) as Hpart.
    destruct (bool_decide (dto_user_id user ∉ [match_player1_id m; match_player2_id m]));
      simpl.
    { split_and!; [done|by eexists|]. intros ? [= <-] _ ?.
      assert (true = false) by tauto. done. }
    rewrite Hconf. simpl. split_and!; [done|by eexists|].
    intros ? _ _ _. by eexists. }
  split_and!.
  - intros now. by apply (consensus_confirmed_noop db now (match_id m) m).
  - intros now mid. by apply consensus_keeps_confirmed.
  - exact Hsubmit.
  - intros clock mid payload token.
    destruct (decide (mid = match_id m)) as [->|Hne].
    { destruct (Hsubmit clock payload token) as (-> & _). done. }
    destruct (confirm_match_score_db db clock mid payload token) as [->|[uid ->]]; [done|].
    destruct (upsert_frame db mid uid (payload_score1 payload) (payload_score2 payload)
                (now_created clock) (now_updated clock)) as (_ & _ & Hms).
    apply consensus_keeps_confirmed; by rewrite ?Hms.
Qed.

(** ** Seeding *)

Section SeedFacts.
Variable _hash_password : string → string.

(** C9. Seeding without force is a no-op on a store that holds a match: under the
    foreign key from matches to users the users table is not empty, so nothing is
    deleted or inserted and the call reports seeded = 0. *)
Theorem seed_without_force_noop db :
  matches db ≠ [] →
  Forall (λ m, match_player1_id m ∈ user_id <$> users db) (matches db) →
  ∃ details, _seed_demo_data _hash_password db false = Some (db, details) ∧
    seeded details = 0 ∧
    seed_players details
    = Z.of_nat (length (filter (λ u, user_role u = player) (users db))) ∧
    seed_matches details = Z.of_nat (length (matches db)).
Proof.
  intros Hne Hfk. unfold _seed_demo_data.
  assert (users db ≠ []) as Hu.
  { destruct (matches db) as [|m ms]; [done|].
    apply Forall_cons in Hfk as [Hm _]. intros Hnil. rewrite Hnil in Hm.
    by apply elem_of_nil in Hm. }
  destruct (users db) as [|u us] eqn:Hus; [done|].
  assert ((Z.of_nat (length (u :: us)) >? 0) = true) as -> by (simpl; lia).
  eexists. split; [reflexivity|]. done.
Qed.

End SeedFacts.

(** ** The worked store *)

Example demo_status :
  dto_status <$> _fetch_matches demo_db None
  = [confirmed; confirmed; confirmed; disputed; pending; pending].
Proof. vm_compute. reflexivity. Qed.

Example demo_consensus_blocked :
  _confirm_scores_if_consensus demo_db "n3" 4 = demo_db.
Proof. vm_compute. reflexivity. Qed.

Example demo_standings :
  (λ row, (sr_position row, sr_player_id row, sr_points row, sr_goal_difference row,
           sr_round_points row))
    <$> default [] (_standings lower_ascii demo_db (Some 2))
  = [(1, 3, 4, 2, 3); (2, 4, 3, 2, 0); (3, 2, 1, 0, 0); (4, 1, 0, -4, 0)].
Proof. vm_compute. reflexivity. Qed.

Lemma demo_users_unique : NoDup (user_id <$> users demo_db).
Proof. exact (bool_decide_unpack (NoDup (user_id <$> users demo_db)) I). Defined.

Lemma demo_matches_unique : NoDup (match_id <$> matches demo_db).
Proof. exact (bool_decide_unpack (NoDup (match_id <$> matches demo_db)) I). Defined.

Lemma demo_participants up : participants_on_roster up demo_db.
Proof.
  unfold participants_on_roster. apply Forall_forall. intros m Hm.
  unfold folded in Hm. apply list_elem_of_filter in Hm as [_ Hm].
  assert (Forall (λ m, match_player1_id m ∈ user_id <$> roster demo_db ∧
                       match_player2_id m ∈ user_id <$> roster demo_db) (matches demo_db)) as Hall.
  { exact (bool_decide_unpack
             (Forall (λ m, match_player1_id m ∈ user_id <$> roster demo_db ∧
                           match_player2_id m ∈ user_id <$> roster demo_db)
                     (matches demo_db)) I). }
  by eapply Forall_forall in Hall.
Defined.


Lemma standings_round_filter_witness :
  ∃ rows, _standings lower_ascii demo_db (Some 1) = Some rows ∧
    ∀ row, row ∈ rows → ∃ u, u ∈ roster demo_db ∧ sr_player_id row = user_id u ∧
      sr_round_points row
      = sumZ (points_in (user_id u))
          (filter (λ m, both_confirmed m ∧ match_round_number m = 1) (matches demo_db)).
Proof.
  destruct (standings_round_filter lower_ascii demo_db 1 demo_users_unique
              (demo_participants (Some 1))) as (rows & Hrun & Hrows).
  exists rows. split; [exact Hrun|]. intros row Hrow.
  destruct (Hrows row Hrow) as (u & Hu & Hid & H).
  exists u. split_and!; [exact Hu|exact Hid|]. apply H.
Defined.

Lemma standings_unfiltered_round_points_witness :
  ∃ rows, _standings lower_ascii demo_db None = Some rows ∧
    ∀ row, row ∈ rows → sr_round_points row = 0.
Proof.
  exact (standings_unfiltered_round_points lower_ascii demo_db demo_users_unique
           (demo_participants None)).
Defined.

Lemma confirm_match_score_outcome_witness :
  ∃ user dto,
    _require_user demo_db (Some "ta") = inr user ∧
    (confirm_match_score demo_db demo_clock 5 (mkScoreConfirmRequest 5 0) (Some "ta")).2
    = inr dto ∧
    dto_id dto = 5 ∧
    length (filter (conf_key 5 (dto_user_id user))
              (score_confirmations
                 (confirm_match_score demo_db demo_clock 5 (mkScoreConfirmRequest 5 0)
                    (Some "ta")).1)) = 1%nat.
Proof.
  eexists. eexists.
  assert (_require_user demo_db (Some "ta") = inr (mkUserDto 1 "alice" "Alice Mercer" player))
    as Hauth by reflexivity.
  destruct (confirm_match_score_outcome demo_db demo_clock 5 (mkScoreConfirmRequest 5 0)
              (Some "ta") _ Hauth) as (_ & _ & _ & _ & Hok & _).
  split; [exact Hauth|].
  split; [vm_compute; reflexivity|].
  destruct (Hok _ ltac:(vm_compute; reflexivity)) as (_ & _ & Hlen & _ & Hid).
  split; [exact Hid|]. rewrite Hlen. reflexivity.
Defined.

Lemma confirmed_scores_write_once_witness :
  _confirm_scores_if_consensus demo_db "n3" 1 = demo_db ∧
  (confirm_match_score demo_db demo_clock 1 (mkScoreConfirmRequest 9 9) (Some "ta")).1
  = demo_db ∧
  failed_with HTTP_409_CONFLICT
    (confirm_match_score demo_db demo_clock 1 (mkScoreConfirmRequest 9 9) (Some "ta")).
Proof.
  assert (mkMatchRow 1 1 1 4 1 (Some 3) (Some 1) (Some "e1") ∈ matches demo_db) as Hin
    by (simpl; left).
  assert (both_confirmed (mkMatchRow 1 1 1 4 1 (Some 3) (Some 1) (Some "e1"))) as Hc
    by (split; discriminate).
  destruct (confirmed_scores_write_once demo_db _ demo_matches_unique Hin Hc)
    as (Hnoop & _ & Hsubmit & _).
  destruct (Hsubmit demo_clock (mkScoreConfirmRequest 9 9) (Some "ta")) as (Hdb & _ & Hconflict).
  split_and!; [exact (Hnoop "n3")|exact Hdb|].
  apply (Hconflict (mkUserDto 1 "alice" "Alice Mercer" player)); [reflexivity..|].
  right. reflexivity.
Defined.

Lemma seed_without_force_noop_witness :
  ∃ details, _seed_demo_data (λ password, password) demo_db false = Some (demo_db, details) ∧
    seeded details = 0.
Proof.
  destruct (seed_without_force_noop (λ password, password) demo_db) as (details & Hrun & Hs & _).
  - discriminate.
  - exact (bool_decide_unpack
             (Forall (λ m, match_player1_id m ∈ user_id <$> users demo_db) (matches demo_db)) I).
  - exists details. split; [exact Hrun|exact Hs].
Defined.

(** * Part IV. The views, the accounts and more on the core *)

(** ** Dictionaries, loops and sorted keys *)

Lemma getitem_Some_elem {V} k (d : list (Z * V)) v : getitem k d = Some v → (k, v) ∈ d.
Proof.
  unfold getitem. destruct (head _) as [[k' v']|] eqn:E; [|done].
  intros [= <-]. apply head_Some_elem_of in E.
  apply list_elem_of_filter in E as [E1 E2]. simpl in E1. by subst.
Qed.

Lemma getitem_None {V} k (d : list (Z * V)) : getitem k d = None ↔ k ∉ d.*1.
Proof.
  unfold getitem. induction d as [|[k' v'] d IH]; simpl.
  - split; [intros _; apply not_elem_of_nil | done].
  - rewrite filter_cons. simpl. destruct (decide (k' = k)) as [->|Hne]; simpl.
    + split; [done|]. intros H. exfalso. apply H. left.
    + rewrite IH. rewrite not_elem_of_cons. simpl. intuition congruence.
Qed.

Lemma getitem_fmap_values {V W} (f : Z → V → W) k (d : list (Z * V)) :
  getitem k ((λ e, (e.1, f e.1 e.2)) <$> d) = f k <$> getitem k d.
Proof.
  unfold getitem. induction d as [|[k' v'] d IH]; [done|].
  rewrite fmap_cons, !filter_cons. simpl.
  destruct (decide (k' = k)) as [->|Hne]; simpl; [done|]. apply IH.
Qed.

Lemma getitem_app {V} k (d1 d2 : list (Z * V)) :
  getitem k (d1 ++ d2) = match getitem k d1 with Some v => Some v | None => getitem k d2 end.
Proof.
  unfold getitem. rewrite filter_app.
  destruct (filter _ d1) as [|e l]; simpl; [|done].
  by destruct (head _).
Qed.

(** One [setdefault ... append]. *)
Lemma group_match_keys g m :
  (group_match g m).*1
  = if bool_decide (dto_round_number m ∈ g.*1) then g.*1 else g.*1 ++ [dto_round_number m].
Proof.
  unfold group_match. cbv zeta. rewrite <- list_fmap_compose.
  case_bool_decide.
  - apply list_fmap_ext. intros i [k v] _. simpl. by case_bool_decide.
  - rewrite fmap_app. f_equal.
    + apply list_fmap_ext. intros i [k v] _. simpl. by case_bool_decide.
    + simpl. by case_bool_decide.
Qed.

Lemma group_match_getitem g m k :
  getitem k (group_match g m)
  = if bool_decide (k = dto_round_number m)
    then Some (default [] (getitem k g) ++ [m])
    else getitem k g.
Proof.
  unfold group_match. cbv zeta.
  assert (Hmap : ∀ d : list (Z * list MatchDto),
            getitem k ((λ e, if bool_decide (e.1 = dto_round_number m)
                             then (e.1, e.2 ++ [m]) else e) <$> d)
            = (λ v, if bool_decide (k = dto_round_number m) then v ++ [m] else v)
                <$> getitem k d).
  { intros d.
    transitivity (getitem k ((λ e, (e.1, (λ k' v, if bool_decide (k' = dto_round_number m)
                                                  then v ++ [m] else v) e.1 e.2)) <$> d)).
    - f_equal. apply list_fmap_ext. intros i [k' v'] _. simpl. by case_bool_decide.
    - exact (getitem_fmap_values
               (λ k' v, if bool_decide (k' = dto_round_number m) then v ++ [m] else v) k d). }
  rewrite Hmap. clear Hmap.
  destruct (bool_decide (k = dto_round_number m)) eqn:Hk.
  - apply bool_decide_eq_true in Hk. subst k. case_bool_decide as Hin.
    + destruct (getitem _ g) eqn:E; [done|].
      apply getitem_None in E. done.
    + rewrite getitem_app. apply getitem_None in Hin. rewrite Hin. simpl.
      unfold getitem. rewrite filter_cons. simpl. by rewrite decide_True.
  - apply bool_decide_eq_false in Hk. case_bool_decide as Hin.
    + by destruct (getitem k g).
    + rewrite getitem_app. destruct (getitem k g); [done|]. simpl.
      unfold getitem. rewrite filter_cons. simpl. by rewrite decide_False.
Qed.

Lemma group_fold_keys l g k :
  k ∈ (foldl group_match g l).*1 ↔ k ∈ g.*1 ∨ k ∈ dto_round_number <$> l.
Proof.
  revert g. induction l as [|m l IH]; intros g; simpl.
  - rewrite elem_of_nil. tauto.
  - rewrite IH, group_match_keys, elem_of_cons. case_bool_decide as Hin.
    + split; [tauto|]. intros [?|[->|?]]; auto.
    + rewrite elem_of_app, list_elem_of_singleton. tauto.
Qed.

Lemma group_fold_NoDup l g : NoDup g.*1 → NoDup (foldl group_match g l).*1.
Proof.
  revert g. induction l as [|m l IH]; intros g Hg; simpl; [done|].
  apply IH. rewrite group_match_keys. case_bool_decide as Hin; [done|].
  apply NoDup_app. split_and!; [done| |apply NoDup_singleton].
  intros x Hx ->%list_elem_of_singleton. done.
Qed.

Lemma group_fold_getitem l g k :
  getitem k (foldl group_match g l)
  = if bool_decide (k ∈ g.*1 ∨ k ∈ dto_round_number <$> l)
    then Some (default [] (getitem k g) ++ filter (λ m, dto_round_number m = k) l)
    else None.
Proof.
  revert g. induction l as [|m l IH]; intros g; cbn [foldl].
  - case_bool_decide as H.
    + destruct H as [H|H]; [|by apply elem_of_nil in H].
      destruct (getitem k g) eqn:E; [by rewrite app_nil_r|].
      by apply getitem_None in E.
    + apply getitem_None. tauto.
  - rewrite IH. rewrite group_match_keys, group_match_getitem, filter_cons.
    assert (Hiff : (k ∈ (if bool_decide (dto_round_number m ∈ g.*1) then g.*1
                         else g.*1 ++ [dto_round_number m]) ∨
                    k ∈ dto_round_number <$> l)
                   ↔ (k ∈ g.*1 ∨ k ∈ dto_round_number <$> m :: l)).
    { rewrite fmap_cons, elem_of_cons. case_bool_decide.
      - split; [tauto|]. intros [?|[->|?]]; auto.
      - rewrite elem_of_app, list_elem_of_singleton. tauto. }
    destruct (decide (k ∈ g.*1 ∨ k ∈ dto_round_number <$> m :: l)) as [Hk|Hk].
    2: { rewrite (bool_decide_eq_false_2 _ Hk).
         by rewrite (bool_decide_eq_false_2 _ (λ H, Hk (proj1 Hiff H))). }
    rewrite (bool_decide_eq_true_2 _ Hk), (bool_decide_eq_true_2 _ (proj2 Hiff Hk)).
    apply (f_equal Some). clear Hiff Hk. case_bool_decide as Hkm.
    + subst k. rewrite decide_True by done. simpl. by rewrite <- app_assoc.
    + rewrite decide_False by done. done.
Qed.

Lemma for_each_ext {S A} (f g : S → A → option S) (s : S) (xs : list A) :
  (∀ s x, f s x = g s x) → for_each f s xs = for_each g s xs.
Proof.
  intros H. revert s. induction xs as [|x xs IH]; intros s; simpl; [done|].
  rewrite H. destruct (g s x); simpl; auto.
Qed.

Lemma for_each_collect {A B} (f : A → option B) (xs : list A) (acc : list B) :
  for_each (λ acc x, y ← f x; Some (acc ++ [y])) acc xs = (acc ++.) <$> mapM f xs.
Proof.
  revert acc. induction xs as [|x xs IH]; intros acc; simpl.
  - by rewrite app_nil_r.
  - destruct (f x) as [y|]; simpl; [|done].
    rewrite IH. destruct (mapM f xs) as [ys|]; simpl; [|done].
    by rewrite <- app_assoc.
Qed.

Lemma for_each_collect_nil {A B} (f : A → option B) (xs : list A) :
  for_each (λ acc x, y ← f x; Some (acc ++ [y])) [] xs = mapM f xs.
Proof. rewrite for_each_collect. by destruct (mapM f xs). Qed.

Lemma mapM_total {A B} (f : A → option B) (g : A → B) (xs : list A) :
  (∀ x, x ∈ xs → f x = Some (g x)) → mapM f xs = Some (g <$> xs).
Proof.
  induction xs as [|x xs IH]; intros H; simpl; [done|].
  rewrite (H x) by left. simpl. rewrite IH; [done|].
  intros y Hy. apply H. by right.
Qed.

Lemma sorted_le_NoDup_lt (l : list Z) :
  StronglySorted (λ a b, (a <=? b) = true) l → NoDup l → StronglySorted Z.lt l.
Proof.
  induction 1 as [|x l Hs IH Hx]; intros Hnd; [constructor|].
  apply NoDup_cons in Hnd as [Hx' Hnd]. constructor; [auto|].
  rewrite Forall_forall in Hx |- *. intros y Hy.
  specialize (Hx y Hy). assert (x ≠ y) by (intros ->; done). lia.
Qed.

Lemma sort_keys_lt (l : list Z) : NoDup l → StronglySorted Z.lt (sort_by Z.leb l).
Proof.
  intros Hnd. apply sorted_le_NoDup_lt.
  - apply sort_by_sorted; [apply Z_leb_total | apply Z_leb_trans].
  - by rewrite sort_by_perm.
Qed.

Lemma StronglySorted_app_r {A} (R : A → A → Prop) (l1 l2 : list A) :
  StronglySorted R (l1 ++ l2) → StronglySorted R l2.
Proof.
  induction l1 as [|x l1 IH]; simpl; [done|].
  intros H. apply StronglySorted_inv in H as [H _]. auto.
Qed.

(** A list sorted by [f] is the concatenation of its [f]-classes, taken in
    increasing order of [f]. *)
Lemma concat_classes {A} (f : A → Z) (l : list A) (ks : list Z) :
  StronglySorted (λ a b, f a ≤ f b) l →
  StronglySorted Z.lt ks →
  (∀ x, x ∈ l → f x ∈ ks) →
  concat ((λ k, filter (λ x, f x = k) l) <$> ks) = l.
Proof.
  intros Hl Hks. revert l Hl. induction Hks as [|k ks Hks IH Hk]; intros l Hl Hin.
  - destruct l as [|x l]; [done|]. specialize (Hin x ltac:(left)). by apply elem_of_nil in Hin.
  - simpl.
    assert (Hsplit : ∃ l1 l2, l = l1 ++ l2 ∧ Forall (λ x, f x = k) l1 ∧
                              Forall (λ x, f x ∈ ks) l2).
    { clear IH. induction Hl as [|x l Hl IHl Hx].
      - exists [], []. by repeat constructor.
      - destruct IHl as (l1 & l2 & -> & H1 & H2).
        { intros y Hy. apply Hin. by right. }
        pose proof (Hin x ltac:(left)) as Hxk. apply elem_of_cons in Hxk as [Hxk|Hxk].
        + exists (x :: l1), l2. split_and!; [done|by constructor|done].
        + exists [], (x :: l1 ++ l2). split_and!; [done|constructor|].
          constructor; [done|]. apply Forall_app. split; [|done].
          apply Forall_forall. intros y Hy. exfalso.
          pose proof (proj1 (Forall_forall _ _) H1 y Hy) as Hy1.
          pose proof (proj1 (Forall_forall _ _) Hx y ltac:(set_solver)) as Hy2.
          pose proof (proj1 (Forall_forall _ _) Hk _ Hxk) as Hy3.
          simpl in *. lia. }
    destruct Hsplit as (l1 & l2 & -> & H1 & H2).
    assert (Hne : Forall (λ x, f x ≠ k) l2).
    { apply Forall_forall. intros y Hy Heq.
      pose proof (proj1 (Forall_forall _ _) H2 y Hy) as Hy2.
      pose proof (proj1 (Forall_forall _ _) Hk _ Hy2) as Hy3.
      simpl in *. lia. }
    rewrite filter_app.
    assert (filter (λ x, f x = k) l1 = l1) as ->.
    { clear -H1. induction H1; [done|]. rewrite filter_cons, decide_True by done.
      by f_equal. }
    assert (filter (λ x, f x = k) l2 = []) as ->.
    { clear -Hne. induction Hne; [done|]. by rewrite filter_cons, decide_False. }
    rewrite app_nil_r. f_equal.
    transitivity (concat ((λ k, filter (λ x, f x = k) l2) <$> ks)); [|apply IH].
    + f_equal. apply list_fmap_ext. intros i k' Hk'.
      rewrite filter_app.
      assert (filter (λ x, f x = k') l1 = []) as ->; [|done].
      apply list_elem_of_lookup_2 in Hk'.
      pose proof (proj1 (Forall_forall _ _) Hk _ Hk') as Hlt.
      clear -H1 Hlt. induction H1; [done|]. rewrite filter_cons, decide_False by lia. done.
    + by apply StronglySorted_app_r in Hl.
    + intros x Hx. by apply (proj1 (Forall_forall _ _) H2).
Qed.

Lemma elem_of_concat {A} (x : A) (ls : list (list A)) :
  x ∈ concat ls ↔ ∃ l, x ∈ l ∧ l ∈ ls.
Proof.
  induction ls as [|l ls IH]; simpl.
  - split; [by intros ?%elem_of_nil | by intros (l & _ & ?%elem_of_nil)].
  - rewrite elem_of_app, IH. split.
    + intros [H|(l' & H1 & H2)]; [exists l; split; [done|left] | exists l'; split; [done|by right]].
    + intros (l' & H1 & [->|H2]%elem_of_cons); [by left|right; eauto].
Qed.

(** ** The rounds view *)

Lemma StronglySorted_app_2 {A} (R : A → A → Prop) (l1 l2 : list A) :
  (∀ x1 x2, x1 ∈ l1 → x2 ∈ l2 → R x1 x2) →
  StronglySorted R l1 → StronglySorted R l2 → StronglySorted R (l1 ++ l2).
Proof.
  intros H H1 H2. induction H1 as [|x l1 H1 IH Hx]; simpl; [done|].
  constructor.
  - apply IH. intros x1 x2 Hx1 Hx2. apply H; [by right|done].
  - apply Forall_app. split; [done|].
    apply Forall_forall. intros y Hy. apply H; [left|done].
Qed.

Lemma sorted_same_key {A} (k : A → Z) (c : Z) (l : list A) :
  (∀ x, x ∈ l → k x = c) → StronglySorted (λ a b, k a ≤ k b) l.
Proof.
  induction l as [|x l IH]; intros H; constructor.
  - apply IH. intros y Hy. apply H. by right.
  - apply Forall_forall. intros y Hy. rewrite (H x), (H y); [lia|by right|left].
Qed.

Lemma sorted_bind_key {A B} (k : A → Z) (k' : B → Z) (g : A → list B) (l : list A) :
  (∀ x b, b ∈ g x → k' b = k x) →
  StronglySorted (λ a b, k a ≤ k b) l →
  StronglySorted (λ a b, k' a ≤ k' b) (l ≫= g).
Proof.
  intros Hg. induction 1 as [|x l Hl IH Hx]; [constructor|].
  rewrite bind_cons. apply StronglySorted_app_2; [|by eapply sorted_same_key, Hg|done].
  intros b1 b2 Hb1 Hb2. apply list_elem_of_bind in Hb2 as (y & Hb2 & Hy).
  rewrite (Hg _ _ Hb1), (Hg _ _ Hb2).
  by apply (proj1 (Forall_forall _ _) Hx).
Qed.

Lemma match_order_total m1 m2 : match_order_le m1 m2 = true ∨ match_order_le m2 m1 = true.
Proof.
  apply pair_le_total, pair_le_total, Z_leb_total.
Qed.

Lemma match_order_trans m1 m2 m3 :
  match_order_le m1 m2 = true → match_order_le m2 m3 = true → match_order_le m1 m3 = true.
Proof.
  apply pair_le_trans, pair_le_trans, Z_leb_trans.
Qed.

Lemma match_order_round m1 m2 :
  match_order_le m1 m2 = true → match_round_number m1 ≤ match_round_number m2.
Proof.
  unfold match_order_le, pair_le. simpl.
  destruct (Z.ltb_spec (match_round_number m1) (match_round_number m2)); [lia|].
  destruct (Z.ltb_spec (match_round_number m2) (match_round_number m1)); [done|lia].
Qed.

Lemma view_row_round db uid m row :
  row ∈ match_view_rows db uid m → row_round_number row = match_round_number m.
Proof.
  unfold match_view_rows.
  intros (u1 & H & _)%list_elem_of_bind. apply list_elem_of_bind in H as (u2 & H & _).
  apply list_elem_of_bind in H as (my & H & _).
  apply list_elem_of_singleton in H. by subst.
Qed.

Lemma sorted_fmap_key {A B} (k : A → Z) (k' : B → Z) (f : A → B) (l : list A) :
  (∀ x, k' (f x) = k x) →
  StronglySorted (λ a b, k a ≤ k b) l →
  StronglySorted (λ a b, k' a ≤ k' b) (f <$> l).
Proof.
  intros Hf. induction 1 as [|x l Hl IH Hx]; [constructor|].
  rewrite fmap_cons. constructor; [done|].
  apply Forall_fmap. eapply Forall_impl; [exact Hx|].
  intros y Hy. simpl. by rewrite !Hf.
Qed.

Lemma sorted_weaken {A} (R R' : A → A → Prop) (l : list A) :
  (∀ x y, R x y → R' x y) → StronglySorted R l → StronglySorted R' l.
Proof.
  intros HR. induction 1 as [|x l Hl IH Hx]; constructor; [done|].
  eapply Forall_impl; [exact Hx|]. auto.
Qed.

Lemma fetch_matches_sorted db uid :
  StronglySorted (λ a b, dto_round_number a ≤ dto_round_number b) (_fetch_matches db uid).
Proof.
  unfold _fetch_matches. cbv zeta.
  apply (sorted_fmap_key row_round_number); [done|].
  apply (sorted_bind_key match_round_number); [apply view_row_round|].
  eapply sorted_weaken; [apply match_order_round|].
  apply sort_by_sorted; [apply match_order_total | apply match_order_trans].
Qed.

Lemma fetch_rounds_groups db uid :
  let l := _fetch_matches db uid in
  _fetch_rounds db uid
  = Some (round_group l <$> sort_by Z.leb (foldl group_match [] l).*1).
Proof.
  intros l. unfold _fetch_rounds. cbv zeta. fold l.
  set (pick := λ round_number : Z,
         round_matches ← getitem round_number (foldl group_match [] l);
         Some {| rd_round_number := round_number;
                 rd_is_complete :=
                   forallb (λ m, bool_decide (dto_status m = confirmed)) round_matches;
                 rd_matches := round_matches |}).
  rewrite (for_each_ext _ (λ acc x, y ← pick x; Some (acc ++ [y]))).
  2: { intros acc k. unfold pick. simpl. by destruct (getitem k _). }
  rewrite for_each_collect_nil. unfold pick.
  rewrite (mapM_total _ (round_group l)); [done|].
  intros k Hk. apply sort_by_elem_of in Hk.
  rewrite group_fold_getitem.
  rewrite bool_decide_eq_true_2.
  - by simpl.
  - apply group_fold_keys in Hk. done.
Qed.

Lemma fetch_rounds_concat db uid :
  ∃ rounds, _fetch_rounds db uid = Some rounds ∧
    concat (rd_matches <$> rounds) = _fetch_matches db uid.
Proof.
  eexists. split; [apply fetch_rounds_groups|]. cbv zeta.
  rewrite <- list_fmap_compose.
  apply (concat_classes dto_round_number); [apply fetch_matches_sorted| |].
  - apply sort_keys_lt, group_fold_NoDup. constructor.
  - intros x Hx. rewrite sort_by_elem_of, group_fold_keys. right.
    apply list_elem_of_fmap. eauto.
Qed.

(** X3. The rounds view never fails: concatenating its rounds gives the match listing
    back, the round numbers strictly increase, no round is empty, every match sits in
    the round of its own number, and a round is flagged complete exactly when all its
    matches have status confirmed. *)
Theorem fetch_rounds_partition db user_id_param :
  ∃ rounds, _fetch_rounds db user_id_param = Some rounds ∧
    concat (rd_matches <$> rounds) = _fetch_matches db user_id_param ∧
    StronglySorted Z.lt (rd_round_number <$> rounds) ∧
    Forall (λ r, rd_matches r ≠ [] ∧
                 Forall (λ m, dto_round_number m = rd_round_number r) (rd_matches r) ∧
                 (rd_is_complete r = true
                  ↔ Forall (λ m, dto_status m = confirmed) (rd_matches r))) rounds.
Proof.
  eexists. split; [apply fetch_rounds_groups|]. cbv zeta.
  set (l := _fetch_matches db user_id_param).
  set (ks := sort_by Z.leb (foldl group_match [] l).*1).
  assert (Hks : StronglySorted Z.lt ks).
  { apply sort_keys_lt, group_fold_NoDup. constructor. }
  assert (Hin : ∀ k, k ∈ ks ↔ k ∈ dto_round_number <$> l).
  { intros k. unfold ks. rewrite sort_by_elem_of, group_fold_keys.
    simpl. rewrite elem_of_nil. tauto. }
  split_and!.
  - rewrite <- list_fmap_compose.
    apply (concat_classes dto_round_number l ks); [apply fetch_matches_sorted|done|].
    intros x Hx. apply Hin, list_elem_of_fmap. eauto.
  - rewrite <- list_fmap_compose. by rewrite list_fmap_id.
  - apply Forall_forall. intros r (k & -> & Hk)%list_elem_of_fmap.
    unfold round_group. simpl. split_and!.
    + apply Hin in Hk. apply list_elem_of_fmap in Hk as (m & -> & Hm).
      intros Hnil. assert (m ∈ filter (λ m0, dto_round_number m0 = dto_round_number m) l) as H.
      { by apply list_elem_of_filter. }
      rewrite Hnil in H. by apply elem_of_nil in H.
    + apply Forall_forall. by intros m [? _]%list_elem_of_filter.
    + rewrite <- Is_true_true, forallb_True.
      split; intros H; (eapply Forall_impl; [exact H|]); intros m; simpl;
        by rewrite bool_decide_spec.
Qed.

(** ** The current round and the viewer of the rounds *)

Lemma foldl_min_spec (x : Z) (l : list Z) :
  foldl Z.min x l ∈ x :: l ∧ ∀ y, y ∈ x :: l → foldl Z.min x l ≤ y.
Proof.
  revert x. induction l as [|z l IH]; intros x; simpl.
  - split; [left|]. intros y ->%list_elem_of_singleton. lia.
  - destruct (IH (x `min` z)) as [Hin Hle]. split.
    + apply elem_of_cons in Hin as [Hin|Hin]; [|by do 2 right].
      rewrite Hin. destruct (Z.min_spec x z) as [[_ ->]|[_ ->]]; [left|right; left].
    + intros y Hy. apply elem_of_cons in Hy as [->|Hy].
      * specialize (Hle (x `min` z) ltac:(left)). lia.
      * apply elem_of_cons in Hy as [->|Hy].
        -- specialize (Hle (x `min` z) ltac:(left)). lia.
        -- apply Hle. by right.
Qed.

Lemma foldl_max_spec (x : Z) (l : list Z) :
  foldl Z.max x l ∈ x :: l ∧ ∀ y, y ∈ x :: l → y ≤ foldl Z.max x l.
Proof.
  revert x. induction l as [|z l IH]; intros x; simpl.
  - split; [left|]. intros y ->%list_elem_of_singleton. lia.
  - destruct (IH (x `max` z)) as [Hin Hle]. split.
    + apply elem_of_cons in Hin as [Hin|Hin]; [|by do 2 right].
      rewrite Hin. destruct (Z.max_spec x z) as [[_ ->]|[_ ->]]; [right; left|left].
    + intros y Hy. apply elem_of_cons in Hy as [->|Hy].
      * specialize (Hle (x `max` z) ltac:(left)). lia.
      * apply elem_of_cons in Hy as [->|Hy].
        -- specialize (Hle (x `max` z) ltac:(left)). lia.
        -- apply Hle. by right.
Qed.

Lemma sql_min_spec (l : list Z) :
  match sql_min l with
  | None => l = []
  | Some r => r ∈ l ∧ ∀ y, y ∈ l → r ≤ y
  end.
Proof. destruct l as [|x l]; [done|]. apply foldl_min_spec. Qed.

Lemma sql_max_spec (l : list Z) :
  match sql_max l with
  | None => l = []
  | Some r => r ∈ l ∧ ∀ y, y ∈ l → y ≤ r
  end.
Proof. destruct l as [|x l]; [done|]. apply foldl_max_spec. Qed.

Lemma is_pending_not_confirmed m : is_pending m = true ↔ ¬ both_confirmed m.
Proof.
  unfold is_pending, both_confirmed.
  rewrite orb_true_iff, !bool_decide_eq_true.
  destruct (match_confirmed_score1 m), (match_confirmed_score2 m); split; try tauto;
    intros H; try (right; done); try (left; done); try (intros [? ?]; done);
    try (destruct H; done).
Qed.

(** X5. When the current round is None there are no matches. Otherwise it is the round
    of some match and every match of an earlier round is confirmed; if some match is
    unconfirmed it is the round of an unconfirmed match, and if all matches are
    confirmed no match has a later round. *)
Theorem current_round_spec db :
  match _current_round db with
  | None => matches db = []
  | Some r =>
      (∃ m, m ∈ matches db ∧ match_round_number m = r) ∧
      (∀ m, m ∈ matches db → match_round_number m < r → both_confirmed m) ∧
      ((∃ m, m ∈ matches db ∧ ¬ both_confirmed m) →
         ∃ m, m ∈ matches db ∧ ¬ both_confirmed m ∧ match_round_number m = r) ∧
      ((∀ m, m ∈ matches db → both_confirmed m) →
         ∀ m, m ∈ matches db → match_round_number m ≤ r)
  end.
Proof.
  unfold _current_round. cbv zeta.
  pose proof (sql_min_spec (match_round_number <$> filter (λ m, is_pending m) (matches db)))
    as Hmin.
  pose proof (sql_max_spec (match_round_number <$> matches db)) as Hmax.
  destruct (sql_min _) as [r|].
  - destruct Hmin as [Hr Hle].
    apply list_elem_of_fmap in Hr as (m0 & -> & Hm0).
    apply list_elem_of_filter in Hm0 as [Hp0 Hm0].
    apply Is_true_true, is_pending_not_confirmed in Hp0.
    split_and!.
    + eauto.
    + intros m Hm Hlt. destruct (decide (both_confirmed m)) as [|Hn]; [done|].
      exfalso. assert (match_round_number m0 ≤ match_round_number m); [|lia].
      apply Hle, list_elem_of_fmap. exists m. split; [done|].
      apply list_elem_of_filter. split; [|done].
      by apply Is_true_true, is_pending_not_confirmed.
    + intros _. eauto.
    + intros Hall. exfalso. by apply Hp0, Hall.
  - apply fmap_nil_inv in Hmin.
    destruct (sql_max _) as [r|].
    + destruct Hmax as [Hr Hle].
      apply list_elem_of_fmap in Hr as (m0 & -> & Hm0).
      assert (Hall : ∀ m, m ∈ matches db → both_confirmed m).
      { intros m Hm. destruct (decide (both_confirmed m)) as [|Hn]; [done|].
        exfalso. assert (m ∈ filter (λ m, is_pending m) (matches db)) as Hin.
        { apply list_elem_of_filter. split; [|done].
          by apply Is_true_true, is_pending_not_confirmed. }
        rewrite Hmin in Hin. by apply elem_of_nil in Hin. }
      split_and!.
      * eauto.
      * auto.
      * intros (m & Hm & Hn). exfalso. by apply Hn, Hall.
      * intros _ m Hm. apply Hle, list_elem_of_fmap. eauto.
    + by apply fmap_nil_inv in Hmax.
Qed.

Lemma filter_none {A} (P : A → Prop) `{∀ x, Decision (P x)} (l : list A) :
  (∀ x, x ∈ l → ¬ P x) → filter P l = [].
Proof.
  induction l as [|x l IH]; intros Hl; [done|].
  rewrite filter_cons, decide_False by (apply Hl; left).
  apply IH. intros y Hy. apply Hl. by right.
Qed.

Lemma fetch_matches_anonymous db dto :
  dto ∈ _fetch_matches db None → dto_my_confirmation dto = None.
Proof.
  unfold _fetch_matches. cbv zeta.
  intros (row & -> & Hrow)%list_elem_of_fmap.
  apply list_elem_of_bind in Hrow as (m & Hrow & _).
  unfold match_view_rows in Hrow.
  apply list_elem_of_bind in Hrow as (u1 & Hrow & _).
  apply list_elem_of_bind in Hrow as (u2 & Hrow & _).
  apply list_elem_of_bind in Hrow as (my & Hrow & Hmy).
  apply list_elem_of_singleton in Hrow. subst row.
  rewrite filter_none in Hmy by (by intros c _ [_ ?]).
  simpl in Hmy. apply list_elem_of_singleton in Hmy. by subst my.
Qed.

Lemma optional_user_require db token :
  match _optional_user db token with
  | Some user => _require_user db token = inr user
  | None => ∃ e, _require_user db token = inl e ∧ status_code e = HTTP_401_UNAUTHORIZED
  end.
Proof.
  unfold _optional_user, _require_user. destruct token as [t|]; [|by eexists].
  cbv zeta. destruct (head _); [done|by eexists].
Qed.

(** X4. GET /rounds is the rounds view for the user the token authenticates and the
    anonymous rounds view otherwise; without a valid session it succeeds and no listed
    match carries a my_confirmation. *)
Theorem rounds_viewer db token :
  rounds db token
  = _fetch_rounds db match _require_user db token with
                     | inr user => Some (dto_user_id user)
                     | inl _ => None
                     end ∧
  ((∀ user, _require_user db token ≠ inr user) →
   ∃ rs, rounds db token = Some rs ∧
     ∀ r m, r ∈ rs → m ∈ rd_matches r → dto_my_confirmation m = None).
Proof.
  assert (Heq : rounds db token
                = _fetch_rounds db match _require_user db token with
                                   | inr user => Some (dto_user_id user)
                                   | inl _ => None
                                   end).
  { unfold rounds. cbv zeta. pose proof (optional_user_require db token) as H.
    destruct (_optional_user db token) as [u|].
    - by rewrite H.
    - by destruct H as (e & -> & _). }
  split; [done|]. intros Hno. rewrite Heq.
  destruct (_require_user db token) as [e|u]; [|by destruct (Hno u)].
  destruct (fetch_rounds_concat db None) as (rs & Hrs & Hcat).
  exists rs. split; [done|]. intros r m Hr Hm.
  apply fetch_matches_anonymous with db. rewrite <- Hcat.
  apply elem_of_concat. exists (rd_matches r). split; [done|].
  apply list_elem_of_fmap. eauto.
Qed.

(** ** When the standings fold raises *)

Lemma dict_set_keys k v (d : dict) :
  (dict_set k v d).*1 = if bool_decide (k ∈ d.*1) then d.*1 else d.*1 ++ [k].
Proof.
  unfold dict_set. case_bool_decide as Hk.
  - rewrite <- list_fmap_compose. apply list_fmap_ext. intros i [k' v'] _. simpl.
    by case_bool_decide.
  - by rewrite fmap_app.
Qed.

Lemma dict_build_keys (players : list UserRow) (d : dict) k :
  k ∈ (foldl (λ d u, dict_set (user_id u) (init_row u) d) d players).*1
  ↔ k ∈ d.*1 ∨ k ∈ user_id <$> players.
Proof.
  revert d. induction players as [|u players IH]; intros d; simpl.
  - rewrite elem_of_nil. tauto.
  - rewrite IH, dict_set_keys, elem_of_cons. case_bool_decide as Hin.
    + split; [tauto|]. intros [?|[->|?]]; auto.
    + rewrite elem_of_app, list_elem_of_singleton. tauto.
Qed.

Lemma dict_get_Some_key k (d : dict) v : dict_get k d = Some v → k ∈ d.*1.
Proof.
  unfold dict_get. destruct (head _) as [[k' v']|] eqn:E; [|done]. intros _.
  apply head_Some_elem_of, list_elem_of_filter in E as [E1 E2]. simpl in E1. subst k'.
  apply list_elem_of_fmap. by exists (k, v').
Qed.

Lemma standings_step_Some up (stats stats' : dict) m :
  standings_step up stats m = Some stats' →
  both_confirmed m ∧ match_player1_id m ∈ stats.*1 ∧ match_player2_id m ∈ stats.*1.
Proof.
  unfold standings_step, both_confirmed.
  destruct (match_confirmed_score1 m) as [score1|]; [|done].
  destruct (match_confirmed_score2 m) as [score2|]; [|done]. simpl.
  destruct (_match_points score1 score2) as [p1_points p2_points].
  destruct (dict_get (match_player1_id m) stats) eqn:E1; [|done].
  destruct (dict_get (match_player2_id m) stats) eqn:E2; [|done].
  intros _. split_and!; try done; by eapply dict_get_Some_key.
Qed.

Lemma standings_fold_Some up (stats : dict) ms :
  is_Some (for_each (standings_step up) stats ms)
  ↔ ∀ m, m ∈ ms → both_confirmed m ∧
                   match_player1_id m ∈ stats.*1 ∧ match_player2_id m ∈ stats.*1.
Proof.
  split.
  - revert stats. induction ms as [|m ms IH]; intros stats Hsome m' Hm'.
    { by apply elem_of_nil in Hm'. }
    simpl in Hsome. destruct (standings_step up stats m) as [stats'|] eqn:E.
    2: { by destruct Hsome. }
    pose proof (standings_step_Some _ _ _ _ E) as (Hc & Hp1 & Hp2).
    apply elem_of_cons in Hm' as [->|Hm']; [done|].
    rewrite standings_step_rows in E by done. injection E as <-.
    simpl in Hsome. specialize (IH _ Hsome m' Hm'). by rewrite fold_rows_keys in IH.
  - intros H. rewrite standings_fold_rows by done. by eexists.
Qed.

Lemma folded_confirmed up db m : m ∈ folded up db → both_confirmed m.
Proof. unfold folded. intros H%list_elem_of_filter. tauto. Qed.

Section StandingsMore.
Variable str_lower : string → string.

Lemma standings_Some_iff db up :
  is_Some (_standings str_lower db up) ↔ participants_on_roster up db.
Proof.
  unfold _standings. cbv zeta. rewrite standings_where_folded.
  set (players := sort_by _ (filter _ (users db))).
  set (stats0 := foldl (λ d u, dict_set (user_id u) (init_row u) d) [] players).
  set (selected := sort_by standings_order_le (folded up db)).
  assert (Hkeys : ∀ k, k ∈ stats0.*1 ↔ k ∈ user_id <$> roster db).
  { intros k. unfold stats0. rewrite dict_build_keys. simpl. rewrite elem_of_nil.
    unfold players. rewrite sort_by_perm. unfold roster. tauto. }
  transitivity (is_Some (for_each (standings_step up) stats0 selected)).
  { destruct (for_each _ stats0 selected); simpl; split; intros [? ?]; try done; by eexists. }
  rewrite standings_fold_Some. unfold participants_on_roster. rewrite Forall_forall.
  split.
  - intros H m Hm. rewrite <- !Hkeys. apply H. unfold selected. by rewrite sort_by_elem_of.
  - intros H m Hm. unfold selected in Hm. rewrite sort_by_elem_of in Hm.
    rewrite !Hkeys. split; [by eapply folded_confirmed|]. by apply H.
Qed.

(** X10. The standings computation fails (KeyError) exactly when some confirmed match
    within the round filter has a participant who is not a user with role player. *)
Theorem standings_raises_iff db up :
  _standings str_lower db up = None
  ↔ ∃ m, m ∈ matches db ∧ both_confirmed m ∧ round_in_scope up m ∧
         (match_player1_id m ∉ user_id <$> roster db ∨
          match_player2_id m ∉ user_id <$> roster db).
Proof.
  rewrite eq_None_not_Some, standings_Some_iff.
  unfold participants_on_roster, folded. split.
  - intros Hn. apply not_Forall_Exists in Hn; [|apply _].
    apply Exists_exists in Hn as (m & Hm & Hno). simpl in Hno.
    apply list_elem_of_filter in Hm as [[Hc Hs] Hm].
    exists m. split_and!; try done.
    destruct (decide (match_player1_id m ∈ user_id <$> roster db)); [|by left].
    destruct (decide (match_player2_id m ∈ user_id <$> roster db)); [|by right].
    tauto.
  - intros (m & Hm & Hc & Hs & Hno) HF.
    assert (m ∈ filter (λ m, both_confirmed m ∧ round_in_scope up m) (matches db)) as Hin.
    { by apply list_elem_of_filter. }
    pose proof (proj1 (Forall_forall _ _) HF m Hin) as H. simpl in H. tauto.
Qed.

End StandingsMore.

(** ** The round filter at or past the last round *)

Lemma zero_round_points_bump k pid f row :
  (∀ r, zero_round_points (f r) = f (zero_round_points r)) →
  zero_round_points (bump k pid f row) = bump k pid f (zero_round_points row).
Proof. intros Hf. unfold bump. case_bool_decide; auto. Qed.

Lemma zero_round_points_bump_round k pid n row :
  zero_round_points (bump k pid (add_round_points n) row) = zero_round_points row.
Proof. unfold bump. by case_bool_decide. Qed.

Lemma zero_fold_row up k row m :
  zero_round_points (fold_row up k row m) = fold_row None k (zero_round_points row) m.
Proof.
  unfold fold_row.
  destruct (match_confirmed_score1 m) as [score1|]; [|done].
  destruct (match_confirmed_score2 m) as [score2|]; [|done].
  unfold step_row. cbv zeta.
  rewrite (bool_decide_eq_false_2 (None = Some (match_round_number m))) by done.
  destruct (score1 >? score2); [|destruct (score2 >? score1)];
    destruct (bool_decide (up = Some (match_round_number m)));
    repeat first [ rewrite zero_round_points_bump_round
                 | rewrite zero_round_points_bump by done ];
    done.
Qed.

Lemma zero_foldl_fold_row up k ms row :
  zero_round_points (foldl (fold_row up k) row ms)
  = foldl (fold_row None k) (zero_round_points row) ms.
Proof.
  revert row. induction ms as [|m ms IH]; intros row; simpl; [done|].
  by rewrite IH, zero_fold_row.
Qed.

Lemma insert_by_fmap {A B} (f : A → B) (leA : A → A → bool) (leB : B → B → bool) x l :
  (∀ x y, leB (f x) (f y) = leA x y) →
  insert_by leB (f x) (f <$> l) = f <$> insert_by leA x l.
Proof.
  intros Hle. induction l as [|y l IH]; [done|].
  rewrite fmap_cons. cbn [insert_by]. rewrite Hle.
  destruct (leA x y); [done|]. by rewrite IH.
Qed.

Lemma sort_by_fmap {A B} (f : A → B) (leA : A → A → bool) (leB : B → B → bool) l :
  (∀ x y, leB (f x) (f y) = leA x y) →
  sort_by leB (f <$> l) = f <$> sort_by leA l.
Proof.
  intros Hle. unfold sort_by. induction l as [|x l IH]; [done|].
  rewrite fmap_cons. cbn [foldr]. rewrite IH. by apply insert_by_fmap.
Qed.

Lemma dict_build_values (players : list UserRow) (d : dict) e :
  e ∈ foldl (λ d u, dict_set (user_id u) (init_row u) d) d players →
  e ∈ d ∨ ∃ u, u ∈ players ∧ e.2 = init_row u.
Proof.
  revert d. induction players as [|u players IH]; intros d; simpl; [by left|].
  intros [He|(u' & Hu' & He)]%IH.
  - clear IH. unfold dict_set in He. case_bool_decide.
    + apply list_elem_of_fmap in He as ([k v] & -> & He). simpl.
      case_bool_decide; [|by left]. right. exists u. split; [left|done].
    + apply elem_of_app in He as [He|He]; [by left|].
      apply list_elem_of_singleton in He. subst e. right. exists u. split; [left|done].
  - right. exists u'. split; [by right|done].
Qed.

Lemma folded_past_last db R :
  (∀ m, m ∈ matches db → both_confirmed m → match_round_number m ≤ R) →
  folded (Some R) db = folded None db.
Proof.
  intros HR. unfold folded.
  induction (matches db) as [|m ms IH]; [done|].
  rewrite !filter_cons. rewrite IH by (intros; apply HR; [by right|done]).
  destruct (decide (both_confirmed m)) as [Hc|Hc].
  - rewrite !decide_True; [done|done|]. split; [done|]. simpl. apply HR; [left|done].
  - rewrite !decide_False; tauto.
Qed.

Section StandingsLast.
Variable str_lower : string → string.

(** X11. If no confirmed match has a round after R, the standings up to round R with the
    round_points column set to 0 are the unfiltered standings (and both fail together). *)
Theorem standings_final_round db R :
  (∀ m, m ∈ matches db → both_confirmed m → match_round_number m ≤ R) →
  (λ rows : list StandingRowDto, clear_round_points <$> rows)
    <$> _standings str_lower db (Some R)
  = _standings str_lower db None.
Proof.
  intros HR. pose proof (folded_past_last db R HR) as Hfold.
  destruct (decide (participants_on_roster None db)) as [Hp|Hp].
  2: { assert (¬ participants_on_roster (Some R) db) as Hp'.
       { unfold participants_on_roster. by rewrite Hfold. }
       rewrite <- (standings_Some_iff str_lower), <- eq_None_not_Some in Hp, Hp'.
       by rewrite Hp, Hp'. }
  assert (participants_on_roster (Some R) db) as Hp'.
  { unfold participants_on_roster. by rewrite Hfold. }
  unfold _standings. cbv zeta. rewrite !standings_where_folded, Hfold.
  set (players := sort_by _ (filter _ (users db))).
  set (stats0 := foldl (λ d u, dict_set (user_id u) (init_row u) d) [] players).
  set (selected := sort_by standings_order_le (folded None db)).
  assert (Hsel : ∀ m, m ∈ selected → both_confirmed m ∧
            match_player1_id m ∈ stats0.*1 ∧ match_player2_id m ∈ stats0.*1).
  { intros m Hm. unfold selected in Hm. rewrite sort_by_elem_of in Hm.
    split; [by eapply folded_confirmed|].
    assert (Hkeys : ∀ k, k ∈ user_id <$> roster db → k ∈ stats0.*1).
    { intros k Hk. unfold stats0. rewrite dict_build_keys. right.
      unfold players. by rewrite sort_by_perm. }
    pose proof (proj1 (Forall_forall _ _) Hp m Hm) as [H1 H2]. auto. }
  rewrite !standings_fold_rows by done. simpl. f_equal.
  symmetry. rewrite fmap_imap.
  set (key_le := λ r1 r2 : StatRow,
         rank_key_le (rank_key str_lower r1) (rank_key str_lower r2)).
  assert (dict_values ((λ e : Z * StatRow, (e.1, foldl (fold_row None e.1) e.2 selected))
                         <$> stats0)
          = zero_round_points
              <$> dict_values ((λ e : Z * StatRow,
                                  (e.1, foldl (fold_row (Some R) e.1) e.2 selected))
                                 <$> stats0)) as ->.
  { unfold dict_values. rewrite <- !list_fmap_compose.
    apply list_fmap_ext. intros i e He. simpl.
    rewrite zero_foldl_fold_row. f_equal.
    apply list_elem_of_lookup_2, dict_build_values in He as [He|(u & _ & ->)]; [|done].
    by apply elem_of_nil in He. }
  rewrite (sort_by_fmap zero_round_points key_le key_le) by done.
  rewrite imap_fmap. apply imap_ext. done.
Qed.

End StandingsLast.

(** ** Column totals of the standings *)

Lemma sumZ_fmap {A B} (f : B → Z) (g : A → B) (l : list A) :
  sumZ f (g <$> l) = sumZ (λ x, f (g x)) l.
Proof.
  induction l as [|x l IH]; [done|].
  rewrite fmap_cons. unfold sumZ in *. cbn [foldr]. by rewrite IH.
Qed.

Lemma sumZ_ext {A} (f g : A → Z) (l : list A) :
  (∀ x, x ∈ l → f x = g x) → sumZ f l = sumZ g l.
Proof.
  induction l as [|x l IH]; intros H; simpl; [done|].
  rewrite (H x) by left. rewrite IH; [done|]. intros y Hy. apply H. by right.
Qed.

Lemma sumZ_plus {A} (f g : A → Z) (l : list A) :
  sumZ (λ x, f x + g x) l = sumZ f l + sumZ g l.
Proof. induction l as [|x l IH]; simpl; [done|]. rewrite IH. lia. Qed.

Lemma sumZ_minus {A} (f g : A → Z) (l : list A) :
  sumZ (λ x, f x - g x) l = sumZ f l - sumZ g l.
Proof. induction l as [|x l IH]; simpl; [done|]. rewrite IH. lia. Qed.

Lemma sumZ_scale {A} (f : A → Z) (c : Z) (l : list A) :
  sumZ (λ x, f x * c) l = sumZ f l * c.
Proof. induction l as [|x l IH]; simpl; [done|]. rewrite IH. lia. Qed.

Lemma sumZ_const {A} (c : Z) (l : list A) : sumZ (λ _, c) l = c * Z.of_nat (length l).
Proof. induction l as [|x l IH]; simpl; [lia|]. rewrite IH. lia. Qed.

Lemma sumZ_swap {A B} (h : A → B → Z) (l1 : list A) (l2 : list B) :
  sumZ (λ x, sumZ (λ y, h x y) l2) l1 = sumZ (λ y, sumZ (λ x, h x y) l1) l2.
Proof.
  induction l1 as [|x l1 IH]; simpl.
  - by rewrite sumZ_zero.
  - rewrite IH. by rewrite <- sumZ_plus.
Qed.

Lemma sumZ_count {A} (P : A → Prop) `{∀ x, Decision (P x)} (l : list A) :
  sumZ (λ x, if bool_decide (P x) then 1 else 0) l = Z.of_nat (length (filter P l)).
Proof.
  induction l as [|x l IH]; simpl; [done|]. rewrite filter_cons, IH.
  case_bool_decide; [rewrite decide_True by done|rewrite decide_False by done]; simpl; lia.
Qed.

Lemma sumZ_one_key (p : Z) (ids : list Z) :
  NoDup ids → p ∈ ids → sumZ (λ k, if bool_decide (p = k) then 1 else 0) ids = 1.
Proof.
  intros Hnd Hp. induction Hnd as [|x l Hx Hnd IH]; [by apply elem_of_nil in Hp|].
  simpl. apply elem_of_cons in Hp as [->|Hp].
  - rewrite bool_decide_eq_true_2 by done. rewrite sumZ_zero; [done|].
    intros y Hy. rewrite bool_decide_eq_false_2; [done|]. by intros <-.
  - rewrite bool_decide_eq_false_2 by (intros ->; done). by rewrite IH.
Qed.

Lemma sumZ_sides (m : MatchRow) (a b : Z) (ids : list Z) :
  NoDup ids → match_player1_id m ∈ ids → match_player2_id m ∈ ids →
  sumZ (λ k, on_side1 k m * a + on_side2 k m * b) ids = a + b.
Proof.
  intros Hnd H1 H2. rewrite sumZ_plus, !sumZ_scale. unfold on_side1, on_side2.
  rewrite !sumZ_one_key by done. lia.
Qed.

Section StandingsTotals.
Variable str_lower : string → string.

(** X12. In every standings table (unique user ids, confirmed matches between players of
    the roster) the played column sums to twice the number of counted matches, wins sum
    to losses, draws to twice the number of drawn matches, goals for to goals against,
    goal differences to 0, and points to 3 per counted match minus 1 per drawn match. *)
Theorem standings_totals db up :
  NoDup (user_id <$> users db) →
  participants_on_roster up db →
  ∃ rows, _standings str_lower db up = Some rows ∧
    sumZ sr_played rows = 2 * Z.of_nat (length (folded up db)) ∧
    sumZ sr_wins rows = sumZ sr_losses rows ∧
    sumZ sr_draws rows = 2 * Z.of_nat (length (filter drawn (folded up db))) ∧
    sumZ sr_goals_for rows = sumZ sr_goals_against rows ∧
    sumZ sr_goal_difference rows = 0 ∧
    sumZ sr_points rows
    = 3 * Z.of_nat (length (folded up db)) - Z.of_nat (length (filter drawn (folded up db))).
Proof.
  intros Hnd Hpart.
  destruct (standings_rows str_lower db up Hnd Hpart) as (rows & Hrows & Hperm & Htal & _).
  exists rows. split; [done|].
  set (ids := user_id <$> roster db).
  assert (Hids : NoDup ids).
  { unfold ids, roster. eapply sublist_NoDup; [exact Hnd|].
    apply fmap_sublist, sublist_filter. }
  assert (Hcol : ∀ (col : StandingRowDto → Z) (contrib : Z → MatchRow → Z),
            (∀ row u, row_tallied up db u row →
                      col row = sumZ (contrib (user_id u)) (folded up db)) →
            sumZ col rows
            = sumZ (λ m, sumZ (λ k, contrib k m) ids) (folded up db)).
  { intros col contrib Hc.
    rewrite <- sumZ_swap.
    rewrite <- (sumZ_perm _ _ _ Hperm), sumZ_fmap.
    apply sumZ_ext. intros row Hrow.
    destruct (Htal row Hrow) as (u & Hu & Ht).
    rewrite (Hc row u Ht). by destruct Ht as [-> _ _ _ _ _ _ _ _ _ _ _]. }
  assert (Hside : ∀ (contrib : Z → MatchRow → Z) (a b : MatchRow → Z),
            (∀ k m, contrib k m = on_side1 k m * a m + on_side2 k m * b m) →
            sumZ (λ m, sumZ (λ k, contrib k m) ids) (folded up db)
            = sumZ (λ m, a m + b m) (folded up db)).
  { intros contrib a b Hc. apply sumZ_ext. intros m Hm.
    pose proof (proj1 (Forall_forall _ _) Hpart m Hm) as [H1 H2].
    rewrite <- (sumZ_sides m (a m) (b m) ids) by done.
    apply sumZ_ext. intros k _. apply Hc. }
  assert (Hplayed : sumZ sr_played rows = 2 * Z.of_nat (length (folded up db))).
  { rewrite (Hcol sr_played played_in) by (by intros row u []).
    rewrite (Hside played_in (λ _, 1) (λ _, 1)) by (intros; unfold played_in; lia).
    apply sumZ_const. }
  assert (Hwins : sumZ sr_wins rows
                  = sumZ (λ m, (if score_side1 m >? score_side2 m then 1 else 0)
                               + (if score_side2 m >? score_side1 m then 1 else 0))
                         (folded up db)).
  { rewrite (Hcol sr_wins wins_in) by (by intros row u []).
    by apply Hside. }
  assert (Hlosses : sumZ sr_losses rows
                    = sumZ (λ m, (if score_side2 m >? score_side1 m then 1 else 0)
                                 + (if score_side1 m >? score_side2 m then 1 else 0))
                           (folded up db)).
  { rewrite (Hcol sr_losses losses_in) by (by intros row u []).
    by apply Hside. }
  assert (Hdraws : sumZ sr_draws rows
                   = 2 * Z.of_nat (length (filter drawn (folded up db)))).
  { rewrite (Hcol sr_draws draws_in) by (by intros row u []).
    rewrite (Hside draws_in (λ m, if score_side1 m =? score_side2 m then 1 else 0)
                            (λ m, if score_side1 m =? score_side2 m then 1 else 0))
      by (intros; unfold draws_in; lia).
    rewrite <- sumZ_count, <- (Z.mul_comm _ 2), <- sumZ_scale.
    apply sumZ_ext. intros m _. unfold drawn.
    case_bool_decide; destruct (Z.eqb_spec (score_side1 m) (score_side2 m)); lia. }
  assert (Hgf : sumZ sr_goals_for rows
                = sumZ (λ m, score_side1 m + score_side2 m) (folded up db)).
  { rewrite (Hcol sr_goals_for goals_for_in) by (by intros row u []).
    by apply Hside. }
  assert (Hga : sumZ sr_goals_against rows
                = sumZ (λ m, score_side2 m + score_side1 m) (folded up db)).
  { rewrite (Hcol sr_goals_against goals_against_in) by (by intros row u []).
    by apply Hside. }
  assert (Hpts : sumZ sr_points rows
                 = 3 * Z.of_nat (length (folded up db))
                   - Z.of_nat (length (filter drawn (folded up db)))).
  { rewrite (Hcol sr_points points_in) by (by intros row u []).
    rewrite (Hside points_in (λ m, points_for (score_side1 m) (score_side2 m))
                             (λ m, points_for (score_side2 m) (score_side1 m)))
      by done.
    rewrite <- sumZ_count, <- sumZ_const, <- sumZ_minus.
    apply sumZ_ext. intros m _. unfold drawn, points_for.
    case_bool_decide;
      destruct (Z.gtb_spec (score_side1 m) (score_side2 m));
      destruct (Z.gtb_spec (score_side2 m) (score_side1 m)); lia. }
  split_and!; try done.
  - rewrite Hwins, Hlosses. apply sumZ_ext. intros; lia.
  - rewrite Hgf, Hga. apply sumZ_ext. intros; lia.
  - transitivity (sumZ (λ row, sr_goals_for row - sr_goals_against row) rows).
    + apply sumZ_ext. intros row Hrow. destruct (Htal row Hrow) as (u & _ & Ht).
      by destruct Ht.
    + rewrite sumZ_minus, Hgf, Hga.
      assert (sumZ (λ m, score_side1 m + score_side2 m) (folded up db)
              = sumZ (λ m, score_side2 m + score_side1 m) (folded up db)) as ->; [|lia].
      apply sumZ_ext. intros; lia.
Qed.

End StandingsTotals.

(** ** Standings by round *)

Lemma distinct_rounds_sorted db : StronglySorted Z.lt (distinct_rounds db).
Proof. apply sort_keys_lt, NoDup_remove_dups. Qed.

Lemma distinct_rounds_elem db k :
  k ∈ distinct_rounds db ↔ ∃ m, m ∈ matches db ∧ match_round_number m = k.
Proof.
  unfold distinct_rounds. rewrite sort_by_elem_of, elem_of_remove_dups, list_elem_of_fmap.
  split; intros (m & ? & ?); eauto.
Qed.

Lemma sorted_lt_ext (l1 l2 : list Z) :
  StronglySorted Z.lt l1 → StronglySorted Z.lt l2 → (∀ k, k ∈ l1 ↔ k ∈ l2) → l1 = l2.
Proof.
  intros H1. revert l2. induction H1 as [|x l1 H1 IH Hx]; intros l2 H2 Hiff.
  - destruct l2 as [|y l2]; [done|]. exfalso.
    apply (elem_of_nil y), Hiff. left.
  - destruct H2 as [|y l2 H2 Hy].
    + exfalso. apply (elem_of_nil x), Hiff. left.
    + pose proof (proj1 (Forall_forall _ _) Hx) as Hx'.
      pose proof (proj1 (Forall_forall _ _) Hy) as Hy'.
      assert (x = y) as ->.
      { pose proof (proj1 (Hiff x) ltac:(left)) as [->|Hin]%elem_of_cons; [done|].
        pose proof (proj2 (Hiff y) ltac:(left)) as [->|Hin']%elem_of_cons; [done|].
        specialize (Hx' _ Hin'). specialize (Hy' _ Hin). lia. }
      f_equal. apply IH; [done|]. intros k. split; intros Hk.
      * pose proof (proj1 (Hiff k) ltac:(by right)) as [->|?]%elem_of_cons; [|done].
        specialize (Hx' _ Hk). lia.
      * pose proof (proj2 (Hiff k) ltac:(by right)) as [->|?]%elem_of_cons; [|done].
        specialize (Hy' _ Hk). lia.
Qed.

Lemma pending_count_complete db k :
  (Z.of_nat (length (filter (λ m, match_round_number m = k ∧ is_pending m) (matches db)))
   =? 0) = bool_decide (round_complete db k).
Proof.
  apply eq_true_iff_eq. rewrite Z.eqb_eq, bool_decide_eq_true.
  unfold round_complete. split.
  - intros Hlen m Hm Hk. destruct (decide (both_confirmed m)) as [|Hn]; [done|]. exfalso.
    assert (m ∈ filter (λ m, match_round_number m = k ∧ is_pending m) (matches db)) as Hin.
    { apply list_elem_of_filter. split; [|done]. split; [done|].
      by apply Is_true_true, is_pending_not_confirmed. }
    destruct (filter _ (matches db)); [by apply elem_of_nil in Hin|]. simpl in Hlen. lia.
  - intros Hall. rewrite filter_none; [done|].
    intros m Hm [Hk Hp]. apply Is_true_true, is_pending_not_confirmed in Hp.
    by apply Hp, Hall.
Qed.

Lemma participants_weaken db up :
  participants_on_roster None db → participants_on_roster up db.
Proof.
  unfold participants_on_roster, folded. rewrite !Forall_forall.
  intros H m Hm. apply H. apply list_elem_of_filter in Hm as [[Hc _] Hm].
  by apply list_elem_of_filter.
Qed.

Lemma for_each_raises {S A} (body : S → A → option S) (xs : list A) (x : A) (s : S) :
  x ∈ xs → (∀ s, body s x = None) → for_each body s xs = None.
Proof.
  intros Hx Hbody. revert s. induction xs as [|y xs IH]; intros s.
  { by apply elem_of_nil in Hx. }
  simpl. apply elem_of_cons in Hx as [<-|Hx]; [by rewrite Hbody|].
  destruct (body s y); simpl; auto.
Qed.

Section StandingsByRoundFacts.
Variable str_lower : string → string.

Lemma standings_by_round_Some db :
  participants_on_roster None db →
  ∃ out, _standings_by_round str_lower db = Some out ∧
    (λ e, (rs_round_number e, rs_is_complete e)) <$> out = round_flags db ∧
    ∀ e, e ∈ out → _standings str_lower db (Some (rs_round_number e)) = Some (rs_standings e).
Proof.
  intros Hp. unfold _standings_by_round. cbv zeta.
  set (entry := λ k : Z,
         standings ← _standings str_lower db (Some k);
         Some {| rs_round_number := k;
                 rs_is_complete :=
                   Z.of_nat (length (filter (λ m, match_round_number m = k ∧ is_pending m)
                                            (matches db))) =? 0;
                 rs_standings := standings |}).
  rewrite (for_each_ext _ (λ acc x, y ← entry x; Some (acc ++ [y]))).
  2: { intros acc k. unfold entry. simpl. by destruct (_standings _ _ _). }
  rewrite for_each_collect_nil.
  assert (Hst : ∀ k, is_Some (_standings str_lower db (Some k))).
  { intros k. apply standings_Some_iff. by apply participants_weaken. }
  set (mk := λ k : Z,
         {| rs_round_number := k;
            rs_is_complete := bool_decide (round_complete db k);
            rs_standings := default [] (_standings str_lower db (Some k)) |}).
  rewrite (mapM_total _ mk).
  2: { intros k _. unfold entry, mk. destruct (Hst k) as [rows ->]. simpl.
       by rewrite pending_count_complete. }
  eexists. split; [done|]. split.
  - unfold round_flags. rewrite <- list_fmap_compose. by apply list_fmap_ext.
  - intros e (k & -> & _)%list_elem_of_fmap. unfold mk. simpl.
    by destruct (Hst k) as [rows ->].
Qed.

Lemma standings_by_round_None db :
  ¬ participants_on_roster None db → _standings_by_round str_lower db = None.
Proof.
  intros Hp.
  apply not_Forall_Exists in Hp; [|apply _].
  apply Exists_exists in Hp as (m & Hm & Hno). simpl in Hno.
  assert (_standings str_lower db (Some (match_round_number m)) = None) as Hnone.
  { apply eq_None_not_Some. rewrite standings_Some_iff. intros Hp.
    apply Hno. apply (proj1 (Forall_forall _ _) Hp m).
    unfold folded in *. apply list_elem_of_filter in Hm as [[Hc _] Hm].
    apply list_elem_of_filter. split; [|done]. split; [done|]. simpl. lia. }
  assert (match_round_number m ∈ distinct_rounds db) as Hin.
  { apply distinct_rounds_elem. exists m. split; [|done].
    unfold folded in Hm. by apply list_elem_of_filter in Hm as [_ Hm]. }
  unfold _standings_by_round. cbv zeta.
  by apply for_each_raises with (match_round_number m); [|rewrite Hnone].
Qed.

(** X13. The standings by round fail exactly when some confirmed match has a participant
    who is not a user with role player. Otherwise there is one entry per round that has
    a match, in strictly increasing round order; an entry is flagged complete exactly
    when every match of its round is confirmed, and it holds the standings up to its
    round. *)
Theorem standings_by_round_spec db :
  (_standings_by_round str_lower db = None
   ↔ ∃ m, m ∈ matches db ∧ both_confirmed m ∧
          (match_player1_id m ∉ user_id <$> roster db ∨
           match_player2_id m ∉ user_id <$> roster db)) ∧
  (∀ out, _standings_by_round str_lower db = Some out →
     StronglySorted Z.lt (rs_round_number <$> out) ∧
     (∀ k, k ∈ rs_round_number <$> out ↔ ∃ m, m ∈ matches db ∧ match_round_number m = k) ∧
     ∀ e, e ∈ out →
       (rs_is_complete e = true ↔ round_complete db (rs_round_number e)) ∧
       _standings str_lower db (Some (rs_round_number e)) = Some (rs_standings e)).
Proof.
  destruct (decide (participants_on_roster None db)) as [Hp|Hp].
  - destruct (standings_by_round_Some db Hp) as (out & Hout & Hflags & Hst).
    assert (Hk : rs_round_number <$> out = distinct_rounds db).
    { transitivity ((round_flags db).*1).
      - rewrite <- Hflags, <- list_fmap_compose. by apply list_fmap_ext.
      - unfold round_flags. rewrite <- list_fmap_compose. apply list_fmap_id. }
    split.
    + rewrite Hout. split; [done|]. intros (m & Hm & Hc & Hno). exfalso.
      assert (m ∈ folded None db) as Hin.
      { unfold folded. by apply list_elem_of_filter. }
      pose proof (proj1 (Forall_forall _ _) Hp m Hin) as H. simpl in H. tauto.
    + intros out' Hout'. rewrite Hout in Hout'. injection Hout' as <-.
      rewrite Hk. split_and!.
      * apply distinct_rounds_sorted.
      * apply distinct_rounds_elem.
      * intros e He. split; [|by apply Hst].
        assert ((rs_round_number e, rs_is_complete e) ∈ round_flags db) as Hf.
        { rewrite <- Hflags. apply list_elem_of_fmap. eauto. }
        unfold round_flags in Hf. apply list_elem_of_fmap in Hf as (k & [= -> ->] & _).
        apply bool_decide_eq_true.
  - rewrite (standings_by_round_None db Hp). split; [|done].
    split; [|done]. intros _.
    apply not_Forall_Exists in Hp; [|apply _].
    apply Exists_exists in Hp as (m & Hm & Hno). simpl in Hno.
    unfold folded in Hm. apply list_elem_of_filter in Hm as [[Hc _] Hm].
    exists m. split_and!; try done.
    destruct (decide (match_player1_id m ∈ user_id <$> roster db)); [|by left].
    destruct (decide (match_player2_id m ∈ user_id <$> roster db)); [|by right].
    tauto.
Qed.

End StandingsByRoundFacts.

(** ** The three views of a round agree *)

Lemma fetch_matches_elem db uid dto :
  dto ∈ _fetch_matches db uid
  ↔ ∃ m row, m ∈ matches db ∧ row ∈ match_view_rows db uid m ∧ dto = _build_match_dto row.
Proof.
  unfold _fetch_matches. cbv zeta. rewrite list_elem_of_fmap. split.
  - intros (row & -> & Hrow). apply list_elem_of_bind in Hrow as (m & Hrow & Hm).
    apply sort_by_elem_of in Hm. eauto.
  - intros (m & row & Hm & Hrow & ->). exists row. split; [done|].
    apply list_elem_of_bind. exists m. split; [done|]. by apply sort_by_elem_of.
Qed.

Lemma build_match_dto_round row : dto_round_number (_build_match_dto row) = row_round_number row.
Proof. done. Qed.

Lemma fetch_rounds_keys db uid :
  players_exist db →
  sort_by Z.leb (foldl group_match [] (_fetch_matches db uid)).*1 = distinct_rounds db.
Proof.
  intros Hex. apply sorted_lt_ext.
  - apply sort_keys_lt, group_fold_NoDup. constructor.
  - apply distinct_rounds_sorted.
  - intros k. rewrite sort_by_elem_of, group_fold_keys, distinct_rounds_elem.
    simpl. rewrite elem_of_nil, list_elem_of_fmap. split.
    + intros [[]|(dto & -> & Hdto)].
      apply fetch_matches_elem in Hdto as (m & row & Hm & Hrow & ->).
      exists m. split; [done|]. symmetry. by eapply view_row_round.
    + intros (m & Hm & <-). right.
      pose proof (proj1 (Forall_forall _ _) Hex m Hm) as [H1 H2].
      destruct (view_rows_nonempty db uid m H1 H2) as (row & Hrow).
      exists (_build_match_dto row). split.
      * rewrite build_match_dto_round. symmetry. by eapply view_row_round.
      * apply fetch_matches_elem. eauto.
Qed.

Lemma round_group_complete db uid k :
  players_exist db →
  rd_is_complete (round_group (_fetch_matches db uid) k) = bool_decide (round_complete db k).
Proof.
  intros Hex. unfold round_group. simpl. apply eq_true_iff_eq.
  rewrite (bool_decide_eq_true (round_complete db k)), <- Is_true_true, forallb_True,
    Forall_forall.
  unfold round_complete. split.
  - intros Hall m Hm Hk.
    pose proof (proj1 (Forall_forall _ _) Hex m Hm) as [H1 H2].
    destruct (view_rows_nonempty db uid m H1 H2) as (row & Hrow).
    pose proof (build_match_dto_status db uid m row Hrow) as (_ & _ & _ & Hc & _).
    apply Hc.
    assert (_build_match_dto row
            ∈ filter (λ m, dto_round_number m = k) (_fetch_matches db uid)) as Hin.
    { apply list_elem_of_filter. split.
      - rewrite build_match_dto_round. rewrite <- Hk. by eapply view_row_round.
      - apply fetch_matches_elem. eauto. }
    apply Hall in Hin. by apply bool_decide_unpack in Hin.
  - intros Hall dto [Hk Hdto]%list_elem_of_filter.
    apply fetch_matches_elem in Hdto as (m & row & Hm & Hrow & ->).
    pose proof (build_match_dto_status db uid m row Hrow) as (_ & _ & _ & Hc & _).
    apply bool_decide_pack, Hc, Hall; [done|].
    rewrite <- Hk. simpl. symmetry. by eapply view_row_round.
Qed.

Lemma fetch_rounds_flags db uid :
  players_exist db →
  ∃ rs, _fetch_rounds db uid = Some rs ∧
    (λ r, (rd_round_number r, rd_is_complete r)) <$> rs = round_flags db.
Proof.
  intros Hex. eexists. split; [apply fetch_rounds_groups|]. cbv zeta.
  rewrite fetch_rounds_keys by done. unfold round_flags.
  rewrite <- list_fmap_compose. apply list_fmap_ext. intros i k _. unfold compose.
  by rewrite round_group_complete.
Qed.

Section ViewsAgree.
Variable str_lower : string → string.

(** X14. When both players of every match exist and the standings by round succeed, the
    rounds view and the standings by round list the same round numbers in the same order
    with the same completeness flags. *)
Theorem rounds_views_agree db user_id_param out :
  players_exist db →
  _standings_by_round str_lower db = Some out →
  ∃ rs, _fetch_rounds db user_id_param = Some rs ∧
    (λ r, (rd_round_number r, rd_is_complete r)) <$> rs
    = (λ e, (rs_round_number e, rs_is_complete e)) <$> out.
Proof.
  intros Hex Hout. destruct (fetch_rounds_flags db user_id_param Hex) as (rs & Hrs & Hflags).
  exists rs. split; [done|]. rewrite Hflags.
  destruct (decide (participants_on_roster None db)) as [Hp|Hp].
  - destruct (standings_by_round_Some str_lower db Hp) as (out' & Hout' & Hflags' & _).
    rewrite Hout in Hout'. by injection Hout' as <-.
  - by rewrite (standings_by_round_None str_lower db Hp) in Hout.
Qed.

End ViewsAgree.

Lemma head_filter_sorted (P : Z → Prop) `{∀ k, Decision (P k)} (l : list Z) (r : Z) :
  StronglySorted Z.lt l → r ∈ l → P r → (∀ k, k ∈ l → k < r → ¬ P k) →
  head (filter P l) = Some r.
Proof.
  intros Hs. induction Hs as [|x l Hs IH Hx]; intros Hr HP Hlt.
  { by apply elem_of_nil in Hr. }
  rewrite filter_cons. apply elem_of_cons in Hr as [->|Hr].
  - by rewrite decide_True.
  - pose proof (proj1 (Forall_forall _ _) Hx r Hr) as Hxr.
    rewrite decide_False by (apply Hlt; [left|done]).
    apply IH; [done|done|]. intros k Hk. apply Hlt. by right.
Qed.

Lemma last_sorted (l : list Z) (r : Z) :
  StronglySorted Z.lt l → r ∈ l → (∀ k, k ∈ l → k ≤ r) → last l = Some r.
Proof.
  intros Hs. induction Hs as [|x l Hs IH Hx]; intros Hr Hle.
  { by apply elem_of_nil in Hr. }
  destruct l as [|y l].
  - apply list_elem_of_singleton in Hr. by subst.
  - rewrite last_cons_cons. apply IH.
    + apply elem_of_cons in Hr as [->|Hr]; [|done].
      pose proof (proj1 (Forall_forall _ _) Hx y ltac:(left)).
      specialize (Hle y ltac:(right; left)). lia.
    + intros k Hk. apply Hle. by right.
Qed.

Lemma current_round_flags db :
  _current_round db
  = match filter (λ e, e.2 = false) (round_flags db) with
    | e :: _ => Some e.1
    | [] => fst <$> last (round_flags db)
    end.
Proof.
  assert (Hfilter : filter (λ e : Z * bool, e.2 = false) (round_flags db)
                    = (λ k, (k, false)) <$> filter (λ k, ¬ round_complete db k)
                                                   (distinct_rounds db)).
  { unfold round_flags. induction (distinct_rounds db) as [|k ks IH]; [done|].
    rewrite fmap_cons, !filter_cons. simpl. rewrite IH.
    destruct (decide (round_complete db k)) as [Hc|Hc].
    - rewrite bool_decide_eq_true_2 by done.
      rewrite decide_False by done. by rewrite decide_False by tauto.
    - rewrite bool_decide_eq_false_2 by done.
      rewrite decide_True by done. by rewrite decide_True by done. }
  rewrite Hfilter.
  unfold _current_round. cbv zeta.
  pose proof (sql_min_spec (match_round_number <$> filter (λ m, is_pending m) (matches db)))
    as Hmin.
  pose proof (sql_max_spec (match_round_number <$> matches db)) as Hmax.
  destruct (sql_min _) as [r|].
  - destruct Hmin as [Hr Hle].
    apply list_elem_of_fmap in Hr as (m0 & -> & Hm0).
    apply list_elem_of_filter in Hm0 as [Hp0 Hm0].
    apply Is_true_true, is_pending_not_confirmed in Hp0.
    assert (head (filter (λ k, ¬ round_complete db k) (distinct_rounds db))
            = Some (match_round_number m0)) as Hhead.
    { apply head_filter_sorted.
      - apply distinct_rounds_sorted.
      - apply distinct_rounds_elem. eauto.
      - intros Hc. by apply Hp0, Hc.
      - intros k _ Hk Hn. apply Hn. intros m Hm Hmk.
        destruct (decide (both_confirmed m)) as [|Hnc]; [done|]. exfalso.
        assert (match_round_number m0 ≤ match_round_number m); [|lia].
        apply Hle, list_elem_of_fmap. exists m. split; [done|].
        apply list_elem_of_filter. split; [|done].
        by apply Is_true_true, is_pending_not_confirmed. }
    destruct (filter _ (distinct_rounds db)) as [|k ks]; [done|].
    simpl in Hhead. injection Hhead as ->. done.
  - apply fmap_nil_inv in Hmin.
    assert (Hall : ∀ m, m ∈ matches db → both_confirmed m).
    { intros m Hm. destruct (decide (both_confirmed m)) as [|Hn]; [done|].
      exfalso. assert (m ∈ filter (λ m, is_pending m) (matches db)) as Hin.
      { apply list_elem_of_filter. split; [|done].
        by apply Is_true_true, is_pending_not_confirmed. }
      rewrite Hmin in Hin. by apply elem_of_nil in Hin. }
    rewrite filter_none by (intros k _ Hn; apply Hn; intros m Hm _; by apply Hall).
    simpl. unfold round_flags. rewrite fmap_last, <- option_fmap_compose.
    destruct (sql_max _) as [r|].
    + destruct Hmax as [Hr Hle].
      apply list_elem_of_fmap in Hr as (m0 & -> & Hm0).
      rewrite (last_sorted _ (match_round_number m0)); [done| | |].
      * apply distinct_rounds_sorted.
      * apply distinct_rounds_elem. eauto.
      * intros k (m & Hm & <-)%distinct_rounds_elem.
        apply Hle, list_elem_of_fmap. eauto.
    + apply fmap_nil_inv in Hmax. unfold distinct_rounds. by rewrite Hmax.
Qed.

Lemma filter_fmap {A B} (f : A → B) (P : B → Prop) `{∀ x, Decision (P x)} (l : list A) :
  filter P (f <$> l) = f <$> filter (λ x, P (f x)) l.
Proof.
  induction l as [|x l IH]; [done|].
  rewrite fmap_cons, !filter_cons, IH. by destruct (decide (P (f x))).
Qed.

(** X6. When both players of every match exist, the current round is the number of the
    first round of the rounds view that is not complete, or of its last round when all
    are complete (None when there is no round). *)
Theorem current_round_first_incomplete db user_id_param :
  players_exist db →
  ∃ rs, _fetch_rounds db user_id_param = Some rs ∧
    _current_round db
    = match filter (λ r, rd_is_complete r = false) rs with
      | r :: _ => Some (rd_round_number r)
      | [] => rd_round_number <$> last rs
      end.
Proof.
  intros Hex. destruct (fetch_rounds_flags db user_id_param Hex) as (rs & Hrs & Hflags).
  exists rs. split; [done|]. rewrite current_round_flags, <- Hflags.
  rewrite fmap_last, <- option_fmap_compose.
  rewrite (filter_fmap _ (λ e : Z * bool, e.2 = false)). simpl.
  destruct (filter _ rs) as [|r rs']; done.
Qed.

(** ** Points per round *)

Lemma setitem_keys {V} k (v : V) (d : list (Z * V)) :
  (setitem k v d).*1 = if bool_decide (k ∈ d.*1) then d.*1 else d.*1 ++ [k].
Proof.
  unfold setitem. case_bool_decide as Hk.
  - rewrite <- list_fmap_compose. apply list_fmap_ext. intros i [k' v'] _. simpl.
    by case_bool_decide.
  - by rewrite fmap_app.
Qed.

Lemma build_items {A V} (key : A → Z) (val : A → V) (l : list A) (d : list (Z * V)) :
  NoDup (d.*1 ++ (key <$> l)) →
  foldl (λ d x, setitem (key x) (val x) d) d l = d ++ ((λ x, (key x, val x)) <$> l).
Proof.
  revert d. induction l as [|x l IH]; intros d Hnd; simpl.
  { by rewrite app_nil_r. }
  assert (key x ∉ d.*1) as Hx.
  { apply NoDup_app in Hnd as (_ & Hd & _). intros Hk. apply (Hd _ Hk). left. }
  unfold setitem at 2. rewrite bool_decide_eq_false_2 by done.
  rewrite IH; [by rewrite <- app_assoc|].
  rewrite fmap_app, <- app_assoc. done.
Qed.

Lemma setitem_add (k t p : Z) (d : list (Z * Z)) :
  NoDup d.*1 → getitem k d = Some t →
  setitem k (t + p) d = (λ e, (e.1, e.2 + (if bool_decide (k = e.1) then p else 0))) <$> d.
Proof.
  intros Hnd Hget. pose proof (getitem_Some_elem _ _ _ Hget) as Hin.
  unfold setitem. rewrite bool_decide_eq_true_2.
  2: { apply list_elem_of_fmap. by exists (k, t). }
  apply list_fmap_ext. intros i [k' v'] Hi. simpl.
  case_bool_decide as Hk.
  - subst k'. rewrite bool_decide_eq_true_2 by done. f_equal.
    apply list_elem_of_lookup in Hin as (j & Hj).
    assert (i = j) as ->.
    { eapply NoDup_lookup; [exact Hnd| |].
      - rewrite list_lookup_fmap, Hi. done.
      - rewrite list_lookup_fmap, Hj. done. }
    rewrite Hi in Hj. by injection Hj as ->.
  - rewrite bool_decide_eq_false_2 by done. f_equal. lia.
Qed.

Lemma fmap_values_keys {V W} (f : Z → V → W) (d : list (Z * V)) :
  ((λ e, (e.1, f e.1 e.2)) <$> d).*1 = d.*1.
Proof. rewrite <- list_fmap_compose. by apply list_fmap_ext. Qed.

Lemma getitem_is_Some {V} k (d : list (Z * V)) : k ∈ d.*1 → is_Some (getitem k d).
Proof.
  intros Hk. destruct (getitem k d) eqn:E; [by eexists|].
  by apply getitem_None in E.
Qed.

Lemma round_points_step_rows (totals : list (Z * Z)) m :
  NoDup totals.*1 → both_confirmed m →
  match_player1_id m ∈ totals.*1 → match_player2_id m ∈ totals.*1 →
  round_points_step totals m = Some ((λ e, (e.1, e.2 + points_in e.1 m)) <$> totals).
Proof.
  intros Hnd [Hs1 Hs2] Hp1 Hp2. unfold round_points_step, points_in, on_side1, on_side2,
    score_side1, score_side2.
  destruct (match_confirmed_score1 m) as [score1|]; [|done].
  destruct (match_confirmed_score2 m) as [score2|]; [|done]. simpl.
  rewrite match_points_for.
  destruct (getitem_is_Some _ _ Hp1) as [t1 Ht1]. rewrite Ht1. simpl.
  rewrite (setitem_add _ _ _ _ Hnd Ht1).
  set (totals1 := (λ e : Z * Z, (e.1, e.2 + _)) <$> totals).
  assert (Hk1 : totals1.*1 = totals.*1).
  { unfold totals1. rewrite <- list_fmap_compose. by apply list_fmap_ext. }
  destruct (getitem_is_Some (match_player2_id m) totals1) as [t2 Ht2].
  { by rewrite Hk1. }
  rewrite Ht2. simpl.
  rewrite (setitem_add _ _ _ totals1) by (by rewrite ?Hk1).
  f_equal. unfold totals1. rewrite <- list_fmap_compose.
  apply list_fmap_ext. intros i [k v] _. simpl. f_equal.
  repeat case_bool_decide; lia.
Qed.

Lemma round_points_fold_rows (totals : list (Z * Z)) ms :
  NoDup totals.*1 →
  (∀ m, m ∈ ms → both_confirmed m ∧
                 match_player1_id m ∈ totals.*1 ∧ match_player2_id m ∈ totals.*1) →
  for_each round_points_step totals ms
  = Some ((λ e, (e.1, e.2 + sumZ (points_in e.1) ms)) <$> totals).
Proof.
  revert totals. induction ms as [|m ms IH]; intros totals Hnd Hms; simpl.
  { f_equal. rewrite <- (list_fmap_id totals) at 1. apply list_fmap_ext.
    intros _ [??] _. simpl. f_equal. lia. }
  destruct (Hms m) as (Hc & Hp1 & Hp2); [left|].
  rewrite round_points_step_rows by done. simpl.
  assert (((λ e : Z * Z, (e.1, e.2 + points_in e.1 m)) <$> totals).*1 = totals.*1) as Hk.
  { rewrite <- list_fmap_compose. by apply list_fmap_ext. }
  rewrite IH.
  - f_equal. rewrite <- list_fmap_compose. apply list_fmap_ext.
    intros _ [??] _. simpl. f_equal. lia.
  - by rewrite Hk.
  - intros m' Hm'. rewrite Hk. apply Hms. by right.
Qed.

Lemma confirmed_filter db k :
  filter (λ m, match_round_number m = k ∧
               match_confirmed_score1 m ≠ None ∧ match_confirmed_score2 m ≠ None)
         (matches db)
  = confirmed_in_round db k.
Proof. unfold confirmed_in_round, both_confirmed. apply list_filter_iff. tauto. Qed.

Section RoundPointsFacts.
Variable str_lower : string → string.

Lemma round_points_key_ranks a b :
  pair_le Z.ltb String.leb (round_points_key str_lower a) (round_points_key str_lower b) = true →
  round_ranks_before str_lower a b.
Proof.
  unfold round_points_key, round_ranks_before, pair_le. simpl.
  destruct (Z.ltb_spec (- prp_points a) (- prp_points b)); [left; lia|].
  destruct (Z.ltb_spec (- prp_points b) (- prp_points a)); [done|].
  intros Hle. right. split; [lia|done].
Qed.

Lemma round_points_rows db :
  NoDup (user_id <$> users db) →
  participants_on_roster None db →
  let players :=
    sort_by (λ u1 u2, String.leb (user_display_name u1) (user_display_name u2)) (roster db) in
  _round_points str_lower db
  = Some ((λ k, {| rp_round_number := k;
                   rp_points :=
                     sort_by (λ r1 r2, pair_le Z.ltb String.leb
                                         (round_points_key str_lower r1)
                                         (round_points_key str_lower r2))
                             (round_rows db players k) |})
            <$> distinct_rounds db).
Proof.
  intros Hnd Hpart players. unfold _round_points. cbv zeta. fold (roster db). fold players.
  assert (players ≡ₚ roster db) as Hplayers by apply sort_by_perm.
  assert (NoDup (user_id <$> players)) as Hndp.
  { rewrite Hplayers. unfold roster.
    eapply sublist_NoDup; [exact Hnd|]. apply fmap_sublist, sublist_filter. }
  rewrite (build_items user_id user_display_name players []) by (by rewrite app_nil_l).
  rewrite app_nil_l.
  set (player_names := (λ x, (user_id x, user_display_name x)) <$> players).
  assert (Hnames : player_names.*1 = user_id <$> players).
  { unfold player_names. rewrite <- list_fmap_compose. by apply list_fmap_ext. }
  rewrite Hnames.
  assert (foldl (λ d player_id, setitem player_id 0 d) [] (user_id <$> players)
          = (λ u, (user_id u, 0)) <$> players) as ->.
  { pose proof (build_items (V:=Z) id (λ _, 0) (user_id <$> players) []) as Hb.
    rewrite app_nil_l, list_fmap_id in Hb. simpl in Hb. rewrite (Hb Hndp).
    rewrite <- list_fmap_compose. done. }
  set (totals0 := (λ u, (user_id u, 0)) <$> players).
  assert (Hkeys : totals0.*1 = user_id <$> players).
  { unfold totals0. rewrite <- list_fmap_compose. by apply list_fmap_ext. }
  set (entry := λ k : Z,
         Some {| rp_round_number := k;
                 rp_points :=
                   sort_by (λ r1 r2, pair_le Z.ltb String.leb
                                       (round_points_key str_lower r1)
                                       (round_points_key str_lower r2))
                           (round_rows db players k) |}).
  rewrite (for_each_ext _ (λ acc x, y ← entry x; Some (acc ++ [y]))).
  { rewrite for_each_collect_nil. by apply mapM_total. }
  intros acc k. unfold entry. simpl. rewrite confirmed_filter.
  rewrite round_points_fold_rows.
  2: { by rewrite Hkeys. }
  2: { intros m Hm. unfold confirmed_in_round in Hm.
       apply list_elem_of_filter in Hm as [[Hc Hk] Hm].
       split; [done|]. rewrite Hkeys, Hplayers.
       apply (proj1 (Forall_forall _ _) Hpart m).
       unfold folded. by apply list_elem_of_filter. }
  simpl.
  rewrite (mapM_total _ (λ e : Z * Z,
             {| prp_player_id := e.1;
                prp_display_name :=
                  default EmptyString (getitem e.1 player_names);
                prp_points := e.2 |})).
  2: { intros [pid pts] He. simpl.
       destruct (getitem_is_Some pid player_names) as [name ->]; [|done].
       rewrite Hnames, <- Hkeys.
       apply list_elem_of_fmap in He as (e & [= -> ->] & He).
       apply list_elem_of_fmap. by exists e. }
  match goal with
  | |- Some ?x ≫= _ = _ => assert (x = round_rows db players k) as ->; [|done]
  end.
  unfold round_rows, totals0.
  rewrite <- !list_fmap_compose. apply list_fmap_ext. intros i u Hu. simpl.
  f_equal.
  assert (getitem (user_id u) player_names = Some (user_display_name u)) as ->; [|done].
  unfold player_names.
  pose proof (getitem_is_Some (user_id u) player_names) as [name Hname].
  { rewrite Hnames. apply list_elem_of_fmap. exists u. split; [done|].
    by eapply list_elem_of_lookup_2. }
  unfold player_names in Hname. rewrite Hname. f_equal.
  apply getitem_Some_elem, list_elem_of_fmap in Hname as (u' & [= Hid ->] & Hu').
  apply list_elem_of_lookup in Hu' as (j & Hj).
  assert (i = j) as ->.
  { eapply NoDup_lookup; [exact Hndp| |].
    - rewrite list_lookup_fmap, Hu. done.
    - rewrite list_lookup_fmap, Hj. simpl. by rewrite Hid. }
  rewrite Hu in Hj. by injection Hj as ->.
Qed.

(** X15. With unique user ids and confirmed matches between players of the roster, the
    round-points view has one entry per round that has a match, in increasing round
    order; each entry lists every player of the roster once, with the points earned in
    the confirmed matches of that round, ordered by points descending and then by
    lowercased display name. *)
Theorem round_points_spec db :
  NoDup (user_id <$> users db) →
  participants_on_roster None db →
  ∃ result, _round_points str_lower db = Some result ∧
    rp_round_number <$> result = distinct_rounds db ∧
    ∀ entry, entry ∈ result →
      prp_player_id <$> rp_points entry ≡ₚ user_id <$> roster db ∧
      (∀ row, row ∈ rp_points entry →
         ∃ u, u ∈ roster db ∧ prp_player_id row = user_id u ∧
           prp_display_name row = user_display_name u ∧
           prp_points row
           = sumZ (points_in (user_id u)) (confirmed_in_round db (rp_round_number entry))) ∧
      StronglySorted (round_ranks_before str_lower) (rp_points entry).
Proof.
  intros Hnd Hpart. eexists. split; [by apply round_points_rows|]. cbv zeta.
  set (players := sort_by _ (roster db)).
  assert (players ≡ₚ roster db) as Hplayers by apply sort_by_perm.
  split.
  - rewrite <- list_fmap_compose. apply list_fmap_id.
  - intros entry (k & -> & Hk)%list_elem_of_fmap. simpl. split_and!.
    + rewrite sort_by_perm. unfold round_rows. rewrite <- list_fmap_compose.
      by rewrite <- Hplayers.
    + intros row Hrow. apply sort_by_elem_of in Hrow.
      unfold round_rows in Hrow. apply list_elem_of_fmap in Hrow as (u & -> & Hu).
      exists u. simpl. split_and!; try done. by rewrite <- Hplayers.
    + eapply sorted_weaken; [apply round_points_key_ranks|].
      apply sort_by_sorted.
      * intros a b. apply pair_le_total, String.leb_total.
      * intros a b c. apply pair_le_trans, string_leb_trans.
Qed.

(** X16. Under the same conditions, the points of a player in the round-points entry of
    round k equal the round_points column of that player in the standings up to round k. *)
Theorem round_points_match_standings db :
  NoDup (user_id <$> users db) →
  participants_on_roster None db →
  ∃ result, _round_points str_lower db = Some result ∧
    ∀ entry, entry ∈ result →
      ∃ rows, _standings str_lower db (Some (rp_round_number entry)) = Some rows ∧
        ∀ row, row ∈ rp_points entry →
          ∃ srow, srow ∈ rows ∧ sr_player_id srow = prp_player_id row ∧
                  sr_round_points srow = prp_points row.
Proof.
  intros Hnd Hpart. eexists. split; [by apply round_points_rows|]. cbv zeta.
  set (players := sort_by _ (roster db)).
  assert (players ≡ₚ roster db) as Hplayers by apply sort_by_perm.
  intros entry (k & -> & Hk)%list_elem_of_fmap. simpl.
  destruct (standings_rows str_lower db (Some k) Hnd (participants_weaken db _ Hpart))
    as (rows & Hrows & Hperm & Htal & _).
  exists rows. split; [done|].
  intros row Hrow. apply sort_by_elem_of in Hrow.
  unfold round_rows in Hrow. apply list_elem_of_fmap in Hrow as (u & -> & Hu). simpl.
  assert (user_id u ∈ sr_player_id <$> rows) as Hin.
  { rewrite Hperm. apply list_elem_of_fmap. exists u. by rewrite <- Hplayers. }
  apply list_elem_of_fmap in Hin as (srow & Hid & Hsrow).
  exists srow. split_and!; [done|done|].
  destruct (Htal srow Hsrow) as (u' & Hu' & Ht).
  destruct Ht as [Hid' _ _ _ _ _ _ _ _ _ _ Hrp]. rewrite Hrp.
  assert (user_id u' = user_id u) as -> by congruence.
  unfold folded. rewrite (sumZ_filter_indicator (points_in (user_id u))
    (λ m, both_confirmed m ∧ round_in_scope (Some k) m)
    (λ m, Some k = Some (match_round_number m))).
  unfold confirmed_in_round. f_equal. apply list_filter_iff. intros m. simpl.
  split.
  - intros [[Hc _] [= ->]]. done.
  - intros [Hc <-]. split; [split; [done|lia]|done].
Qed.

End RoundPointsFacts.

(** ** Every round is a matching *)

Local Close Scope Z_scope.
Ltac Zify.zify_post_hook ::= Z.to_euclidean_division_equations.

Lemma pad_lookup_Some (player_ids : list Z) j a :
  pad player_ids !! j = Some (Some a) → a ∈ player_ids.
Proof.
  unfold pad. intros H.
  assert ((Some <$> player_ids) !! j = Some (Some a)) as H'.
  { destruct (Nat.odd (length player_ids)); [|done].
    apply lookup_app_Some in H as [H|[_ H]]; [done|].
    by destruct (j - length (Some <$> player_ids)). }
  rewrite list_lookup_fmap in H'. destruct (player_ids !! j) as [x|] eqn:E; [|done].
  injection H' as <-. by eapply list_elem_of_lookup_2.
Qed.

Lemma seat_of_inj n r i j :
  2 ≤ n → r < n - 1 → i < n → j < n → seat_of n r i = seat_of n r j → i = j.
Proof.
  intros Hn Hr Hi Hj Heq.
  rewrite <- (seat_at_of n r i), <- (seat_at_of n r j) by done. by rewrite Heq.
Qed.

Lemma circle_cell_members (player_ids : list Z) h r i a b :
  NoDup player_ids → length (pad player_ids) = 2 * h → r < 2 * h - 1 → i < h →
  (a, b) ∈ circle_cell (Nat.iter r circle_rotate (pad player_ids)) r i →
  a ∈ player_ids ∧ b ∈ player_ids ∧ a ≠ b.
Proof.
  intros Hnd Hlen Hr Hi. rewrite (circle_cell_seats _ h) by done.
  destruct (pad player_ids !! seat_of (2 * h) r i) as [[l|]|] eqn:E1;
    try (by intros ?%elem_of_nil).
  destruct (pad player_ids !! seat_of (2 * h) r (2 * h - 1 - i)) as [[x|]|] eqn:E2;
    try (by intros ?%elem_of_nil).
  assert (l ≠ x) as Hne.
  { intros ->. pose proof (seat_lookup_inj _ (pad_NoDup _ Hnd) _ _ _ E1 E2) as Heq.
    apply seat_of_inj in Heq; lia. }
  pose proof (pad_lookup_Some _ _ _ E1). pose proof (pad_lookup_Some _ _ _ E2).
  destruct (Nat.even r && (i =? 0)); intros [= -> ->]%list_elem_of_singleton; done.
Qed.

(** X1. For a list of distinct player ids, fixture generation returns a schedule in
    which every pair joins two different players of the list, no player sits in two
    pairs of the same round, and the pairs of all rounds together number N(N-1)/2. *)
Theorem round_robin_rounds_are_matchings (player_ids : list Z) :
  NoDup player_ids →
  ∃ rounds, _generate_round_robin player_ids = Some rounds ∧
    Forall (λ round,
              (∀ a b, (a, b) ∈ round → a ∈ player_ids ∧ b ∈ player_ids ∧ a ≠ b) ∧
              (∀ a, length (filter (plays a) round) ≤ 1)) rounds ∧
    2 * length (concat rounds) = length player_ids * (length player_ids - 1).
Proof.
  intros Hnd. exists (circle_method player_ids).
  split; [apply generate_round_robin_circle|].
  set (N := length player_ids).
  pose proof (pad_length player_ids) as Hlen. fold N in Hlen.
  pose proof (pad_NoDup player_ids Hnd) as Hpnd.
  pose proof (pad_lookup_bye player_ids) as Hbye. fold N in Hbye. rewrite Hlen in Hbye.
  set (h := (N + 1) / 2) in *.
  destruct (decide (N = 0)) as [HN|HN].
  { unfold circle_method. rewrite Hlen. subst h. rewrite HN. simpl. split; [constructor|lia]. }
  assert (1 ≤ h) as Hh1 by (subst h; lia).
  assert (Hmem : ∀ r a b, r < 2 * h - 1 →
            (a, b) ∈ circle_round (Nat.iter r circle_rotate (pad player_ids)) r →
            a ∈ player_ids ∧ b ∈ player_ids ∧ a ≠ b).
  { intros r a b Hr Hin. rewrite (circle_round_cells _ h Hlen Hh1) in Hin.
    apply elem_of_concat in Hin as (cell & Hin & Hcell).
    apply list_elem_of_fmap in Hcell as (i & -> & Hi). apply elem_of_seq in Hi.
    eapply (circle_cell_members player_ids h r i); eauto; lia. }
  split.
  - apply Forall_forall. intros round Hin. unfold circle_method in Hin. rewrite Hlen in Hin.
    apply list_elem_of_fmap in Hin as (r & -> & Hr). apply elem_of_seq in Hr.
    split; [intros a b; apply Hmem; lia|].
    intros a. destruct (decide (a ∈ player_ids)) as [Ha|Ha].
    + apply pad_lookup_player in Ha as [ia Hia].
      rewrite (round_plays_count _ h Hlen Hh1 Hpnd N Hbye r ia a) by (done || lia).
      case_decide; lia.
    + rewrite filter_none; [simpl; lia|].
      intros [x y] Hq [Hp|Hp]; simpl in Hp; subst;
        apply Hmem in Hq as (? & ? & ?); (done || lia).
  - rewrite concat_length_sum. unfold circle_method. rewrite Hlen.
    rewrite sum_list_with_fmap.
    destruct (Nat.even N) eqn:He.
    + apply Nat.even_spec in He as [q Hq].
      rewrite (sum_seq_const _ 0 (2 * h - 1) h).
      * assert (h = q) as Hhq by (subst h; lia).
        clearbody h N. subst h N. destruct q; [lia|]. nia.
      * intros r Hr. unfold compose.
        apply (round_length_full _ h Hlen Hh1 N Hbye); subst h; lia.
    + assert (Nat.odd N = true) as Ho by (by rewrite <- Nat.negb_even, He).
      apply Nat.odd_spec in Ho as [q Hq].
      rewrite (sum_seq_const _ 0 (2 * h - 1) (h - 1)).
      * assert (h = q + 1) as Hhq by (subst h; lia).
        clearbody h N. subst h N. nia.
      * intros r Hr. unfold compose.
        apply (round_length_bye _ h Hlen Hh1 N Hbye); subst h; lia.
Qed.

Ltac Zify.zify_post_hook ::= idtac.
Local Open Scope Z_scope.

(** ** Running the consensus check again *)

Lemma consensus_cases db mid :
  (∀ now, _confirm_scores_if_consensus db now mid = db) ∨
  ∃ m first, find_match db mid = Some m ∧
    ∀ now, _confirm_scores_if_consensus db now mid
           = with_matches db (confirm_update mid first now <$> matches db).
Proof.
  unfold _confirm_scores_if_consensus.
  destruct (find_match db mid) as [m|]; [|by left].
  destruct (is_confirmed m); [by left|].
  destruct (_ <? 2); [by left|].
  destruct (sort_by _ _) as [|first rest]; [by left|].
  destruct (forallb _ rest); simpl; [|by left].
  right. by exists m, first.
Qed.

Lemma find_match_updated db mid first now m :
  find_match db mid = Some m →
  find_match (with_matches db (confirm_update mid first now <$> matches db)) mid
  = Some (set_confirmed (conf_score1 first) (conf_score2 first) now m).
Proof.
  unfold find_match. simpl. induction (matches db) as [|m0 ms IH]; [done|].
  rewrite fmap_cons, !filter_cons.
  destruct (confirm_update_frame mid first now m0) as (Hid & _). rewrite Hid.
  destruct (decide (match_id m0 = mid)) as [Hm0|Hm0]; [|done].
  simpl. intros [= ->]. unfold confirm_update. by rewrite bool_decide_eq_true_2.
Qed.

(** X7. Running the consensus check a second time on the same match leaves the store as
    the first run left it, whatever the two time stamps are. *)
Theorem consensus_idempotent db now now' mid :
  _confirm_scores_if_consensus (_confirm_scores_if_consensus db now mid) now' mid
  = _confirm_scores_if_consensus db now mid.
Proof.
  destruct (consensus_cases db mid) as [Hdb|(m & first & Hm & Hdb)].
  - by rewrite !Hdb.
  - rewrite Hdb. eapply consensus_confirmed_noop; [by apply find_match_updated|done].
Qed.

(** ** Seeding twice *)

Lemma insert_user_users db handle display_name password_hash role :
  users (insert_user db handle display_name password_hash role) ≠ [].
Proof. simpl. by destruct (users db). Qed.

Lemma foldl_insert_user_users {A} (f : Db → A → Db) (l : list A) db :
  (∀ db x, users db ≠ [] → users (f db x) ≠ []) →
  users db ≠ [] → users (foldl f db l) ≠ [].
Proof.
  intros Hf. revert db. induction l as [|x l IH]; intros db Hdb; simpl; auto.
Qed.

Section SeedTwice.
Variable _hash_password : string → string.

Lemma seed_users_nonempty db force db1 d1 :
  _seed_demo_data _hash_password db force = Some (db1, d1) → users db1 ≠ [].
Proof.
  unfold _seed_demo_data. cbv zeta.
  set (db0 := if force then delete_all db else db).
  destruct (Z.gtb_spec (Z.of_nat (length (users db0))) 0) as [Hgt|Hle].
  { intros [= <- <-]. destruct (users db0); [simpl in Hgt; lia|done]. }
  destruct (_generate_round_robin _) as [rounds|]; [|done]. simpl.
  intros [= <- <-].
  apply foldl_insert_user_users.
  { intros dbx [round_index fixtures] Hx.
    apply foldl_insert_user_users; [|done].
    by intros dby [table_index [player1_id player2_id]] Hy. }
  simpl. by destruct (users db0).
Qed.

(** X18. Seeding always succeeds, with or without force, and seeding the resulting store
    again without force returns it unchanged with seeded = 0. *)
Theorem seed_twice_noop db force :
  ∃ db1 d1, _seed_demo_data _hash_password db force = Some (db1, d1) ∧
    ∃ d2, _seed_demo_data _hash_password db1 false = Some (db1, d2) ∧ seeded d2 = 0.
Proof.
  assert (∃ db1 d1, _seed_demo_data _hash_password db force = Some (db1, d1))
    as (db1 & d1 & H1).
  { unfold _seed_demo_data. cbv zeta.
    destruct (_ >? 0); [by eexists _, _|].
    rewrite generate_round_robin_circle. simpl. by eexists _, _. }
  exists db1, d1. split; [done|].
  pose proof (seed_users_nonempty _ _ _ _ H1) as Hne.
  unfold _seed_demo_data. cbv zeta.
  destruct (Z.gtb_spec (Z.of_nat (length (users db1))) 0) as [Hgt|Hle].
  - by eexists.
  - destruct (users db1); [done|simpl in Hle; lia].
Qed.

End SeedTwice.

(** ** The match listing *)

Lemma mine_filter db mid uid :
  filter (λ c, conf_match_id c = mid ∧ Some (conf_player_id c) = Some uid)
         (score_confirmations db)
  = filter (conf_key mid uid) (score_confirmations db).
Proof.
  apply list_filter_iff. intros c. unfold conf_key. split.
  - intros [? [= ?]]. done.
  - intros [? ->]. done.
Qed.

Lemma view_row_mine db user_id_param m row :
  row ∈ match_view_rows db user_id_param m →
  ∃ my, my ∈ left_join (match user_id_param with
                        | Some uid => filter (conf_key (match_id m) uid) (score_confirmations db)
                        | None => []
                        end) ∧
    row_my_score1 row = conf_score1 <$> my ∧ row_my_score2 row = conf_score2 <$> my.
Proof.
  unfold match_view_rows.
  intros (u1 & H & _)%list_elem_of_bind. apply list_elem_of_bind in H as (u2 & H & _).
  apply list_elem_of_bind in H as (my & H & Hmy).
  apply list_elem_of_singleton in H. subst row. simpl.
  exists my. split; [|done].
  destruct user_id_param as [uid|].
  - by rewrite mine_filter in Hmy.
  - by rewrite filter_none in Hmy by (by intros c _ [_ ?]).
Qed.

Lemma build_match_dto_mine row :
  dto_my_confirmation (_build_match_dto row)
  = match row_my_score1 row, row_my_score2 row with
    | Some s1, Some s2 => Some {| dto_score1 := s1; dto_score2 := s2 |}
    | _, _ => None
    end.
Proof. done. Qed.

Lemma view_row_report db user_id_param m row :
  row ∈ match_view_rows db user_id_param m →
  (∀ uid, user_id_param = Some uid →
          (length (filter (conf_key (match_id m) uid) (score_confirmations db)) ≤ 1)%nat) →
  dto_my_confirmation (_build_match_dto row) = my_report db (match_id m) user_id_param.
Proof.
  intros Hrow Hone. apply view_row_mine in Hrow as (my & Hmy & H1 & H2).
  rewrite build_match_dto_mine, H1, H2. unfold my_report.
  destruct user_id_param as [uid|].
  - specialize (Hone uid eq_refl).
    destruct (filter _ (score_confirmations db)) as [|c [|c' cs]]; simpl in *.
    + apply list_elem_of_singleton in Hmy. by subst.
    + apply list_elem_of_singleton in Hmy. by subst.
    + lia.
  - simpl in Hmy. apply list_elem_of_singleton in Hmy. by subst.
Qed.

Lemma filter_unique_key {A} (key : A → Z) (l : list A) (x : A) :
  NoDup (key <$> l) → x ∈ l → filter (λ y, key y = key x) l = [x].
Proof.
  intros Hnd Hx. induction l as [|y l IH]; [by apply elem_of_nil in Hx|].
  rewrite fmap_cons in Hnd. apply NoDup_cons in Hnd as [Hy Hnd].
  rewrite filter_cons. apply elem_of_cons in Hx as [->|Hx].
  - rewrite decide_True by done. f_equal. apply filter_none.
    intros z Hz Hk. apply Hy. rewrite <- Hk. apply list_elem_of_fmap. eauto.
  - rewrite decide_False; [by apply IH|].
    intros Hk. apply Hy. rewrite Hk. apply list_elem_of_fmap. eauto.
Qed.

Lemma view_rows_single db user_id_param m :
  NoDup (user_id <$> users db) →
  (∃ u, u ∈ users db ∧ user_id u = match_player1_id m) →
  (∃ u, u ∈ users db ∧ user_id u = match_player2_id m) →
  (∀ uid, user_id_param = Some uid →
          (length (filter (conf_key (match_id m) uid) (score_confirmations db)) ≤ 1)%nat) →
  ∃ row, match_view_rows db user_id_param m = [row].
Proof.
  intros Hnd (u1 & Hu1 & Hid1) (u2 & Hu2 & Hid2) Hone. unfold match_view_rows.
  rewrite <- Hid1, <- Hid2.
  rewrite !(filter_unique_key user_id) by done.
  set (mine := filter _ (score_confirmations db)).
  assert (length mine ≤ 1)%nat as Hlen.
  { destruct user_id_param as [uid|].
    - unfold mine. rewrite mine_filter. by apply Hone.
    - unfold mine. rewrite filter_none by (by intros c _ [_ ?]). simpl. lia. }
  destruct mine as [|c [|c' cs]]; simpl in *; try lia; by eexists.
Qed.

(** X2. In a store with unique user ids, where both players of every match exist and
    each player has at most one report per match, the match listing has exactly one
    entry per stored match, ordered by round, table and id; every entry shows the
    caller's own report on that match (none for an anonymous caller) and the number of
    reports on it. *)
Theorem fetch_matches_listing db user_id_param :
  NoDup (user_id <$> users db) →
  players_exist db →
  one_report_each db →
  dto_id <$> _fetch_matches db user_id_param
  = match_id <$> sort_by match_order_le (matches db) ∧
  StronglySorted (λ m1 m2, match_order_le m1 m2 = true) (sort_by match_order_le (matches db)) ∧
  ∀ dto, dto ∈ _fetch_matches db user_id_param →
    dto_my_confirmation dto = my_report db (dto_id dto) user_id_param ∧
    dto_confirmations dto = count_confirmations db (dto_id dto).
Proof.
  intros Hnd Hex Hone. split_and!.
  - unfold _fetch_matches. cbv zeta. rewrite <- list_fmap_compose.
    assert (∀ m, m ∈ sort_by match_order_le (matches db) → m ∈ matches db) as Hsub.
    { intros m. by rewrite sort_by_elem_of. }
    induction (sort_by match_order_le (matches db)) as [|m ms IH]; [done|].
    rewrite bind_cons, fmap_app, IH by (intros; apply Hsub; by right).
    pose proof (proj1 (Forall_forall _ _) Hex m (Hsub m ltac:(left))) as [H1 H2].
    destruct (view_rows_single db user_id_param m Hnd H1 H2) as [row Hrow].
    { intros uid _. apply Hone. }
    rewrite Hrow. simpl. f_equal.
    assert (row ∈ match_view_rows db user_id_param m) as Hin by (rewrite Hrow; left).
    by apply match_view_row_fields in Hin as (-> & _).
  - apply sort_by_sorted; [apply match_order_total|apply match_order_trans].
  - intros dto (m & row & Hm & Hrow & ->)%fetch_matches_elem.
    pose proof (match_view_row_fields _ _ _ _ Hrow) as (Hid & _ & _ & Hcount & _).
    simpl. rewrite Hid. split; [|done].
    rewrite <- (view_row_report db user_id_param m row Hrow); [done|].
    intros uid _. apply Hone.
Qed.

(** ** What a submission answers *)

Lemma confirm_match_score_accepted db clock mid payload token user m :
  _require_user db token = inr user → dto_user_role user = player →
  find_match db mid = Some m →
  dto_user_id user = match_player1_id m ∨ dto_user_id user = match_player2_id m →
  ¬ both_confirmed m →
  confirm_match_score db clock mid payload token
  = let db2 := submitted db clock mid (dto_user_id user) payload in
    match head (m' ← filter (λ m', match_id m' = mid) (matches db2);
                match_view_rows db2 (Some (dto_user_id user)) m') with
    | None => (db2, inl (mkHTTPException HTTP_404_NOT_FOUND "Match not found after update."))
    | Some row => (db2, inr (_build_match_dto row))
    end.
Proof.
  intros Hauth Hrole Hfind Hpart Hnc. unfold confirm_match_score, submitted.
  rewrite Hauth, Hfind.
  rewrite bool_decide_eq_false_2 by (intros H; by apply H).
  rewrite (proj2 (participant_test _ _ _) Hpart).
  destruct (is_confirmed m) eqn:Hc; [by apply is_confirmed_both in Hc|]. done.
Qed.

Lemma confirm_match_score_inr db clock mid payload token dto :
  (confirm_match_score db clock mid payload token).2 = inr dto →
  ∃ user row m',
    _require_user db token = inr user ∧
    (confirm_match_score db clock mid payload token).1
    = submitted db clock mid (dto_user_id user) payload ∧
    m' ∈ matches (submitted db clock mid (dto_user_id user) payload) ∧ match_id m' = mid ∧
    row ∈ match_view_rows (submitted db clock mid (dto_user_id user) payload)
            (Some (dto_user_id user)) m' ∧
    dto = _build_match_dto row.
Proof.
  unfold confirm_match_score. fold (submitted db clock mid).
  destruct (_require_user db token) as [e|user]; [done|].
  case_bool_decide; [done|].
  destruct (find_match db mid) as [m|]; [|done].
  case_bool_decide; [done|].
  destruct (is_confirmed m); [done|].
  fold (submitted db clock mid (dto_user_id user) payload).
  destruct (head _) as [row|] eqn:Hrow; [|done]. simpl. intros [= <-].
  apply head_Some_elem_of, list_elem_of_bind in Hrow as (m' & Hrow & Hm').
  apply list_elem_of_filter in Hm' as [Hid Hm'].
  by exists user, row, m'.
Qed.

Lemma submitted_confirmations db clock mid uid payload :
  score_confirmations (submitted db clock mid uid payload)
  = score_confirmations
      (upsert_confirmation db mid uid (payload_score1 payload) (payload_score2 payload)
         (now_created clock) (now_updated clock)).
Proof. unfold submitted. apply consensus_frame. Qed.

(** X8. Whenever a score submission is accepted, the match returned is the one asked
    for, its my_confirmation is the score pair just submitted, and it counts at least
    one report. *)
Theorem confirm_returns_own_report db clock mid payload token dto :
  (confirm_match_score db clock mid payload token).2 = inr dto →
  dto_id dto = mid ∧
  dto_my_confirmation dto
  = Some {| dto_score1 := payload_score1 payload; dto_score2 := payload_score2 payload |} ∧
  1 ≤ dto_confirmations dto.
Proof.
  intros (user & row & m' & Hauth & Hdb & Hm' & Hid & Hrow & ->)%confirm_match_score_inr.
  set (uid := dto_user_id user) in *.
  destruct (upsert_rows db mid uid (payload_score1 payload) (payload_score2 payload)
              (now_created clock) (now_updated clock)) as (Hrows & Hlen & _).
  rewrite <- (submitted_confirmations db clock mid uid payload) in Hrows, Hlen.
  set (db2 := submitted db clock mid uid payload) in *.
  pose proof (match_view_row_fields _ _ _ _ Hrow) as (Hrid & _ & _ & Hcount & _).
  assert (∃ c, c ∈ filter (conf_key mid uid) (score_confirmations db2)) as [c0 Hc0].
  { destruct (filter _ (score_confirmations db2)) as [|c cs]; [simpl in Hlen; lia|].
    exists c. left. }
  split_and!.
  - simpl. congruence.
  - apply view_row_mine in Hrow as (my & Hmy & H1 & H2). rewrite Hid in Hmy.
    rewrite build_match_dto_mine, H1, H2.
    destruct (filter (conf_key mid uid) (score_confirmations db2)) as [|c cs] eqn:Hf.
    { by apply elem_of_nil in Hc0. }
    change (my ∈ Some <$> (c :: cs)) in Hmy.
    apply list_elem_of_fmap in Hmy as (c' & -> & Hc').
    rewrite <- Hf in Hc'. apply list_elem_of_filter in Hc' as [Hk Hc'].
    destruct (Hrows c' Hc' Hk) as [E1 E2]. simpl. by rewrite E1, E2.
  - simpl. rewrite Hcount, Hid. unfold count_confirmations.
    apply list_elem_of_filter in Hc0 as [[Hk _] Hc0].
    assert (c0 ∈ confirmations_of db2 mid) as Hin.
    { unfold confirmations_of. by apply list_elem_of_filter. }
    destruct (confirmations_of db2 mid); [by apply elem_of_nil in Hin|].
    simpl. lia.
Qed.

(** ** First, agreeing and disagreeing reports *)

Lemma consensus_outcome db now mid m :
  find_match db mid = Some m → ¬ both_confirmed m →
  ((length (confirmations_of db mid) < 2)%nat →
     _confirm_scores_if_consensus db now mid = db) ∧
  (scores_differ db mid → _confirm_scores_if_consensus db now mid = db) ∧
  (∀ s1 s2, (2 ≤ length (confirmations_of db mid))%nat →
     (∀ c, c ∈ confirmations_of db mid → reports s1 s2 c) →
     find_match (_confirm_scores_if_consensus db now mid) mid
     = Some (set_confirmed s1 s2 now m)).
Proof.
  intros Hfind Hnc.
  assert (is_confirmed m = false) as Hc.
  { destruct (is_confirmed m) eqn:E; [|done]. by apply is_confirmed_both in E. }
  set (rows := confirmations_of db mid).
  assert (Hunfold : _confirm_scores_if_consensus db now mid
            = if Z.of_nat (length rows) <? 2 then db
              else match sort_by confirmation_order_le rows with
                   | [] => db
                   | first :: rest =>
                       if negb (forallb (λ row, (conf_score1 row =? conf_score1 first) &&
                                                (conf_score2 row =? conf_score2 first)) rest)
                       then db
                       else with_matches db (confirm_update mid first now <$> matches db)
                   end).
  { unfold _confirm_scores_if_consensus. rewrite Hfind, Hc. fold rows.
    by rewrite sort_by_length. }
  rewrite Hunfold. clear Hunfold.
  destruct (Z.ltb_spec (Z.of_nat (length rows)) 2) as [Hlt|Hge].
  { split_and!; [done|done|]. intros; lia. }
  destruct (sort_by confirmation_order_le rows) as [|first rest] eqn:Hsort.
  { apply (f_equal length) in Hsort. rewrite sort_by_length in Hsort. simpl in Hsort. lia. }
  assert (first :: rest ≡ₚ rows) as Hperm by (rewrite <- Hsort; apply sort_by_perm).
  split_and!.
  - intros; lia.
  - intros (c1 & c2 & Hc1 & Hc2 & Hdiff).
    destruct (forallb _ rest) eqn:Hf; [|done]. exfalso.
    assert (∀ c, c ∈ rows → agree_with first c) as Hall.
    { intros c Hin. rewrite <- Hperm in Hin. apply elem_of_cons in Hin as [->|Hin]; [done|].
      by eapply consensus_forallb in Hf. }
    apply Hdiff. destruct (Hall c1 Hc1) as [E1 E2], (Hall c2 Hc2) as [E3 E4]. congruence.
  - intros s1 s2 _ Hall.
    assert (forallb (λ row, (conf_score1 row =? conf_score1 first) &&
                            (conf_score2 row =? conf_score2 first)) rest = true) as ->.
    { apply consensus_forallb. intros c Hin.
      destruct (Hall c) as [E1 E2]; [rewrite <- Hperm; by right|].
      destruct (Hall first) as [E3 E4]; [rewrite <- Hperm; left|].
      split; congruence. }
    simpl. rewrite (find_match_updated db mid first now m Hfind).
    destruct (Hall first) as [E3 E4]; [rewrite <- Hperm; left|]. by rewrite E3, E4.
Qed.

Lemma refreshed_row db uid mid m2 :
  find_match db mid = Some m2 →
  (∃ row, row ∈ match_view_rows db uid m2) →
  ∃ row, head (m' ← filter (λ m', match_id m' = mid) (matches db);
               match_view_rows db uid m') = Some row ∧
         row ∈ match_view_rows db uid m2.
Proof.
  unfold find_match. intros Hhead [row Hrow].
  destruct (filter _ (matches db)) as [|m' ms]; [done|]. simpl in Hhead.
  injection Hhead as ->. rewrite bind_cons.
  destruct (match_view_rows db uid m2) as [|row0 rows]; [by apply elem_of_nil in Hrow|].
  exists row0. split; [done|left].
Qed.

Lemma filter_split_length {A} (P Q : A → Prop) `{∀ x, Decision (P x)} `{∀ x, Decision (Q x)}
    (l : list A) :
  length (filter P l)
  = (length (filter (λ x, P x ∧ Q x) l) + length (filter (λ x, P x ∧ ¬ Q x) l))%nat.
Proof.
  induction l as [|x l IH]; [done|]. rewrite !filter_cons.
  repeat case_decide; simpl; try lia; tauto.
Qed.

Lemma other_reports_upsert db mid uid s1 s2 created updated :
  other_reports (upsert_confirmation db mid uid s1 s2 created updated) mid uid
  = other_reports db mid uid.
Proof.
  destruct (upsert_rows db mid uid s1 s2 created updated) as (_ & _ & Hrest).
  unfold other_reports.
  set (cs' := score_confirmations (upsert_confirmation db mid uid s1 s2 created updated)) in *.
  transitivity (filter (λ c, conf_match_id c = mid ∧ conf_player_id c ≠ uid)
                       (filter (λ c, ¬ conf_key mid uid c) cs')).
  - rewrite list_filter_filter. apply list_filter_iff. intros c. unfold conf_key. tauto.
  - rewrite Hrest, list_filter_filter. apply list_filter_iff. intros c. unfold conf_key. tauto.
Qed.

(** X9. A submission by a player of an unconfirmed match (both players existing, at most
    one earlier report of the caller) is accepted, and it returns status pending when
    nobody else has reported, confirmed with the submitted scores written to the match
    when every other report carries the same pair, and disputed when another report
    differs; in the pending and disputed cases the matches table is unchanged. *)
Theorem submission_outcome db clock mid payload token user m :
  _require_user db token = inr user → dto_user_role user = player →
  find_match db mid = Some m → ¬ both_confirmed m →
  dto_user_id user = match_player1_id m ∨ dto_user_id user = match_player2_id m →
  (∃ u, u ∈ users db ∧ user_id u = match_player1_id m) →
  (∃ u, u ∈ users db ∧ user_id u = match_player2_id m) →
  (length (filter (conf_key mid (dto_user_id user)) (score_confirmations db)) ≤ 1)%nat →
  let out := confirm_match_score db clock mid payload token in
  let others := other_reports db mid (dto_user_id user) in
  let s1 := payload_score1 payload in
  let s2 := payload_score2 payload in
  ∃ dto, out.2 = inr dto ∧
    (others = [] → dto_status dto = pending ∧ matches out.1 = matches db) ∧
    (others ≠ [] → Forall (reports s1 s2) others →
       dto_status dto = confirmed ∧
       dto_confirmed_score1 dto = Some s1 ∧ dto_confirmed_score2 dto = Some s2 ∧
       find_match out.1 mid = Some (set_confirmed s1 s2 (now_confirmed clock) m)) ∧
    (¬ Forall (reports s1 s2) others →
       dto_status dto = disputed ∧ matches out.1 = matches db).
Proof.
  intros Hauth Hrole Hfind Hnc Hpart Hp1 Hp2 Hone out others s1 s2.
  set (uid := dto_user_id user) in *.
  subst out. rewrite (confirm_match_score_accepted db clock mid payload token user m) by done.
  cbv zeta. fold uid. unfold submitted. fold s1 s2.
  set (db1 := upsert_confirmation db mid uid s1 s2 (now_created clock) (now_updated clock)).
  set (db2 := _confirm_scores_if_consensus db1 (now_confirmed clock) mid).
  destruct (upsert_frame db mid uid s1 s2 (now_created clock) (now_updated clock))
    as (Hus & _ & Hms).
  destruct (upsert_rows db mid uid s1 s2 (now_created clock) (now_updated clock))
    as (Hrows & Hlen & _).
  pose proof (other_reports_upsert db mid uid s1 s2 (now_created clock) (now_updated clock))
    as Hothers.
  fold db1 in Hus, Hms, Hrows, Hlen, Hothers. fold others in Hothers. cbv zeta in Hrows, Hlen.
  destruct (consensus_frame db1 (now_confirmed clock) mid) as [Hu2 Hc2].
  fold db2 in Hu2, Hc2.
  assert (Hfind1 : find_match db1 mid = Some m).
  { unfold find_match. by rewrite Hms. }
  destruct (consensus_outcome db1 (now_confirmed clock) mid m Hfind1 Hnc)
    as (Hfew & Hdiffer & Hagree). fold db2 in Hfew, Hdiffer, Hagree.
  set (rows1 := confirmations_of db1 mid) in *.
  assert (Hmine : length (filter (conf_key mid uid) (score_confirmations db1)) = 1%nat) by lia.
  assert (HR4 : length rows1 = (1 + length others)%nat).
  { unfold rows1, confirmations_of.
    rewrite (filter_split_length _ (λ c, conf_player_id c = uid)).
    rewrite <- Hmine, <- Hothers. done. }
  assert (HR1 : ∀ c, c ∈ rows1 → reports s1 s2 c ∨ c ∈ others).
  { intros c [Hmid Hc]%list_elem_of_filter.
    destruct (decide (conf_player_id c = uid)) as [Hu|Hu].
    - left. by apply Hrows.
    - right. rewrite <- Hothers. by apply list_elem_of_filter. }
  assert (HR2 : ∀ c, c ∈ others → c ∈ rows1).
  { intros c Hc. rewrite <- Hothers in Hc. apply list_elem_of_filter in Hc as [[Hmid _] Hc].
    by apply list_elem_of_filter. }
  assert (HR3 : ∃ c0, c0 ∈ rows1 ∧ reports s1 s2 c0).
  { destruct (filter (conf_key mid uid) (score_confirmations db1)) as [|c0 cs] eqn:Hf;
      [done|].
    assert (c0 ∈ filter (conf_key mid uid) (score_confirmations db1)) as Hin
      by (rewrite Hf; left).
    apply list_elem_of_filter in Hin as [Hk Hin]. exists c0. split.
    - apply list_elem_of_filter. split; [apply Hk|done].
    - by apply Hrows. }
  assert (Hview : ∀ m2, find_match db2 mid = Some m2 →
            match_player1_id m2 = match_player1_id m →
            match_player2_id m2 = match_player2_id m →
            ∃ row, head (m' ← filter (λ m', match_id m' = mid) (matches db2);
                         match_view_rows db2 (Some uid) m') = Some row ∧
                   row ∈ match_view_rows db2 (Some uid) m2 ∧ match_id m2 = mid).
  { intros m2 Hf2 E1 E2.
    destruct (refreshed_row db2 (Some uid) mid m2 Hf2) as (row & Hhead & Hrow).
    - apply view_rows_nonempty; rewrite Hu2, Hus; [by rewrite E1|by rewrite E2].
    - exists row. split_and!; try done. by apply find_match_Some in Hf2 as [_ ?]. }
  assert (Hsd : scores_differ db2 mid ↔ ¬ Forall (reports s1 s2) others).
  { unfold scores_differ, confirmations_of. rewrite Hc2. fold (confirmations_of db1 mid).
    fold rows1. split.
    - intros (c1 & c2 & Hc1 & Hc2' & Hdiff) Hall.
      assert (∀ c, c ∈ rows1 → reports s1 s2 c) as Hall'.
      { intros c Hc. destruct (HR1 c Hc) as [?|Hin]; [done|].
        by apply (proj1 (Forall_forall _ _) Hall). }
      apply Hdiff. destruct (Hall' c1 Hc1) as [E1 E2], (Hall' c2 Hc2') as [E3 E4].
      congruence.
    - intros Hnot. apply not_Forall_Exists in Hnot; [|apply _].
      apply Exists_exists in Hnot as (c1 & Hc1 & Hno). destruct HR3 as (c0 & Hc0 & [E1 E2]).
      exists c0, c1. split_and!; [done|by apply HR2|].
      intros [= E3 E4]. apply Hno. split; congruence. }
  destruct (decide (Forall (reports s1 s2) others)) as [Hall|Hnot].
  - destruct (decide (others = [])) as [Hnil|Hne].
    + (* the first report *)
      assert (db2 = db1) as Hdb2.
      { apply Hfew. rewrite HR4, Hnil. simpl. lia. }
      destruct (Hview m) as (row & -> & Hrow & Hid); [by rewrite Hdb2|done|done|].
      eexists. split; [done|]. simpl.
      pose proof (build_match_dto_status db2 (Some uid) m row Hrow)
        as (_ & _ & _ & _ & _ & Hpend). cbv zeta in Hpend.
      split_and!; [|done|tauto].
      intros _. split; [|by rewrite Hdb2].
      apply Hpend. split; [done|]. rewrite Hid, Hsd. tauto.
    + (* agreement *)
      assert (find_match db2 mid = Some (set_confirmed s1 s2 (now_confirmed clock) m)) as Hf2.
      { apply Hagree.
        - rewrite HR4. destruct others; [done|simpl; lia].
        - intros c Hc. destruct (HR1 c Hc) as [?|Hin]; [done|].
          by apply (proj1 (Forall_forall _ _) Hall). }
      destruct (Hview _ Hf2) as (row & -> & Hrow & Hid); [done|done|].
      eexists. split; [done|]. simpl.
      pose proof (build_match_dto_status db2 (Some uid) _ row Hrow)
        as (_ & Hsc1 & Hsc2 & Hconf & _). cbv zeta in Hsc1, Hsc2, Hconf.
      split_and!; [done| |tauto].
      intros _ _. split_and!; [|done|done|done].
      apply Hconf. by split.
  - (* disagreement *)
    assert (db2 = db1) as Hdb2.
    { apply Hdiffer. unfold scores_differ. fold rows1.
      apply Hsd in Hnot. unfold scores_differ, confirmations_of in Hnot.
      rewrite Hc2 in Hnot. done. }
    destruct (Hview m) as (row & -> & Hrow & Hid); [by rewrite Hdb2|done|done|].
    eexists. split; [done|]. simpl.
    pose proof (build_match_dto_status db2 (Some uid) m row Hrow)
      as (_ & _ & _ & _ & Hdisp & _). cbv zeta in Hdisp.
    split_and!.
    + intros Hnil. exfalso. apply Hnot. rewrite Hnil. constructor.
    + tauto.
    + intros _. split; [|by rewrite Hdb2].
      apply Hdisp. split; [done|]. rewrite Hid. by apply Hsd.
Qed.

(** ** Passwords *)

Lemma split_once_append salt rest :
  dollar_free salt → split_once "$" (salt +:+ String "$" rest) = Some (salt, rest).
Proof.
  induction salt as [|c salt IH]; simpl.
  - done.
  - intros [Hc Hs]. rewrite ?append_cons. simpl.
    destruct (Ascii.eqb_spec c "$"); [done|]. by rewrite IH.
Qed.

Lemma split_once_none s : dollar_free s → split_once "$" s = None.
Proof.
  induction s as [|c s IH]; simpl; [done|].
  intros [Hc Hs]. destruct (Ascii.eqb_spec c "$"); [done|]. by rewrite IH.
Qed.

Lemma hex_digit_ascii n : (N_of_ascii (hex_digit n) <? 128)%N = true.
Proof.
  unfold hex_digit. destruct n as [|p]; [done|].
  do 4 (destruct p as [p|p|]; try done).
Qed.

Lemma hex_is_ascii s : is_ascii (hex s) = true.
Proof. induction s as [|c s IH]; simpl; [done|]. by rewrite !hex_digit_ascii, IH. Qed.

Lemma hex_digit_value n :
  (n < 16)%N →
  (if N_of_ascii (hex_digit n) <? 58 then N_of_ascii (hex_digit n) - 48
   else N_of_ascii (hex_digit n) - 87)%N = n.
Proof.
  intros Hn. destruct n as [|p]; [done|].
  do 4 (destruct p as [p|p|]; try done); lia.
Qed.

Lemma hex_digit_inj n1 n2 :
  (n1 < 16)%N → (n2 < 16)%N → hex_digit n1 = hex_digit n2 → n1 = n2.
Proof.
  intros H1 H2 Heq. rewrite <- (hex_digit_value n1 H1), Heq. by apply hex_digit_value.
Qed.

Lemma hex_inj s1 s2 : hex s1 = hex s2 → s1 = s2.
Proof.
  revert s2. induction s1 as [|c1 s1 IH]; intros [|c2 s2]; simpl; try done.
  intros [= H1 H2 H3]. f_equal; [|by apply IH].
  pose proof (N_ascii_bounded c1). pose proof (N_ascii_bounded c2).
  apply hex_digit_inj in H1; [|lia..]. apply hex_digit_inj in H2; [|lia..].
  rewrite <- (ascii_N_embedding c1), <- (ascii_N_embedding c2). f_equal. lia.
Qed.

Section PasswordFacts.
Variable pbkdf2_hmac : string → string → string.

Lemma verify_hashed_password_eq salt password attempt :
  dollar_free salt →
  _verify_password pbkdf2_hmac attempt (_hash_password pbkdf2_hmac salt password)
  = Some (bool_decide (pbkdf2_hmac attempt salt = pbkdf2_hmac password salt)).
Proof.
  intros Hsalt. unfold _verify_password, _hash_password. cbv zeta.
  change ("$" +:+ ?h) with (String "$" h). rewrite split_once_append by done.
  unfold compare_digest. rewrite !hex_is_ascii. simpl. f_equal.
  apply bool_decide_ext. split; [|by intros ->].
  intros H. symmetry. by apply hex_inj.
Qed.

(** X19. For a salt without a dollar sign (every hex salt), a password attempt verifies
    against a stored hash exactly when its PBKDF2 digest under that salt equals the
    digest of the hashed password; the hashed password itself always verifies, and a
    stored value without a dollar sign verifies no password. *)
Theorem verify_hashed_password salt password attempt :
  dollar_free salt →
  _verify_password pbkdf2_hmac attempt (_hash_password pbkdf2_hmac salt password)
  = Some (bool_decide (pbkdf2_hmac attempt salt = pbkdf2_hmac password salt)) ∧
  _verify_password pbkdf2_hmac password (_hash_password pbkdf2_hmac salt password) = Some true ∧
  ∀ stored, dollar_free stored → _verify_password pbkdf2_hmac attempt stored = Some false.
Proof.
  intros Hsalt. split_and!.
  - by apply verify_hashed_password_eq.
  - rewrite verify_hashed_password_eq by done. by rewrite bool_decide_eq_true_2.
  - intros stored Hs. unfold _verify_password. by rewrite split_once_none.
Qed.

End PasswordFacts.

(** ** Accounts and sessions *)

Lemma require_user_rows db t :
  _require_user db (Some t)
  = match head (session_rows db t) with
    | None => inl (mkHTTPException HTTP_401_UNAUTHORIZED "Invalid session token.")
    | Some row => inr (_row_to_user row)
    end.
Proof. done. Qed.

Lemma filter_unique_by {A K} `{EqDecision K} (key : A → K) (l : list A) (x : A) :
  NoDup (key <$> l) → x ∈ l → filter (λ y, key y = key x) l = [x].
Proof.
  intros Hnd Hx. induction l as [|y l IH]; [by apply elem_of_nil in Hx|].
  rewrite fmap_cons in Hnd. apply NoDup_cons in Hnd as [Hy Hnd].
  rewrite filter_cons. apply elem_of_cons in Hx as [->|Hx].
  - rewrite decide_True by done. f_equal. apply filter_none.
    intros z Hz Hk. apply Hy. rewrite <- Hk. apply list_elem_of_fmap. eauto.
  - rewrite decide_False; [by apply IH|].
    intros Hk. apply Hy. rewrite Hk. apply list_elem_of_fmap. eauto.
Qed.

Lemma filter_absent_key {A K} `{EqDecision K} (key : A → K) (l : list A) (k : K) :
  k ∉ key <$> l → filter (λ y, key y = k) l = [].
Proof.
  intros Hk. apply filter_none. intros y Hy Heq. apply Hk. rewrite <- Heq.
  apply list_elem_of_fmap. eauto.
Qed.

Lemma bind_ext_in {A B} (f g : A → list B) (l : list A) :
  (∀ x, x ∈ l → f x = g x) → l ≫= f = l ≫= g.
Proof.
  induction l as [|x l IH]; [done|]. intros H.
  rewrite !bind_cons, (H x) by left. f_equal. apply IH. intros y Hy. apply H. by right.
Qed.

(** A stored session of an existing user resolves to that user. *)
Lemma session_rows_resolve db s u :
  NoDup (session_token <$> sessions db) → NoDup (user_id <$> users db) →
  s ∈ sessions db → u ∈ users db → user_id u = session_user_id s →
  session_rows db (session_token s) = [u].
Proof.
  intros Ht Hu Hs Hin Hid. unfold session_rows.
  rewrite (filter_unique_by session_token) by done.
  rewrite bind_cons. cbn [mbind list_bind]. rewrite app_nil_r, <- Hid.
  by apply (filter_unique_by user_id).
Qed.

Lemma session_rows_unknown db t :
  t ∉ session_token <$> sessions db → session_rows db t = [].
Proof. intros Ht. unfold session_rows. by rewrite filter_absent_key. Qed.

Lemma insert_session_Some db token uid db' :
  insert_session db token uid = Some db' ↔
  (token ∉ session_token <$> sessions db) ∧ uid ∈ user_id <$> users db ∧
  db' = with_sessions db (sessions db ++ [mkSessionRow token uid]).
Proof.
  unfold insert_session. repeat case_bool_decide; split.
  - done.
  - intros (? & _). done.
  - done.
  - intros (_ & ? & _). done.
  - intros [= <-]. split_and!; [done| |done].
    destruct (decide (uid ∈ user_id <$> users db)); [done|]. tauto.
  - intros (_ & _ & ->). done.
Qed.

(** Users appended behind the issued ids leave the stored sessions as they resolve. *)
Lemma session_rows_new_user db t u :
  accounts_consistent db → users_seq db < user_id u →
  (s ← filter (λ s, session_token s = t) (sessions db);
   filter (λ u', user_id u' = session_user_id s) (users db ++ [u]))
  = session_rows db t.
Proof.
  intros Hc Hu. unfold session_rows. apply bind_ext_in.
  intros s [_ Hs]%list_elem_of_filter.
  rewrite filter_app, filter_cons, filter_nil.
  rewrite decide_False; [by rewrite app_nil_r|].
  intros Heq.
  pose proof (proj1 (Forall_forall _ _) (session_users_exist db Hc) s Hs) as Hex.
  apply list_elem_of_fmap in Hex as (u' & Hid & Hu').
  pose proof (proj1 (Forall_forall _ _) (user_ids_issued db Hc) u' Hu'). simpl in *. lia.
Qed.

Lemma session_rows_app db ss t :
  session_rows (with_sessions db (sessions db ++ ss)) t
  = session_rows db t ++ session_rows (with_sessions db ss) t.
Proof. unfold session_rows. simpl. by rewrite filter_app, bind_app. Qed.

Lemma session_rows_one db token uid t :
  session_rows (with_sessions db [mkSessionRow token uid]) t
  = if decide (token = t) then filter (λ u, user_id u = uid) (users db) else [].
Proof.
  unfold session_rows. simpl. rewrite filter_cons, filter_nil. simpl.
  destruct (decide (token = t)); [|done]. rewrite bind_cons. cbn [mbind list_bind]. by rewrite app_nil_r.
Qed.

(** A new session resolves to its user and leaves the other tokens as they were. *)
Lemma insert_session_resolves db token u :
  accounts_consistent db → token ∉ session_token <$> sessions db → u ∈ users db →
  let db' := with_sessions db (sessions db ++ [mkSessionRow token (user_id u)]) in
  me db' (Some token) = inr (_row_to_user u) ∧
  (∀ t, t ≠ token → me db' (Some t) = me db (Some t)) ∧
  accounts_consistent db'.
Proof.
  intros Hc Htok Hu db'. unfold me. split_and!.
  - rewrite require_user_rows. unfold db'.
    rewrite session_rows_app, session_rows_one, decide_True by done.
    rewrite session_rows_unknown by done.
    change (filter (λ u0, user_id u0 = user_id u) (users db))
      with (filter (λ y, user_id y = user_id u) (users db)).
    rewrite (filter_unique_by user_id); [done|apply Hc|done].
  - intros t Ht. rewrite !require_user_rows. unfold db'.
    rewrite session_rows_app, session_rows_one, decide_False by done.
    by rewrite app_nil_r.
  - destruct Hc as [H1 H2 H3 H4 H5]. split; simpl; try done.
    + rewrite fmap_app. apply NoDup_app. split_and!; [done| |apply NoDup_singleton].
      intros t Ht [->|[]%elem_of_nil]%elem_of_cons. done.
    + apply Forall_app. split; [done|]. apply Forall_singleton. simpl.
      apply list_elem_of_fmap. eauto.
Qed.

Lemma insert_user_consistent db handle display_name password_hash role :
  accounts_consistent db → handle ∉ user_handle <$> users db →
  accounts_consistent (insert_user db handle display_name password_hash role).
Proof.
  intros [H1 H2 H3 H4 H5] Hh.
  assert (users_seq db + 1 ∉ user_id <$> users db) as Hid.
  { intros (u & Hid & Hu)%list_elem_of_fmap.
    pose proof (proj1 (Forall_forall _ _) H2 u Hu). simpl in *. lia. }
  split; simpl.
  - rewrite fmap_app. apply NoDup_app. split_and!; [done| |apply NoDup_singleton].
    intros k Hk [->|[]%elem_of_nil]%elem_of_cons. done.
  - apply Forall_app. split; [|apply Forall_singleton; simpl; lia].
    eapply Forall_impl; [exact H2|]. simpl. intros; lia.
  - rewrite fmap_app. apply NoDup_app. split_and!; [done| |apply NoDup_singleton].
    intros k Hk [->|[]%elem_of_nil]%elem_of_cons. done.
  - done.
  - eapply Forall_impl; [exact H5|]. simpl. intros s Hs. rewrite fmap_app.
    apply elem_of_app. by left.
Qed.

Lemma insert_user_sessions_resolve db handle display_name password_hash role t :
  accounts_consistent db →
  me (insert_user db handle display_name password_hash role) (Some t) = me db (Some t).
Proof.
  intros Hc. unfold me. rewrite !require_user_rows.
  replace (session_rows (insert_user db handle display_name password_hash role) t)
    with (session_rows db t); [done|].
  symmetry. apply (session_rows_new_user db t); [done|]. simpl. lia.
Qed.

Lemma logout_sessions db t t' :
  session_rows (logout db (Some t)) t'
  = if decide (t' = t) then [] else session_rows db t'.
Proof.
  unfold session_rows, logout. simpl.
  assert (filter (λ s, session_token s = t') (filter (λ s, session_token s ≠ t) (sessions db))
          = if decide (t' = t) then [] else filter (λ s, session_token s = t') (sessions db))
    as ->.
  { induction (sessions db) as [|s ss IH]; [by destruct (decide _)|].
    rewrite !filter_cons.
    destruct (decide (session_token s ≠ t)) as [Hs|Hs].
    - rewrite filter_cons, IH. destruct (decide (t' = t)) as [->|]; [|done].
      by rewrite decide_False.
    - rewrite IH. destruct (decide (t' = t)) as [->|]; [done|].
      rewrite decide_False; [done|]. intros Heq. apply Hs. congruence. }
  by destruct (decide (t' = t)).
Qed.

Section AccountFacts.
Variable str_strip : string → string.
Variable str_lower : string → string.
Variable pbkdf2_hmac : string → string → string.

Lemma register_free db salt token payload :
  accounts_consistent db →
  _normalize_handle str_strip str_lower (register_handle payload) ∉ user_handle <$> users db →
  token ∉ session_token <$> sessions db →
  let row := mkUserRow (users_seq db + 1)
               (_normalize_handle str_strip str_lower (register_handle payload))
               (str_strip (register_display_name payload))
               (_hash_password pbkdf2_hmac salt (register_password payload))
               (register_role payload) in
  let db1 := insert_user db (user_handle row) (user_display_name row) (user_password_hash row)
               (user_role row) in
  let db2 := with_sessions db1 (sessions db ++ [mkSessionRow token (user_id row)]) in
  register str_strip str_lower pbkdf2_hmac db salt token payload
  = Some (db2, inr (mkAuthResponse token (_row_to_user row))).
Proof.
  intros Hc Hh Htok row db1 db2. unfold register, try_insert_user. cbv zeta.
  rewrite bool_decide_eq_false_2 by done.
  fold row. change (insert_user db _ _ _ _) with db1.
  assert (insert_session db1 token (users_seq db1) = Some db2) as ->.
  { apply insert_session_Some. split_and!; [done| |done].
    simpl. rewrite fmap_app. apply elem_of_app. right. simpl. left. }
  simpl.
  rewrite filter_app, filter_cons, filter_nil, decide_True by done.
  rewrite filter_none; [done|].
  intros u Hu Hid. pose proof (proj1 (Forall_forall _ _) (user_ids_issued db Hc) u Hu).
  simpl in *. lia.
Qed.

Lemma register_taken db salt token payload :
  _normalize_handle str_strip str_lower (register_handle payload) ∈ user_handle <$> users db →
  register str_strip str_lower pbkdf2_hmac db salt token payload
  = Some (db, inl handle_exists).
Proof.
  intros Hh. unfold register, try_insert_user. cbv zeta. by rewrite bool_decide_eq_true_2.
Qed.

Lemma register_clash db salt token payload :
  _normalize_handle str_strip str_lower (register_handle payload) ∉ user_handle <$> users db →
  token ∈ session_token <$> sessions db →
  register str_strip str_lower pbkdf2_hmac db salt token payload = None.
Proof.
  intros Hh Htok. unfold register, try_insert_user. cbv zeta.
  rewrite bool_decide_eq_false_2 by done.
  unfold insert_session. simpl. by rewrite bool_decide_eq_true_2.
Qed.

(** X20. In a store that meets the schema's constraints on users and sessions,
    registration answers 409 with the store unchanged when the normalised handle is
    taken; otherwise it raises without committing when the session token already exists,
    and else appends one user (next id, normalised handle, stripped display name, salted
    hash, requested role) and one session, leaves matches and reports alone, returns the
    token with that user, makes the token authenticate as that user and leaves every
    other token as it was. *)
Theorem register_outcome db salt token payload :
  accounts_consistent db →
  let handle := _normalize_handle str_strip str_lower (register_handle payload) in
  (handle ∈ user_handle <$> users db →
     register str_strip str_lower pbkdf2_hmac db salt token payload
     = Some (db, inl handle_exists)) ∧
  (handle ∉ user_handle <$> users db → token ∈ session_token <$> sessions db →
     register str_strip str_lower pbkdf2_hmac db salt token payload = None) ∧
  (handle ∉ user_handle <$> users db → token ∉ session_token <$> sessions db →
     ∃ db' user,
       register str_strip str_lower pbkdf2_hmac db salt token payload
       = Some (db', inr (mkAuthResponse token user)) ∧
       user = mkUserDto (users_seq db + 1) handle (str_strip (register_display_name payload))
                (register_role payload) ∧
       users db' = users db ++
         [mkUserRow (users_seq db + 1) handle (str_strip (register_display_name payload))
            (_hash_password pbkdf2_hmac salt (register_password payload))
            (register_role payload)] ∧
       sessions db' = sessions db ++ [mkSessionRow token (users_seq db + 1)] ∧
       matches db' = matches db ∧ score_confirmations db' = score_confirmations db ∧
       me db' (Some token) = inr user ∧
       ∀ t, t ≠ token → me db' (Some t) = me db (Some t)).
Proof.
  intros Hc handle. split_and!.
  - apply register_taken.
  - apply register_clash.
  - intros Hh Htok. eexists _, _. split; [by apply register_free|].
    split_and!; try done.
    + set (row := mkUserRow _ _ _ _ _).
      set (db1 := insert_user _ _ _ _ _).
      destruct (insert_session_resolves db1 token row) as (Hme & _).
      * by apply insert_user_consistent.
      * done.
      * simpl. apply elem_of_app. right. left.
      * exact Hme.
    + intros t Ht.
      set (row := mkUserRow _ _ _ _ _).
      set (db1 := insert_user _ _ _ _ _).
      destruct (insert_session_resolves db1 token row) as (_ & Hother & _).
      * by apply insert_user_consistent.
      * done.
      * simpl. apply elem_of_app. right. left.
      * etransitivity; [exact (Hother t Ht)|].
        by apply insert_user_sessions_resolve.
Qed.

Lemma login_unknown db token payload :
  _normalize_handle str_strip str_lower (login_handle payload) ∉ user_handle <$> users db →
  login str_strip str_lower pbkdf2_hmac db token payload
  = Some (db, inl invalid_credentials).
Proof.
  intros Hh. unfold login. cbv zeta. by rewrite filter_absent_key.
Qed.

Lemma login_known db token payload u :
  accounts_consistent db → u ∈ users db →
  user_handle u = _normalize_handle str_strip str_lower (login_handle payload) →
  login str_strip str_lower pbkdf2_hmac db token payload
  = verified ← _verify_password pbkdf2_hmac (login_password payload) (user_password_hash u);
    if negb verified then Some (db, inl invalid_credentials)
    else db' ← insert_session db token (user_id u);
         Some (db', inr (mkAuthResponse token (_row_to_user u))).
Proof.
  intros Hc Hu Hh. unfold login. cbv zeta. rewrite <- Hh.
  rewrite (filter_unique_by user_handle); [done|apply Hc|done].
Qed.

(** X21. In a store that meets the schema's constraints, a login answers 401 with the
    store unchanged when no user has the normalised handle or the password does not
    verify; when it verifies and the token is fresh it appends exactly one session,
    returns the token with that user, makes the token authenticate as that user and
    leaves every other token as it was. *)
Theorem login_outcome db token payload :
  accounts_consistent db →
  let handle := _normalize_handle str_strip str_lower (login_handle payload) in
  (handle ∉ user_handle <$> users db →
     login str_strip str_lower pbkdf2_hmac db token payload
     = Some (db, inl invalid_credentials)) ∧
  (∀ u, u ∈ users db → user_handle u = handle →
     _verify_password pbkdf2_hmac (login_password payload) (user_password_hash u)
     = Some false →
     login str_strip str_lower pbkdf2_hmac db token payload
     = Some (db, inl invalid_credentials)) ∧
  (∀ u, u ∈ users db → user_handle u = handle →
     _verify_password pbkdf2_hmac (login_password payload) (user_password_hash u)
     = Some true →
     token ∉ session_token <$> sessions db →
     ∃ db', login str_strip str_lower pbkdf2_hmac db token payload
            = Some (db', inr (mkAuthResponse token (_row_to_user u))) ∧
       users db' = users db ∧
       sessions db' = sessions db ++ [mkSessionRow token (user_id u)] ∧
       matches db' = matches db ∧ score_confirmations db' = score_confirmations db ∧
       me db' (Some token) = inr (_row_to_user u) ∧
       ∀ t, t ≠ token → me db' (Some t) = me db (Some t)).
Proof.
  intros Hc handle. split_and!.
  - apply login_unknown.
  - intros u Hu Hh Hv. rewrite (login_known db token payload u) by done.
    by rewrite Hv.
  - intros u Hu Hh Hv Htok. rewrite (login_known db token payload u) by done.
    rewrite Hv. simpl.
    assert (insert_session db token (user_id u)
            = Some (with_sessions db (sessions db ++ [mkSessionRow token (user_id u)]))) as ->.
    { apply insert_session_Some. split_and!; [done| |done]. apply list_elem_of_fmap. eauto. }
    simpl. eexists. split; [done|].
    destruct (insert_session_resolves db token u Hc Htok Hu) as (Hme & Hother & _).
    split_and!; done.
Qed.

(** X22. After a successful registration (free handle, fresh token, salt without a
    dollar sign), logging in with the same handle and password succeeds and returns the
    registered user, both tokens then authenticate as that user, and a password with a
    different digest is answered 401 with the store unchanged. *)
Theorem register_then_login db salt token token' payload :
  accounts_consistent db → dollar_free salt →
  _normalize_handle str_strip str_lower (register_handle payload) ∉ user_handle <$> users db →
  token ∉ session_token <$> sessions db →
  token' ∉ session_token <$> sessions db → token' ≠ token →
  ∃ db1 user,
    register str_strip str_lower pbkdf2_hmac db salt token payload
    = Some (db1, inr (mkAuthResponse token user)) ∧
    (∀ attempt,
       pbkdf2_hmac attempt salt ≠ pbkdf2_hmac (register_password payload) salt →
       login str_strip str_lower pbkdf2_hmac db1 token'
         (mkLoginRequest (register_handle payload) attempt)
       = Some (db1, inl invalid_credentials)) ∧
    ∃ db2,
      login str_strip str_lower pbkdf2_hmac db1 token'
        (mkLoginRequest (register_handle payload) (register_password payload))
      = Some (db2, inr (mkAuthResponse token' user)) ∧
      me db2 (Some token) = inr user ∧ me db2 (Some token') = inr user.
Proof.
  intros Hc Hsalt Hh Htok Htok' Hne.
  pose proof (register_free db salt token payload Hc Hh Htok) as Hreg. cbv zeta in Hreg.
  set (row := mkUserRow (users_seq db + 1)
                (_normalize_handle str_strip str_lower (register_handle payload))
                (str_strip (register_display_name payload))
                (_hash_password pbkdf2_hmac salt (register_password payload))
                (register_role payload)) in *.
  set (db0 := insert_user db _ _ _ _) in *.
  set (db1 := with_sessions db0 _) in *.
  assert (accounts_consistent db0) as Hc0 by (by apply insert_user_consistent).
  assert (row ∈ users db0) as Hrow0 by (simpl; apply elem_of_app; right; left).
  destruct (insert_session_resolves db0 token row Hc0 Htok Hrow0) as (Hme1 & _ & Hc1).
  fold db1 in Hme1, Hc1.
  exists db1, (_row_to_user row). split; [exact Hreg|].
  assert (row ∈ users db1) as Hrow1 by exact Hrow0.
  assert (∀ attempt,
            login str_strip str_lower pbkdf2_hmac db1 token'
              (mkLoginRequest (register_handle payload) attempt)
            = verified ← Some (bool_decide (pbkdf2_hmac attempt salt
                                             = pbkdf2_hmac (register_password payload) salt));
              if negb verified then Some (db1, inl invalid_credentials)
              else db' ← insert_session db1 token' (user_id row);
                   Some (db', inr (mkAuthResponse token' (_row_to_user row)))) as Hlogin.
  { intros attempt. rewrite (login_known db1 token' _ row Hc1 Hrow1) by done.
    simpl login_password. simpl user_password_hash.
    by rewrite verify_hashed_password_eq. }
  split.
  - intros attempt Hd. rewrite Hlogin. simpl. by rewrite bool_decide_eq_false_2.
  - rewrite Hlogin, bool_decide_eq_true_2 by done. cbn [mbind option_bind negb].
    assert (token' ∉ session_token <$> sessions db1) as Htok1.
    { simpl. rewrite fmap_app. intros [?|[?|[]%elem_of_nil]%elem_of_cons]%elem_of_app; done. }
    assert (insert_session db1 token' (user_id row)
            = Some (with_sessions db1 (sessions db1 ++ [mkSessionRow token' (user_id row)])))
      as ->.
    { apply insert_session_Some. split_and!; [done| |done]. apply list_elem_of_fmap. eauto. }
    cbn [mbind option_bind]. eexists. split; [done|].
    destruct (insert_session_resolves db1 token' row Hc1 Htok1 Hrow1) as (Hme2 & Hother & _).
    split; [|exact Hme2].
    rewrite (Hother token) by done. exact Hme1.
Qed.

(** X23. Registration, login and logout keep the schema's constraints on users and
    sessions: unique user ids not above the sequence, unique handles, unique session
    tokens, and every session pointing to an existing user. *)
Theorem accounts_stay_consistent db :
  accounts_consistent db →
  (∀ salt token payload db' r,
     register str_strip str_lower pbkdf2_hmac db salt token payload = Some (db', r) →
     accounts_consistent db') ∧
  (∀ token payload db' r,
     login str_strip str_lower pbkdf2_hmac db token payload = Some (db', r) →
     accounts_consistent db') ∧
  (∀ token, accounts_consistent (logout db token)).
Proof.
  intros Hc. split_and!.
  - intros salt token payload db' r.
    destruct (decide (_normalize_handle str_strip str_lower (register_handle payload)
                      ∈ user_handle <$> users db)) as [Hh|Hh].
    { rewrite register_taken by done. by intros [= <- <-]. }
    destruct (decide (token ∈ session_token <$> sessions db)) as [Htok|Htok].
    { by rewrite register_clash. }
    rewrite (register_free db salt token payload Hc Hh Htok). intros [= <- <-].
    set (db0 := insert_user _ _ _ _ _).
    destruct (insert_session_resolves db0 token
                (mkUserRow (users_seq db + 1)
                   (_normalize_handle str_strip str_lower (register_handle payload))
                   (str_strip (register_display_name payload))
                   (_hash_password pbkdf2_hmac salt (register_password payload))
                   (register_role payload)))
      as (_ & _ & Hdone); [| | |exact Hdone].
    + by apply insert_user_consistent.
    + done.
    + simpl. apply elem_of_app. right. left.
  - intros token payload db' r.
    destruct (decide (_normalize_handle str_strip str_lower (login_handle payload)
                      ∈ user_handle <$> users db)) as [Hh|Hh].
    + apply list_elem_of_fmap in Hh as (u & Hh & Hu).
      rewrite (login_known db token payload u) by done.
      destruct (_verify_password pbkdf2_hmac _ _) as [[]|]; simpl;
        [|by intros [= <- <-]|done].
      destruct (insert_session db token (user_id u)) as [db1|] eqn:Hins; [|done].
      simpl. intros [= <- <-].
      apply insert_session_Some in Hins as (Htok & _ & ->).
      by destruct (insert_session_resolves db token u Hc Htok Hu) as (_ & _ & Hdone).
    + rewrite login_unknown by done. by intros [= <- <-].
  - intros [t|]; [|done]. destruct Hc as [H1 H2 H3 H4 H5]. split; simpl; try done.
    + induction (sessions db) as [|s ss IH]; [done|].
      rewrite fmap_cons in H4. apply NoDup_cons in H4 as [Hs H4].
      apply Forall_cons in H5 as [_ H5].
      rewrite filter_cons. destruct (decide _); [|by apply IH].
      rewrite fmap_cons. apply NoDup_cons. split; [|by apply IH].
      intros (s' & Heq & [_ Hs']%list_elem_of_filter)%list_elem_of_fmap.
      apply Hs. apply list_elem_of_fmap. eauto.
    + apply Forall_forall. intros s [_ Hs]%list_elem_of_filter.
      by apply (proj1 (Forall_forall _ _) H5).
Qed.

End AccountFacts.

(** X24. After a logout the token no longer authenticates (401 Invalid session token),
    every other token authenticates as before, a second logout changes nothing, and a
    logout without a token leaves the store unchanged. *)
Theorem logout_revokes db t :
  me (logout db (Some t)) (Some t)
  = inl (mkHTTPException HTTP_401_UNAUTHORIZED "Invalid session token.") ∧
  (∀ t', t' ≠ t → me (logout db (Some t)) (Some t') = me db (Some t')) ∧
  logout (logout db (Some t)) (Some t) = logout db (Some t) ∧
  logout db None = db.
Proof.
  split_and!.
  - unfold me. rewrite require_user_rows, logout_sessions. by rewrite decide_True.
  - intros t' Ht. unfold me. rewrite !require_user_rows, logout_sessions.
    by rewrite decide_False.
  - unfold logout, with_sessions. simpl. f_equal.
    induction (sessions db) as [|s ss IH]; [done|].
    rewrite filter_cons. destruct (decide _) as [Hs|Hs]; [|done].
    rewrite filter_cons, decide_True by done. by rewrite IH.
  - done.
Qed.

(** ** The shape of a social handle *)

Lemma sub_runs_chars (P of_class : ascii → bool) b s :
  P "_"%char = true → (∀ c, of_class c = false → P c = true) →
  all_chars P (sub_runs of_class b s) = true.
Proof.
  intros Hu Hc. revert b. induction s as [|c s IH]; intros b; simpl; [done|].
  destruct (of_class c) eqn:Hcl.
  - destruct b; simpl; [apply IH|]. by rewrite Hu, IH.
  - simpl. by rewrite (Hc c Hcl), IH.
Qed.

Lemma sub_runs_chars_keep (P : ascii → bool) b s :
  all_chars P s = true → all_chars P (sub_runs is_underscore b s) = true.
Proof.
  revert b. induction s as [|c s IH]; intros b; simpl; [done|].
  intros [Hc Hs]%andb_true_iff. destruct (is_underscore c) eqn:Hu.
  - unfold is_underscore in Hu. apply Ascii.eqb_eq in Hu. subst c.
    destruct b; simpl; [by apply IH|]. by rewrite Hc, IH.
  - simpl. by rewrite Hc, IH.
Qed.

Lemma sub_runs_underscores b s :
  double_underscore (sub_runs is_underscore b s) = false ∧
  (b = true → starts_with "_" (sub_runs is_underscore b s) = false).
Proof.
  revert b. induction s as [|c s IH]; intros b; simpl; [done|].
  destruct (is_underscore c) eqn:Hu.
  - destruct b.
    + apply IH.
    + simpl. destruct (IH true) as [-> ->]; done.
  - simpl. rewrite Hu. simpl. destruct (IH false) as [-> _]. split; [done|].
    intros _. exact Hu.
Qed.

Lemma lstrip_chars P c s : all_chars P s = true → all_chars P (lstrip c s) = true.
Proof.
  induction s as [|c' s IH]; simpl; [done|]. intros H.
  destruct (Ascii.eqb c' c); [|done]. apply andb_true_iff in H as [_ H]. by apply IH.
Qed.

Lemma lstrip_runs c s : double_underscore s = false → double_underscore (lstrip c s) = false.
Proof.
  induction s as [|c' s IH]; simpl; [done|]. intros H.
  destruct (Ascii.eqb c' c); [|done]. apply orb_false_iff in H as [_ H]. by apply IH.
Qed.

Lemma lstrip_start c s : starts_with c (lstrip c s) = false.
Proof.
  induction s as [|c' s IH]; simpl; [done|].
  destruct (Ascii.eqb c' c) eqn:Hc; [done|]. simpl. exact Hc.
Qed.

Lemma rstrip_cons c c' s :
  rstrip c (String c' s)
  = match rstrip c s with
    | EmptyString => if Ascii.eqb c' c then EmptyString else String c' EmptyString
    | rest => String c' rest
    end.
Proof. done. Qed.

Lemma rstrip_start c d s : starts_with d s = false → starts_with d (rstrip c s) = false.
Proof.
  destruct s as [|c' s]; [done|]. rewrite rstrip_cons. simpl. intros H.
  destruct (rstrip c s); [|done]. by destruct (Ascii.eqb c' c).
Qed.

Lemma rstrip_start_weak c d s : starts_with d (rstrip c s) = true → starts_with d s = true.
Proof.
  destruct s as [|c' s]; [done|]. rewrite rstrip_cons. simpl.
  destruct (rstrip c s); [|done]. by destruct (Ascii.eqb c' c).
Qed.

Lemma rstrip_chars P c s : all_chars P s = true → all_chars P (rstrip c s) = true.
Proof.
  induction s as [|c' s IH]; [done|]. rewrite rstrip_cons. simpl.
  intros [Hc Hs]%andb_true_iff. specialize (IH Hs).
  destruct (rstrip c s) as [|c'' r].
  - destruct (Ascii.eqb c' c); simpl; [done|]. by rewrite Hc.
  - change (P c' && all_chars P (String c'' r) = true). by rewrite Hc, IH.
Qed.

Lemma rstrip_runs c s : double_underscore s = false → double_underscore (rstrip c s) = false.
Proof.
  induction s as [|c' s IH]; [done|]. rewrite rstrip_cons. simpl.
  intros [Hc Hs]%orb_false_iff. specialize (IH Hs).
  pose proof (rstrip_start_weak c "_" s) as Hw.
  destruct (rstrip c s) as [|c'' r].
  - destruct (Ascii.eqb c' c); simpl; [done|]. by rewrite andb_false_r.
  - change (is_underscore c' && starts_with "_" (String c'' r)
            || double_underscore (String c'' r) = false).
    rewrite IH, orb_false_r.
    destruct (is_underscore c'); [|done]. simpl in *.
    destruct (Ascii.eqb c'' "_"); [|done]. by rewrite Hw in Hc.
Qed.

Lemma take_chars_chars P n s : all_chars P s = true → all_chars P (take_chars n s) = true.
Proof.
  revert n. induction s as [|c s IH]; intros [|n]; simpl; try done.
  intros [Hc Hs]%andb_true_iff. by rewrite Hc, IH.
Qed.

Lemma take_chars_start c n s : starts_with c s = false → starts_with c (take_chars n s) = false.
Proof. destruct s, n; simpl; done. Qed.

Lemma take_chars_runs n s : double_underscore s = false → double_underscore (take_chars n s) = false.
Proof.
  revert n. induction s as [|c s IH]; intros [|n]; simpl; try done.
  intros [Hc Hs]%orb_false_iff. rewrite IH, orb_false_r by done.
  destruct (is_underscore c); [|done]. simpl in *.
  destruct s, n; simpl in *; done.
Qed.

Lemma take_chars_length n s : String.length (take_chars n s) = (n `min` String.length s)%nat.
Proof.
  revert n. induction s as [|c s IH]; intros [|n]; simpl; try done. by rewrite IH.
Qed.

Lemma handle_char_negb c : negb (handle_char c) = false → handle_char c = true.
Proof. by destruct (handle_char c). Qed.

Lemma hex_length r : String.length (hex r) = (2 * String.length r)%nat.
Proof. induction r as [|c r IH]; simpl; [done|]. rewrite IH. lia. Qed.

Lemma hex_digit_plain n :
  handle_char (hex_digit n) = true ∧ is_underscore (hex_digit n) = false.
Proof.
  unfold hex_digit. destruct n as [|p]; [done|].
  do 4 (destruct p as [p|p|]; try done).
Qed.

Lemma hex_chars r :
  all_chars handle_char (hex r) = true ∧
  all_chars (λ c, negb (is_underscore c)) (hex r) = true.
Proof.
  induction r as [|c r [IH1 IH2]]; simpl; [done|].
  destruct (hex_digit_plain (N_of_ascii c / 16)) as [-> ->].
  destruct (hex_digit_plain (N_of_ascii c mod 16)) as [-> ->]. by rewrite IH1, IH2.
Qed.

Lemma no_underscore_shape s :
  all_chars (λ c, negb (is_underscore c)) s = true →
  starts_with "_" s = false ∧ double_underscore s = false.
Proof.
  induction s as [|c s IH]; simpl; [done|].
  intros [Hc Hs]%andb_true_iff. destruct (IH Hs) as [_ ->].
  apply negb_true_iff in Hc. unfold is_underscore in *. by rewrite Hc.
Qed.

Lemma no_underscore_app t d :
  all_chars (λ c, negb (is_underscore c)) (t +:+ String "_" d) = false.
Proof. induction t as [|c t IH]; simpl; [done|]. by rewrite IH, andb_false_r. Qed.

(** Two texts that end in an underscore and a suffix free of underscores have the
    same suffix. *)
Lemma underscore_split_inj t1 t2 d1 d2 :
  all_chars (λ c, negb (is_underscore c)) d1 = true →
  all_chars (λ c, negb (is_underscore c)) d2 = true →
  t1 +:+ String "_" d1 = t2 +:+ String "_" d2 → d1 = d2.
Proof.
  intros H1 H2. revert t2. induction t1 as [|c t1 IH]; intros [|c' t2]; simpl.
  - by intros [= ->].
  - intros [= <- ->]. by rewrite no_underscore_app in H1.
  - intros [= -> <-]. by rewrite no_underscore_app in H2.
  - intros [= -> Heq]. by apply (IH t2).
Qed.

Lemma uint_text_plain d : all_chars (λ c, negb (is_underscore c)) (NilEmpty.string_of_uint d) = true.
Proof. induction d; simpl; done. Qed.

Lemma sql_text_plain z : all_chars (λ c, negb (is_underscore c)) (sql_text z) = true.
Proof.
  unfold sql_text, NilZero.string_of_int, NilZero.string_of_uint.
  destruct (Z.to_int z) as [d|d]; simpl; destruct d; try done; apply (uint_text_plain (_ d)).
Qed.

Section NormalizedHandles.
Variable str_strip : string → string.
Variable str_lower : string → string.

Lemma first_handle_shaped raws handle :
  first_handle str_strip str_lower raws = Some handle → handle_shaped handle.
Proof.
  induction raws as [|[raw|] raws IH]; cbn [first_handle]; [done| |done].
  cbv zeta. set (n1 := sub_runs _ false (str_lower (str_strip raw))).
  set (n2 := sub_runs is_underscore false n1).
  destruct (Z.leb_spec 3 (Z.of_nat (String.length (strip_char "_" n2)))) as [Hlen|_]; [|done].
  intros Heq.
  assert (handle = take_chars 32 (strip_char "_" n2)) as -> by congruence. clear Heq.
  assert (all_chars handle_char n2 = true) as Hchars.
  { apply sub_runs_chars_keep, sub_runs_chars; [done|apply handle_char_negb]. }
  destruct (sub_runs_underscores false n1) as [Hruns _]. fold n2 in Hruns.
  split.
  - rewrite take_chars_length. lia.
  - apply take_chars_chars. unfold strip_char. by apply rstrip_chars, lstrip_chars.
  - apply take_chars_start. unfold strip_char. apply rstrip_start, lstrip_start.
  - apply take_chars_runs. unfold strip_char. by apply rstrip_runs, lstrip_runs.
Qed.

End NormalizedHandles.

Section SocialHandleFacts.
Variable str_strip : string → string.
Variable str_lower : string → string.
Variable str_prefix : Z → string → string.

(** X25. Whatever the hint, email, display name and provider user id are, the base
    handle of a social account has 3 to 32 characters, all from a-z, 0-9, underscore,
    dot and hyphen, does not start with an underscore and has no two underscores in a
    row (the nonce being the hex of 4 bytes). *)
Theorem social_handle_base_shaped provider provider_user_id handle_hint email display_name
    entropy :
  String.length entropy = 4%nat →
  handle_shaped (_social_handle_base str_strip str_lower str_prefix provider provider_user_id
                   handle_hint email display_name (hex entropy)).
Proof.
  intros Hlen. unfold _social_handle_base. cbv zeta.
  destruct (first_handle _ _ _) as [handle|] eqn:Hfirst.
  { by eapply first_handle_shaped. }
  destruct (hex_chars entropy) as [Hc Hn].
  destruct (no_underscore_shape _ Hn) as [Hs Hd].
  pose proof (hex_length entropy) as Hl. rewrite Hlen in Hl. simpl in Hl.
  destruct provider; split; simpl; change (EmptyString +:+ hex entropy) with (hex entropy);
    rewrite ?Hc, ?Hs, ?Hd, ?Hl; try done; lia.
Qed.

End SocialHandleFacts.

(** ** A handle nobody has *)

Section UniqueHandles.
Variable str_prefix : Z → string → string.

Lemma candidate_next base_handle k :
  1 ≤ k →
  str_prefix (Z.max 3 (32 - Z.of_nat (String.length (sql_text (k + 1))) - 1)) base_handle
  +:+ "_" +:+ sql_text (k + 1)
  = candidate str_prefix base_handle (k + 1).
Proof. intros Hk. unfold candidate. by rewrite bool_decide_eq_false_2 by lia. Qed.

Lemma candidate_inj base_handle j k :
  2 ≤ j → 2 ≤ k →
  candidate str_prefix base_handle j = candidate str_prefix base_handle k → j = k.
Proof.
  intros Hj Hk. unfold candidate. rewrite !bool_decide_eq_false_2 by lia.
  change ("_" +:+ ?d) with (String "_" d).
  intros Heq%underscore_split_inj; try apply sql_text_plain. by apply sql_text_inj.
Qed.

Lemma ensure_unique_loop_spec db base_handle turns k :
  1 ≤ k →
  match ensure_unique_loop str_prefix turns db base_handle
          (candidate str_prefix base_handle k) k with
  | Some handle =>
      ∃ j, k ≤ j < k + Z.of_nat turns ∧ handle = candidate str_prefix base_handle j ∧
        (handle ∉ user_handle <$> users db) ∧
        ∀ i, k ≤ i < j → candidate str_prefix base_handle i ∈ user_handle <$> users db
  | None =>
      ∀ i, k ≤ i < k + Z.of_nat turns →
           candidate str_prefix base_handle i ∈ user_handle <$> users db
  end.
Proof.
  revert k. induction turns as [|turns IH]; intros k Hk; cbn [ensure_unique_loop].
  { intros i Hi. lia. }
  cbv zeta.
  destruct (head (filter _ (users db))) as [u|] eqn:Hhead.
  - apply head_Some_elem_of, list_elem_of_filter in Hhead as [Hh Hu].
    assert (candidate str_prefix base_handle k ∈ user_handle <$> users db) as Htaken.
    { rewrite <- Hh. apply list_elem_of_fmap. eauto. }
    rewrite candidate_next by done. specialize (IH (k + 1) ltac:(lia)).
    destruct (ensure_unique_loop _ _ _ _ _ _) as [handle|].
    + destruct IH as (j & Hj & -> & Hfree & Hbelow). exists j.
      split; [lia|]. split; [done|]. split; [done|].
      intros i Hi. destruct (decide (i = k)) as [->|]; [done|]. apply Hbelow. lia.
    + intros i Hi. destruct (decide (i = k)) as [->|]; [done|]. apply IH. lia.
  - exists k. split; [lia|]. split; [done|]. split; [|intros; lia].
    intros (u & Hh & Hu)%list_elem_of_fmap.
    assert (u ∈ filter (λ u, user_handle u = candidate str_prefix base_handle k) (users db))
      as Hin by (by apply list_elem_of_filter).
    destruct (filter _ (users db)); [by apply elem_of_nil in Hin|done].
Qed.

(** There are more candidates than users. *)
Lemma candidates_taken_bound db base_handle k :
  (∀ i, 1 ≤ i < k → candidate str_prefix base_handle i ∈ user_handle <$> users db) →
  k ≤ Z.of_nat (length (users db)) + 2.
Proof.
  intros Htaken. destruct (Z.le_gt_cases k (Z.of_nat (length (users db)) + 2)); [done|].
  exfalso.
  set (l := (λ i : nat, candidate str_prefix base_handle (Z.of_nat i + 2))
              <$> seq 0 (S (length (users db)))).
  assert (NoDup l) as Hnd.
  { apply NoDup_fmap_2; [|apply NoDup_seq].
    intros i j Heq. apply candidate_inj in Heq; lia. }
  assert (l ⊆+ user_handle <$> users db) as Hsub.
  { apply NoDup_submseteq; [done|].
    intros h (i & -> & Hi)%list_elem_of_fmap. apply elem_of_seq in Hi.
    apply Htaken. lia. }
  apply submseteq_length in Hsub. unfold l in Hsub.
  rewrite !length_fmap, length_seq in Hsub. lia.
Qed.

Lemma ensure_unique_handle_Some db base_handle turns :
  (length (users db) + 2 ≤ turns)%nat →
  ∃ handle, _ensure_unique_handle str_prefix turns db base_handle = Some handle ∧
    handle ∉ user_handle <$> users db.
Proof.
  intros Hturns. unfold _ensure_unique_handle.
  pose proof (ensure_unique_loop_spec db base_handle turns 1 ltac:(lia)) as Hspec.
  change (candidate str_prefix base_handle 1) with base_handle in Hspec.
  destruct (ensure_unique_loop _ _ _ _ _ _) as [handle|].
  - destruct Hspec as (k & Hk & -> & Hfree & Hbelow). by eexists.
  - apply candidates_taken_bound in Hspec. lia.
Qed.

(** X26. The search for a free handle ends within (number of users + 2) turns: it
    returns the first candidate in the order base, trimmed_2, trimmed_3, ... that no
    user has, so the result is never a stored handle, and it is the base handle itself
    when that is free. *)
Theorem ensure_unique_handle_fresh db base_handle turns :
  (length (users db) + 2 ≤ turns)%nat →
  ∃ handle k,
    _ensure_unique_handle str_prefix turns db base_handle = Some handle ∧
    (handle ∉ user_handle <$> users db) ∧
    1 ≤ k ≤ Z.of_nat (length (users db)) + 2 ∧
    handle = candidate str_prefix base_handle k ∧
    (∀ i, 1 ≤ i < k → candidate str_prefix base_handle i ∈ user_handle <$> users db) ∧
    (base_handle ∉ user_handle <$> users db → handle = base_handle).
Proof.
  intros Hturns. unfold _ensure_unique_handle.
  pose proof (ensure_unique_loop_spec db base_handle turns 1 ltac:(lia)) as Hspec.
  change (candidate str_prefix base_handle 1) with base_handle in Hspec.
  destruct (ensure_unique_loop _ _ _ _ _ _) as [handle|].
  - destruct Hspec as (k & Hk & -> & Hfree & Hbelow). eexists _, k.
    split_and!; try done; try lia.
    + by apply (candidates_taken_bound db base_handle).
    + intros Hbase. destruct (decide (k = 1)) as [->|Hne]; [done|].
      exfalso. apply Hbase. apply (Hbelow 1). lia.
  - apply candidates_taken_bound in Hspec. lia.
Qed.

End UniqueHandles.

(** ** Social sign-in *)

Lemma identity_filter db provider provider_user_id :
  filter (λ si, social_provider si = provider_text provider ∧
                social_provider_user_id si = provider_user_id) (social_identities db)
  = filter (λ si, identity_key si = (provider_text provider, provider_user_id))
      (social_identities db).
Proof.
  apply list_filter_iff. intros si. unfold identity_key. split.
  - by intros [-> ->].
  - by intros [= -> ->].
Qed.

Lemma linked_user_none db provider provider_user_id :
  (provider_text provider, provider_user_id) ∉ identity_key <$> social_identities db →
  linked_user db provider provider_user_id = [].
Proof. intros Hk. unfold linked_user. by rewrite filter_absent_key. Qed.

Lemma linked_user_one db provider provider_user_id si u :
  identities_consistent db → NoDup (user_id <$> users db) →
  si ∈ social_identities db → identity_key si = (provider_text provider, provider_user_id) →
  u ∈ users db → user_id u = social_user_id si →
  linked_user db provider provider_user_id = [u].
Proof.
  intros Hi Hnd Hsi Hkey Hu Hid. unfold linked_user. rewrite <- Hkey.
  rewrite (filter_unique_by identity_key); [|apply Hi|done].
  rewrite bind_cons. cbn [mbind list_bind]. rewrite app_nil_r, <- Hid.
  by apply (filter_unique_by user_id).
Qed.

Lemma with_social_identities_accounts db sis :
  accounts_consistent db → accounts_consistent (with_social_identities db sis).
Proof. intros [H1 H2 H3 H4 H5]. by split. Qed.

Lemma with_social_identities_me db sis token :
  me (with_social_identities db sis) token = me db token.
Proof. done. Qed.

Lemma with_sessions_identities db ss :
  identities_consistent db → identities_consistent (with_sessions db ss).
Proof. intros [H1 H2]. by split. Qed.

Lemma insert_user_identities db handle display_name password_hash role :
  identities_consistent db →
  identities_consistent (insert_user db handle display_name password_hash role).
Proof.
  intros [H1 H2]. split; simpl; [done|].
  eapply Forall_impl; [exact H2|]. simpl. intros si Hsi. rewrite fmap_app.
  apply elem_of_app. by left.
Qed.

Section SocialLoginFacts.
Variable str_strip : string → string.
Variable str_lower : string → string.
Variable str_prefix : Z → string → string.
Variable pbkdf2_hmac : string → string → string.

(** The sign-in of a linked identity. *)
Lemma social_login_linked db turns rowid secrets payload u :
  str_strip (social_login_provider_user_id payload) ≠ EmptyString →
  linked_user db (social_login_provider payload)
    (str_strip (social_login_provider_user_id payload)) = [u] →
  social_login str_strip str_lower str_prefix pbkdf2_hmac db turns rowid secrets payload
  = db' ← _issue_session db (session_secret secrets) (user_id u);
    Some (db', inr (mkAuthResponse (session_secret secrets) (_row_to_user u))).
Proof.
  intros Hpid Hlinked. unfold social_login. cbv zeta.
  rewrite bool_decide_eq_false_2 by done.
  rewrite identity_filter. fold (linked_user db (social_login_provider payload)
                                   (str_strip (social_login_provider_user_id payload))).
  by rewrite Hlinked.
Qed.

Lemma insert_social_identity_Some db rowid provider provider_user_id uid :
  (provider, provider_user_id) ∉ identity_key <$> social_identities db →
  uid ∈ user_id <$> users db →
  insert_social_identity db rowid provider provider_user_id uid
  = Some (with_social_identities db
            (social_identities db ++ [mkSocialIdentityRow rowid provider provider_user_id uid])).
Proof.
  intros Hk Hu. unfold insert_social_identity.
  rewrite bool_decide_eq_false_2 by done. rewrite bool_decide_eq_false_2; [done|].
  intros Hn. by apply Hn.
Qed.

Lemma new_user_row db u :
  accounts_consistent db → user_id u = users_seq db + 1 →
  head (filter (λ u', user_id u' = users_seq db + 1) (users db ++ [u])) = Some u.
Proof.
  intros Hc Hid. rewrite filter_app, filter_cons, filter_nil, decide_True by done.
  rewrite filter_none; [done|].
  intros u' Hu' Hid'. pose proof (proj1 (Forall_forall _ _) (user_ids_issued db Hc) u' Hu').
  simpl in *. lia.
Qed.

(** The sign-in of an identity that is not linked yet. *)
Lemma social_login_unlinked db turns rowid secrets payload :
  accounts_consistent db →
  str_strip (social_login_provider_user_id payload) ≠ EmptyString →
  (provider_text (social_login_provider payload),
   str_strip (social_login_provider_user_id payload)) ∉ identity_key <$> social_identities db →
  session_secret secrets ∉ session_token <$> sessions db →
  (length (users db) + 2 ≤ turns)%nat →
  ∃ handle, (handle ∉ user_handle <$> users db) ∧
    social_login str_strip str_lower str_prefix pbkdf2_hmac db turns rowid secrets payload
    = let row := mkUserRow (users_seq db + 1) handle (social_display_name str_strip payload)
                   (_hash_password pbkdf2_hmac (password_salt secrets)
                      (password_secret secrets)) player in
      let db1 := insert_user db (user_handle row) (user_display_name row)
                   (user_password_hash row) (user_role row) in
      let db2 := with_social_identities db1
                   (social_identities db ++
                      [mkSocialIdentityRow rowid (provider_text (social_login_provider payload))
                         (str_strip (social_login_provider_user_id payload))
                         (users_seq db + 1)]) in
      let db3 := with_sessions db2
                   (sessions db ++ [mkSessionRow (session_secret secrets) (users_seq db + 1)]) in
      Some (db3, inr (mkAuthResponse (session_secret secrets) (_row_to_user row))).
Proof.
  intros Hc Hpid Hkey Htok Hturns. unfold social_login. cbv zeta.
  rewrite bool_decide_eq_false_2 by done.
  rewrite identity_filter. fold (linked_user db (social_login_provider payload)
                                   (str_strip (social_login_provider_user_id payload))).
  rewrite linked_user_none by done. cbn [head].
  fold (social_display_name str_strip payload).
  set (base_handle := _social_handle_base _ _ _ _ _ _ _ _ _).
  destruct (ensure_unique_handle_Some str_prefix db base_handle turns Hturns)
    as (handle & -> & Hfree).
  exists handle. split; [done|]. cbn [mbind option_bind].
  unfold try_insert_user. rewrite bool_decide_eq_false_2 by done. cbn [mbind option_bind].
  set (hash := _hash_password _ _ _).
  set (row := mkUserRow (users_seq db + 1) handle (social_display_name str_strip payload)
                hash player).
  set (db1 := insert_user db handle (social_display_name str_strip payload) hash player).
  change (users_seq db1) with (users_seq db + 1).
  assert (users_seq db + 1 ∈ user_id <$> users db1) as Hin.
  { simpl. rewrite fmap_app. apply elem_of_app. right. left. }
  rewrite insert_social_identity_Some by done. cbn [mbind option_bind].
  set (db2 := with_social_identities db1 _).
  change (users db2) with (users db ++ [row]).
  rewrite (new_user_row db row Hc eq_refl).
  unfold _issue_session.
  assert (insert_session db2 (session_secret secrets) (users_seq db + 1)
          = Some (with_sessions db2
                    (sessions db ++ [mkSessionRow (session_secret secrets) (users_seq db + 1)])))
    as ->; [|done].
  apply insert_session_Some. by split_and!.
Qed.

(** The store after the first sign-in of an identity. *)
Lemma social_login_unlinked_store db rowid provider provider_user_id token row :
  accounts_consistent db → identities_consistent db →
  user_id row = users_seq db + 1 → user_handle row ∉ user_handle <$> users db →
  (provider_text provider, provider_user_id) ∉ identity_key <$> social_identities db →
  token ∉ session_token <$> sessions db →
  let db1 := insert_user db (user_handle row) (user_display_name row)
               (user_password_hash row) (user_role row) in
  let db2 := with_social_identities db1
               (social_identities db ++
                  [mkSocialIdentityRow rowid (provider_text provider) provider_user_id
                     (users_seq db + 1)]) in
  let db3 := with_sessions db2 (sessions db ++ [mkSessionRow token (users_seq db + 1)]) in
  accounts_consistent db3 ∧ identities_consistent db3 ∧
  linked_user db3 provider provider_user_id = [row] ∧
  me db3 (Some token) = inr (_row_to_user row).
Proof.
  intros Hc Hi Hid Hh Hkey Htok db1 db2 db3.
  assert (row = mkUserRow (users_seq db + 1) (user_handle row) (user_display_name row)
                  (user_password_hash row) (user_role row)) as Hrow.
  { destruct row; simpl in *; by subst. }
  assert (users db1 = users db ++ [row]) as Husers by (simpl; by rewrite <- Hrow).
  assert (accounts_consistent db2) as Hc2.
  { by apply with_social_identities_accounts, insert_user_consistent. }
  assert (row ∈ users db2) as Hrow2.
  { change (users db2) with (users db1). rewrite Husers. apply elem_of_app. right. left. }
  destruct (insert_session_resolves db2 token row Hc2 Htok Hrow2) as (Hme & _ & Hc3).
  rewrite Hid in Hme, Hc3.
  assert (identities_consistent db3) as Hi3.
  { apply with_sessions_identities. destruct Hi as [H1 H2]. split.
    - change (social_identities db2) with
        (social_identities db ++
           [mkSocialIdentityRow rowid (provider_text provider) provider_user_id
              (users_seq db + 1)]).
      rewrite fmap_app. apply NoDup_app. split_and!; [done| |apply NoDup_singleton].
      intros k Hk [->|[]%elem_of_nil]%elem_of_cons. done.
    - change (social_identities db2) with
        (social_identities db ++
           [mkSocialIdentityRow rowid (provider_text provider) provider_user_id
              (users_seq db + 1)]).
      change (users db2) with (users db1). rewrite Husers, fmap_app.
      apply Forall_app. split.
      + eapply Forall_impl; [exact H2|]. simpl. intros si Hsi. apply elem_of_app. by left.
      + apply Forall_singleton. simpl. apply elem_of_app. right. rewrite Hid. left. }
  split_and!; [done|done| |done].
  eapply (linked_user_one db3 provider provider_user_id
            (mkSocialIdentityRow rowid (provider_text provider) provider_user_id
               (users_seq db + 1))); [done|apply Hc3| |done|exact Hrow2|done].
  change (social_identities db3) with
    (social_identities db ++
       [mkSocialIdentityRow rowid (provider_text provider) provider_user_id
          (users_seq db + 1)]).
  apply elem_of_app. right. left.
Qed.

(** X27. In a consistent store, the sign-in of a provider identity that is not linked
    yet (non-empty stripped provider user id, fresh session token) appends exactly one
    user with the next id, role player, the stripped display name (or '<Provider>
    Player') and a handle no user had, links the identity to it, returns the token with
    that user and makes the token authenticate as that user; matches and reports are
    unchanged. *)
Theorem social_login_creates db turns rowid secrets payload :
  accounts_consistent db → identities_consistent db →
  str_strip (social_login_provider_user_id payload) ≠ EmptyString →
  (provider_text (social_login_provider payload),
   str_strip (social_login_provider_user_id payload)) ∉ identity_key <$> social_identities db →
  session_secret secrets ∉ session_token <$> sessions db →
  (length (users db) + 2 ≤ turns)%nat →
  ∃ db' row,
    social_login str_strip str_lower str_prefix pbkdf2_hmac db turns rowid secrets payload
    = Some (db', inr (mkAuthResponse (session_secret secrets) (_row_to_user row))) ∧
    users db' = users db ++ [row] ∧
    user_id row = users_seq db + 1 ∧
    (user_handle row ∉ user_handle <$> users db) ∧
    user_display_name row = social_display_name str_strip payload ∧
    user_role row = player ∧
    linked_user db' (social_login_provider payload)
      (str_strip (social_login_provider_user_id payload)) = [row] ∧
    me db' (Some (session_secret secrets)) = inr (_row_to_user row) ∧
    matches db' = matches db ∧ score_confirmations db' = score_confirmations db.
Proof.
  intros Hc Hi Hpid Hkey Htok Hturns.
  destruct (social_login_unlinked db turns rowid secrets payload Hc Hpid Hkey Htok Hturns)
    as (handle & Hfree & Heq).
  cbv zeta in Heq. rewrite Heq. eexists _, _. split; [done|].
  set (row := mkUserRow _ _ _ _ _).
  destruct (social_login_unlinked_store db rowid (social_login_provider payload)
              (str_strip (social_login_provider_user_id payload)) (session_secret secrets) row
              Hc Hi eq_refl Hfree Hkey Htok) as (_ & _ & Hlinked & Hme).
  split_and!; done.
Qed.

(** X28. In a consistent store, the sign-in of a provider identity that is already
    linked returns the linked user and a new session for it, and creates neither a user
    nor an identity, whatever display name, email and hint the request carries. *)
Theorem social_login_returns db turns rowid secrets payload si :
  accounts_consistent db → identities_consistent db →
  str_strip (social_login_provider_user_id payload) ≠ EmptyString →
  si ∈ social_identities db →
  identity_key si = (provider_text (social_login_provider payload),
                     str_strip (social_login_provider_user_id payload)) →
  session_secret secrets ∉ session_token <$> sessions db →
  ∃ db' u, u ∈ users db ∧ user_id u = social_user_id si ∧
    social_login str_strip str_lower str_prefix pbkdf2_hmac db turns rowid secrets payload
    = Some (db', inr (mkAuthResponse (session_secret secrets) (_row_to_user u))) ∧
    users db' = users db ∧ social_identities db' = social_identities db ∧
    sessions db' = sessions db ++ [mkSessionRow (session_secret secrets) (user_id u)] ∧
    me db' (Some (session_secret secrets)) = inr (_row_to_user u).
Proof.
  intros Hc Hi Hpid Hsi Hkey Htok.
  pose proof (proj1 (Forall_forall _ _) (identity_users_exist db Hi) si Hsi) as Hex.
  apply list_elem_of_fmap in Hex as (u & Hid & Hu).
  rewrite (social_login_linked db turns rowid secrets payload u Hpid).
  2:{ eapply linked_user_one; try done. apply Hc. }
  unfold _issue_session.
  assert (insert_session db (session_secret secrets) (user_id u)
          = Some (with_sessions db
                    (sessions db ++ [mkSessionRow (session_secret secrets) (user_id u)])))
    as ->.
  { apply insert_session_Some. split_and!; [done| |done]. apply list_elem_of_fmap. eauto. }
  cbn [mbind option_bind]. eexists _, u. split_and!; try done.
  by destruct (insert_session_resolves db (session_secret secrets) u Hc Htok Hu) as (Hme & _).
Qed.

(** X29. Signing in twice with the same provider and provider user id gives one account:
    the first sign-in adds one user, the second adds none and returns the same user, and
    both tokens authenticate as that user. *)
Theorem social_login_twice db turns turns' rowid rowid' secrets secrets' payload payload' :
  accounts_consistent db → identities_consistent db →
  str_strip (social_login_provider_user_id payload) ≠ EmptyString →
  (provider_text (social_login_provider payload),
   str_strip (social_login_provider_user_id payload)) ∉ identity_key <$> social_identities db →
  session_secret secrets ∉ session_token <$> sessions db →
  (length (users db) + 2 ≤ turns)%nat →
  social_login_provider payload' = social_login_provider payload →
  str_strip (social_login_provider_user_id payload')
  = str_strip (social_login_provider_user_id payload) →
  session_secret secrets' ∉ session_token <$> sessions db →
  session_secret secrets' ≠ session_secret secrets →
  ∃ db1 db2 user,
    social_login str_strip str_lower str_prefix pbkdf2_hmac db turns rowid secrets payload
    = Some (db1, inr (mkAuthResponse (session_secret secrets) user)) ∧
    social_login str_strip str_lower str_prefix pbkdf2_hmac db1 turns' rowid' secrets' payload'
    = Some (db2, inr (mkAuthResponse (session_secret secrets') user)) ∧
    length (users db1) = S (length (users db)) ∧
    users db2 = users db1 ∧ social_identities db2 = social_identities db1 ∧
    me db2 (Some (session_secret secrets)) = inr user ∧
    me db2 (Some (session_secret secrets')) = inr user.
Proof.
  intros Hc Hi Hpid Hkey Htok Hturns Hprov Hpid' Htok' Hne.
  destruct (social_login_unlinked db turns rowid secrets payload Hc Hpid Hkey Htok Hturns)
    as (handle & Hfree & Heq).
  cbv zeta in Heq. rewrite Heq. clear Heq.
  set (row := mkUserRow _ _ _ _ _).
  destruct (social_login_unlinked_store db rowid (social_login_provider payload)
              (str_strip (social_login_provider_user_id payload)) (session_secret secrets) row
              Hc Hi eq_refl Hfree Hkey Htok) as (Hc1 & Hi1 & Hlinked & Hme).
  cbv zeta in Hc1, Hi1, Hlinked, Hme.
  set (db1 := with_sessions _ _) in *.
  assert (row ∈ users db1) as Hrow by (simpl; apply elem_of_app; right; left).
  assert (session_secret secrets' ∉ session_token <$> sessions db1) as Htok1.
  { simpl. rewrite fmap_app. intros [?|[?|[]%elem_of_nil]%elem_of_cons]%elem_of_app; done. }
  exists db1. eexists _, (_row_to_user row). split; [done|].
  rewrite (social_login_linked db1 turns' rowid' secrets' payload' row).
  2:{ by rewrite Hpid'. }
  2:{ by rewrite Hprov, Hpid'. }
  unfold _issue_session.
  assert (insert_session db1 (session_secret secrets') (user_id row)
          = Some (with_sessions db1
                    (sessions db1 ++ [mkSessionRow (session_secret secrets') (user_id row)])))
    as ->.
  { apply insert_session_Some. split_and!; [done| |done]. apply list_elem_of_fmap. eauto. }
  cbn [mbind option_bind]. split; [done|].
  destruct (insert_session_resolves db1 (session_secret secrets') row Hc1 Htok1 Hrow)
    as (Hme2 & Hother & _).
  split_and!; try done.
  - simpl. rewrite length_app. simpl. lia.
  - rewrite (Hother (session_secret secrets)) by done. exact Hme.
Qed.

End SocialLoginFacts.

(** ** The live snapshot *)

Section LiveFacts.
Variable str_lower : string → string.

(** X17. When both players of every match exist, GET /live fails exactly when a
    confirmed match has a participant who is not a user with role player; otherwise the
    snapshot carries the given time stamp, the rounds that GET /rounds returns for the
    same token, the unfiltered standings, and as current round the first incomplete
    round of its own rounds list (its last round when all are complete). *)
Theorem live_snapshot_spec db now token :
  players_exist db →
  (live_snapshot str_lower db now token = None ↔ ¬ participants_on_roster None db) ∧
  ∀ snapshot, live_snapshot str_lower db now token = Some snapshot →
    snapshot_generated_at snapshot = now ∧
    rounds db token = Some (snapshot_rounds snapshot) ∧
    _standings str_lower db None = Some (snapshot_standings snapshot) ∧
    snapshot_current_round snapshot
    = match filter (λ r, rd_is_complete r = false) (snapshot_rounds snapshot) with
      | r :: _ => Some (rd_round_number r)
      | [] => rd_round_number <$> last (snapshot_rounds snapshot)
      end.
Proof.
  intros Hex. unfold live_snapshot, rounds. cbv zeta.
  set (uid := dto_user_id <$> _optional_user db token).
  destruct (fetch_rounds_flags db uid Hex) as (rs & -> & Hflags).
  cbn [mbind option_bind].
  pose proof (standings_Some_iff str_lower db None) as Hiff.
  destruct (_standings str_lower db None) as [rows|]; cbn [mbind option_bind].
  - split.
    + split; [done|]. intros Hn. exfalso. apply Hn, Hiff. by eexists.
    + intros snapshot [= <-]. simpl. split_and!; try done.
      rewrite current_round_flags, <- Hflags.
      rewrite fmap_last, <- option_fmap_compose.
      rewrite (filter_fmap _ (λ e : Z * bool, e.2 = false)). simpl.
      destruct (filter _ rs) as [|r rs']; done.
  - split; [|done]. split; [|done]. intros _ Hp. apply Hiff in Hp. by destruct Hp.
Qed.

End LiveFacts.

(** ** The worked store, continued *)

Lemma demo_players_exist : players_exist demo_db.
Proof.
  assert (∀ k, k ∈ user_id <$> users demo_db → ∃ u, u ∈ users demo_db ∧ user_id u = k) as Hex.
  { intros k (u & -> & Hu)%list_elem_of_fmap. eauto. }
  assert (Forall (λ m, match_player1_id m ∈ user_id <$> users demo_db ∧
                       match_player2_id m ∈ user_id <$> users demo_db) (matches demo_db)) as Hall.
  { exact (bool_decide_unpack
             (Forall (λ m, match_player1_id m ∈ user_id <$> users demo_db ∧
                           match_player2_id m ∈ user_id <$> users demo_db)
                     (matches demo_db)) I). }
  apply Forall_forall. intros m Hm.
  destruct (proj1 (Forall_forall _ _) Hall m Hm) as [H1 H2]. split; by apply Hex.
Defined.

Lemma unique_key_one_row {A K} `{EqDecision K} (key : A → K) (l : list A) (k : K) :
  NoDup (key <$> l) → (length (filter (λ y, key y = k) l) ≤ 1)%nat.
Proof.
  intros Hnd. destruct (decide (k ∈ key <$> l)) as [Hk|Hk].
  - apply list_elem_of_fmap in Hk as (x & -> & Hx). by rewrite (filter_unique_by key).
  - rewrite filter_absent_key by done. simpl. lia.
Qed.

Lemma demo_one_report_each : one_report_each demo_db.
Proof.
  intros mid uid.
  assert (NoDup ((λ c, (conf_match_id c, conf_player_id c)) <$> score_confirmations demo_db))
    as Hnd.
  { exact (bool_decide_unpack
             (NoDup ((λ c, (conf_match_id c, conf_player_id c))
                       <$> score_confirmations demo_db)) I). }
  pose proof (unique_key_one_row (λ c, (conf_match_id c, conf_player_id c))
                (score_confirmations demo_db) (mid, uid) Hnd) as Hlen.
  erewrite list_filter_iff; [exact Hlen|].
  intros c. unfold conf_key. split; [by intros [-> ->]|by intros [= -> ->]].
Defined.

Lemma demo_accounts_consistent : accounts_consistent demo_db.
Proof.
  split.
  - exact demo_users_unique.
  - exact (bool_decide_unpack (Forall (λ u, user_id u ≤ users_seq demo_db) (users demo_db)) I).
  - exact (bool_decide_unpack (NoDup (user_handle <$> users demo_db)) I).
  - exact (bool_decide_unpack (NoDup (session_token <$> sessions demo_db)) I).
  - exact (bool_decide_unpack
             (Forall (λ s, session_user_id s ∈ user_id <$> users demo_db) (sessions demo_db)) I).
Defined.

Lemma demo_identities_consistent : identities_consistent demo_db.
Proof. split; [apply NoDup_nil_2|apply Forall_nil_2]. Defined.

Lemma demo_linked_accounts_consistent : accounts_consistent demo_linked_db.
Proof. apply with_social_identities_accounts, demo_accounts_consistent. Defined.

Lemma demo_linked_identities_consistent : identities_consistent demo_linked_db.
Proof.
  split.
  - apply NoDup_singleton.
  - apply Forall_singleton. simpl. left.
Defined.

(** ** Witnesses *)

Lemma standings_final_round_witness :
  (λ rows : list StandingRowDto, clear_round_points <$> rows)
    <$> _standings lower_ascii demo_db (Some 2)
  = _standings lower_ascii demo_db None.
Proof.
  apply (standings_final_round lower_ascii demo_db 2).
  intros m Hm.
  assert (Forall (λ m, both_confirmed m → match_round_number m ≤ 2) (matches demo_db)) as Hall.
  { exact (bool_decide_unpack
             (Forall (λ m, both_confirmed m → match_round_number m ≤ 2) (matches demo_db)) I). }
  exact (proj1 (Forall_forall _ _) Hall m Hm).
Defined.

Lemma standings_totals_witness :
  ∃ rows, _standings lower_ascii demo_db None = Some rows ∧
    sumZ sr_played rows = 6 ∧ sumZ sr_wins rows = sumZ sr_losses rows ∧
    sumZ sr_goal_difference rows = 0 ∧ sumZ sr_points rows = 8.
Proof.
  destruct (standings_totals lower_ascii demo_db None demo_users_unique (demo_participants None))
    as (rows & Hrun & Hplayed & Hwins & _ & _ & Hgd & Hpoints).
  exists rows. split_and!; [exact Hrun|exact Hplayed|exact Hwins|exact Hgd|exact Hpoints].
Defined.

Lemma rounds_views_agree_witness :
  ∃ out rs, _standings_by_round lower_ascii demo_db = Some out ∧
    _fetch_rounds demo_db (Some 1) = Some rs ∧
    (λ r, (rd_round_number r, rd_is_complete r)) <$> rs
    = (λ e, (rs_round_number e, rs_is_complete e)) <$> out.
Proof.
  destruct (_standings_by_round lower_ascii demo_db) as [out|] eqn:Hout;
    [|vm_compute in Hout; discriminate Hout].
  destruct (rounds_views_agree lower_ascii demo_db (Some 1) out demo_players_exist Hout)
    as (rs & Hrs & Heq).
  exists out, rs. split_and!; [reflexivity|exact Hrs|exact Heq].
Defined.

Lemma current_round_first_incomplete_witness :
  ∃ rs, _fetch_rounds demo_db None = Some rs ∧
    _current_round demo_db
    = match filter (λ r, rd_is_complete r = false) rs with
      | r :: _ => Some (rd_round_number r)
      | [] => rd_round_number <$> last rs
      end.
Proof. exact (current_round_first_incomplete demo_db None demo_players_exist). Defined.

Lemma round_points_spec_witness :
  ∃ result, _round_points lower_ascii demo_db = Some result ∧
    rp_round_number <$> result = distinct_rounds demo_db.
Proof.
  destruct (round_points_spec lower_ascii demo_db demo_users_unique (demo_participants None))
    as (result & Hrun & Hrounds & _).
  exists result. split; [exact Hrun|exact Hrounds].
Defined.

Lemma round_points_match_standings_witness :
  ∃ result, _round_points lower_ascii demo_db = Some result ∧
    ∀ entry, entry ∈ result →
      ∃ rows, _standings lower_ascii demo_db (Some (rp_round_number entry)) = Some rows ∧
        ∀ row, row ∈ rp_points entry →
          ∃ srow, srow ∈ rows ∧ sr_player_id srow = prp_player_id row ∧
                  sr_round_points srow = prp_points row.
Proof.
  exact (round_points_match_standings lower_ascii demo_db demo_users_unique
           (demo_participants None)).
Defined.

Lemma round_robin_rounds_are_matchings_witness :
  ∃ rounds, _generate_round_robin [1; 2; 3; 4] = Some rounds ∧
    (2 * length (concat rounds) = 12)%nat.
Proof.
  destruct (round_robin_rounds_are_matchings [1; 2; 3; 4]) as (rounds & Hrun & _ & Hcount).
  - exact (bool_decide_unpack (NoDup [1; 2; 3; 4]) I).
  - exists rounds. split; [exact Hrun|exact Hcount].
Defined.

Lemma fetch_matches_listing_witness :
  dto_id <$> _fetch_matches demo_db (Some 2)
  = match_id <$> sort_by match_order_le (matches demo_db) ∧
  ∀ dto, dto ∈ _fetch_matches demo_db (Some 2) →
    dto_my_confirmation dto = my_report demo_db (dto_id dto) (Some 2).
Proof.
  destruct (fetch_matches_listing demo_db (Some 2) demo_users_unique demo_players_exist
              demo_one_report_each) as (Hids & _ & Hdto).
  split; [exact Hids|]. intros dto Hin. exact (proj1 (Hdto dto Hin)).
Defined.

Lemma confirm_returns_own_report_witness :
  ∃ dto,
    (confirm_match_score demo_db demo_clock 5 (mkScoreConfirmRequest 5 0) (Some "ta")).2
    = inr dto ∧
    dto_id dto = 5 ∧
    dto_my_confirmation dto = Some {| dto_score1 := 5; dto_score2 := 0 |} ∧
    1 ≤ dto_confirmations dto.
Proof.
  destruct (confirm_match_score demo_db demo_clock 5 (mkScoreConfirmRequest 5 0) (Some "ta")).2
    as [e|dto] eqn:Hout; [vm_compute in Hout; discriminate Hout|].
  exists dto. split; [reflexivity|].
  exact (confirm_returns_own_report demo_db demo_clock 5 (mkScoreConfirmRequest 5 0)
           (Some "ta") dto Hout).
Defined.

Lemma submission_outcome_witness :
  ∃ dto,
    (confirm_match_score demo_db demo_clock 5 (mkScoreConfirmRequest 5 0) (Some "ta")).2
    = inr dto ∧
    dto_status dto = confirmed ∧
    dto_confirmed_score1 dto = Some 5 ∧ dto_confirmed_score2 dto = Some 0.
Proof.
  destruct (submission_outcome demo_db demo_clock 5 (mkScoreConfirmRequest 5 0) (Some "ta")
              (mkUserDto 1 "alice" "Alice Mercer" player)
              (mkMatchRow 5 3 1 2 1 None None None))
    as (dto & Hout & _ & Hagree & _).
  - reflexivity.
  - reflexivity.
  - reflexivity.
  - intros [H _]. by apply H.
  - right. reflexivity.
  - exists (mkUserRow 2 "bob" "Bob Singh" "h2" player). split; [|reflexivity].
    simpl. right. left.
  - exists (mkUserRow 1 "alice" "Alice Mercer" "h1" player). split; [|reflexivity].
    simpl. left.
  - apply demo_one_report_each.
  - exists dto. split; [exact Hout|].
    destruct Hagree as (Hs & H1 & H2 & _).
    + discriminate.
    + exact (bool_decide_unpack
               (Forall (reports 5 0) (other_reports demo_db 5 1)) I).
    + split_and!; [exact Hs|exact H1|exact H2].
Defined.

Lemma verify_hashed_password_witness :
  _verify_password (λ password salt, salt +:+ password) "pass123"
    (_hash_password (λ password salt, salt +:+ password) "5a17" "pass123")
  = Some true.
Proof.
  destruct (verify_hashed_password (λ password salt, salt +:+ password) "5a17" "pass123"
              "pass123") as (_ & Hok & _).
  - simpl. repeat split; discriminate.
  - exact Hok.
Defined.

Lemma register_outcome_witness :
  register (λ s, s) lower_ascii (λ password salt, salt +:+ password) demo_db "5a17" "te"
    (mkRegisterRequest "Alice" "Alice Again" "secret1" player)
  = Some (demo_db, inl handle_exists).
Proof.
  destruct (register_outcome (λ s, s) lower_ascii (λ password salt, salt +:+ password)
              demo_db "5a17" "te" (mkRegisterRequest "Alice" "Alice Again" "secret1" player)
              demo_accounts_consistent) as (Htaken & _).
  apply Htaken. simpl. left.
Defined.

Lemma login_outcome_witness :
  login (λ s, s) lower_ascii (λ password salt, salt +:+ password) demo_db "te"
    (mkLoginRequest "nobody" "secret1")
  = Some (demo_db, inl invalid_credentials).
Proof.
  destruct (login_outcome (λ s, s) lower_ascii (λ password salt, salt +:+ password)
              demo_db "te" (mkLoginRequest "nobody" "secret1") demo_accounts_consistent)
    as (Hunknown & _).
  apply Hunknown.
  exact (bool_decide_unpack ("nobody" ∉ user_handle <$> users demo_db) I).
Defined.

Lemma register_then_login_witness :
  ∃ db1 db2 user,
    register (λ s, s) lower_ascii (λ password salt, salt +:+ password) demo_db "5a17" "te"
      (mkRegisterRequest "Erin" "Erin Walsh" "secret1" player)
    = Some (db1, inr (mkAuthResponse "te" user)) ∧
    login (λ s, s) lower_ascii (λ password salt, salt +:+ password) db1 "tf"
      (mkLoginRequest "Erin" "secret1")
    = Some (db2, inr (mkAuthResponse "tf" user)) ∧
    me db2 (Some "tf") = inr user.
Proof.
  destruct (register_then_login (λ s, s) lower_ascii (λ password salt, salt +:+ password)
              demo_db "5a17" "te" "tf"
              (mkRegisterRequest "Erin" "Erin Walsh" "secret1" player))
    as (db1 & user & Hreg & _ & db2 & Hlogin & _ & Hme).
  - exact demo_accounts_consistent.
  - simpl. repeat split; discriminate.
  - exact (bool_decide_unpack ("erin" ∉ user_handle <$> users demo_db) I).
  - exact (bool_decide_unpack ("te" ∉ session_token <$> sessions demo_db) I).
  - exact (bool_decide_unpack ("tf" ∉ session_token <$> sessions demo_db) I).
  - discriminate.
  - exists db1, db2, user. split_and!; [exact Hreg|exact Hlogin|exact Hme].
Defined.

Lemma accounts_stay_consistent_witness :
  accounts_consistent (logout demo_db (Some "ta")).
Proof.
  destruct (accounts_stay_consistent (λ s, s) lower_ascii (λ password salt, salt +:+ password)
              demo_db demo_accounts_consistent) as (_ & _ & Hlogout).
  exact (Hlogout (Some "ta")).
Defined.

Lemma social_handle_base_shaped_witness :
  handle_shaped
    (_social_handle_base (λ s, s) lower_ascii (λ n s, s) google "g-100" None
       (Some "Erin.Walsh@example.org") "Erin Walsh" (hex "abcd")).
Proof.
  apply (social_handle_base_shaped (λ s, s) lower_ascii (λ n s, s)). reflexivity.
Defined.

Lemma ensure_unique_handle_fresh_witness :
  ∃ handle, _ensure_unique_handle (λ n s, s) 7 demo_db "alice" = Some handle ∧
    handle ∉ user_handle <$> users demo_db.
Proof.
  destruct (ensure_unique_handle_fresh (λ n s, s) demo_db "alice" 7)
    as (handle & k & Hrun & Hfree & _).
  - simpl. lia.
  - exists handle. split; [exact Hrun|exact Hfree].
Defined.

Lemma social_login_creates_witness :
  ∃ db' row,
    social_login (λ s, s) lower_ascii (λ n s, s) (λ password salt, salt +:+ password)
      demo_db 7 1 (mkSocialSecrets "0badcafe" "pw" "5a17" "te")
      (mkSocialLoginRequest google "g-100" "Erin Walsh" None None)
    = Some (db', inr (mkAuthResponse "te" (_row_to_user row))) ∧
    users db' = users demo_db ++ [row] ∧ user_role row = player.
Proof.
  destruct (social_login_creates (λ s, s) lower_ascii (λ n s, s)
              (λ password salt, salt +:+ password)
              demo_db 7 1 (mkSocialSecrets "0badcafe" "pw" "5a17" "te")
              (mkSocialLoginRequest google "g-100" "Erin Walsh" None None))
    as (db' & row & Hrun & Husers & _ & _ & _ & Hrole & _).
  - exact demo_accounts_consistent.
  - exact demo_identities_consistent.
  - discriminate.
  - simpl. apply not_elem_of_nil.
  - exact (bool_decide_unpack ("te" ∉ session_token <$> sessions demo_db) I).
  - simpl. lia.
  - exists db', row. split_and!; [exact Hrun|exact Husers|exact Hrole].
Defined.

Lemma social_login_returns_witness :
  ∃ db',
    social_login (λ s, s) lower_ascii (λ n s, s) (λ password salt, salt +:+ password)
      demo_linked_db 0 2 (mkSocialSecrets "0badcafe" "pw" "5a17" "te")
      (mkSocialLoginRequest google "g-100" "Someone Else" None None)
    = Some (db', inr (mkAuthResponse "te" (mkUserDto 1 "alice" "Alice Mercer" player))) ∧
    users db' = users demo_linked_db.
Proof.
  destruct (social_login_returns (λ s, s) lower_ascii (λ n s, s)
              (λ password salt, salt +:+ password)
              demo_linked_db 0 2 (mkSocialSecrets "0badcafe" "pw" "5a17" "te")
              (mkSocialLoginRequest google "g-100" "Someone Else" None None)
              (mkSocialIdentityRow 1 "google" "g-100" 1))
    as (db' & u & Hu & Hid & Hrun & Husers & _).
  - exact demo_linked_accounts_consistent.
  - exact demo_linked_identities_consistent.
  - discriminate.
  - simpl. left.
  - reflexivity.
  - exact (bool_decide_unpack ("te" ∉ session_token <$> sessions demo_db) I).
  - exists db'. split; [|exact Husers].
    assert (u = mkUserRow 1 "alice" "Alice Mercer" "h1" player) as ->; [|exact Hrun].
    simpl in Hu, Hid.
    repeat (apply elem_of_cons in Hu as [->|Hu]; [reflexivity || discriminate Hid|]).
    by apply elem_of_nil in Hu.
Defined.

Lemma social_login_twice_witness :
  ∃ db1 db2 user,
    social_login (λ s, s) lower_ascii (λ n s, s) (λ password salt, salt +:+ password)
      demo_db 7 1 (mkSocialSecrets "0badcafe" "pw" "5a17" "te")
      (mkSocialLoginRequest google "g-100" "Erin Walsh" None None)
    = Some (db1, inr (mkAuthResponse "te" user)) ∧
    social_login (λ s, s) lower_ascii (λ n s, s) (λ password salt, salt +:+ password)
      db1 0 2 (mkSocialSecrets "1badcafe" "pw2" "6a17" "tf")
      (mkSocialLoginRequest google "g-100" "E. Walsh" None None)
    = Some (db2, inr (mkAuthResponse "tf" user)) ∧
    users db2 = users db1.
Proof.
  destruct (social_login_twice (λ s, s) lower_ascii (λ n s, s)
              (λ password salt, salt +:+ password)
              demo_db 7 0 1 2 (mkSocialSecrets "0badcafe" "pw" "5a17" "te")
              (mkSocialSecrets "1badcafe" "pw2" "6a17" "tf")
              (mkSocialLoginRequest google "g-100" "Erin Walsh" None None)
              (mkSocialLoginRequest google "g-100" "E. Walsh" None None))
    as (db1 & db2 & user & Hfirst & Hsecond & _ & Husers & _).
  - exact demo_accounts_consistent.
  - exact demo_identities_consistent.
  - discriminate.
  - simpl. apply not_elem_of_nil.
  - exact (bool_decide_unpack ("te" ∉ session_token <$> sessions demo_db) I).
  - simpl. lia.
  - reflexivity.
  - reflexivity.
  - exact (bool_decide_unpack ("tf" ∉ session_token <$> sessions demo_db) I).
  - discriminate.
  - exists db1, db2, user. split_and!; [exact Hfirst|exact Hsecond|exact Husers].
Defined.

Lemma live_snapshot_spec_witness :
  ∃ snapshot, live_snapshot lower_ascii demo_db "n1" (Some "tv") = Some snapshot ∧
    snapshot_current_round snapshot = Some 2.
Proof.
  destruct (live_snapshot_spec lower_ascii demo_db "n1" (Some "tv") demo_players_exist)
    as (_ & Hsome).
  destruct (live_snapshot lower_ascii demo_db "n1" (Some "tv")) as [snapshot|] eqn:Hrun;
    [|vm_compute in Hrun; discriminate Hrun].
  exists snapshot. split; [reflexivity|].
  destruct (Hsome snapshot eq_refl) as (_ & _ & _ & ->).
  vm_compute in Hrun. injection Hrun as <-. reflexivity.
Defined.
